(** * Graph contraction engine of grafo.py and grafo1.py

    A shallow embedding of the two scripts' [DraggableGraph] engine: node
    merging with edge-weight summation, greedy maximum-edge selection, the
    merge history, shrink checkpoints and reset, the mouse and key handlers,
    and the adjacency-matrix loader.

    Conventions.
    - A Python [dict] is an insertion-ordered association list ([dict_set]
      updates in place or appends, [dict_del] removes), because the scripts
      iterate over dictionaries and the order is observable.
    - A networkx [Graph] is its adjacency dictionary [_adj]: node to
      (neighbour to weight).  Every edge of the scripts carries exactly the
      attribute [weight], so an edge's attribute dictionary is its weight.
    - Weights and coordinates are Python floats; they are held as exact
      rationals [Q] (the spec's real edge weights, the values of the floats),
      and [float('-inf')] is [None].  The two tolerance tests of
      [find_max_edge_node] in grafo.py and the radius test of the mouse
      handlers are made in IEEE binary64 arithmetic, as Python makes them:
      their operands are turned into floats, and the sums, the differences,
      the squares and the comparison are those of the floats.
    - A method is a function from the engine state to an outcome and the
      state it leaves behind: a raised exception keeps every mutation made
      before it, as in Python.
    - Drawing ([draw_graph], [print]) does not touch the engine state and is
      left out. *)

From Stdlib Require Import List String Ascii Bool Arith ZArith QArith Lia Lqa Permutation.
From Stdlib Require Import DecimalString.
From Stdlib Require DecimalNat DecimalZ.
From Stdlib Require SpecFloat.
Import ListNotations.

Local Open Scope list_scope.
Local Open Scope Z_scope.
Local Open Scope nat_scope.

(** ** Exceptions and the state-and-exception monad *)

(** The Python exceptions the modelled code can raise.  [NetworkXError] is
    what networkx raises for a node that is not in the graph. *)
Inductive exn : Type :=
| NetworkXError
| KeyError
| IndexError
| ValueError
| AttributeError
| OutOfFuel.

Inductive outcome (A : Type) : Type :=
| Return (a : A)
| Raise (e : exn).

Arguments Return {A} a.
Arguments Raise {A} e.

Definition M (S A : Type) : Type := S -> outcome A * S.

Definition ret {S A : Type} (a : A) : M S A := fun s => (Return a, s).

Definition raise {S A : Type} (e : exn) : M S A := fun s => (Raise e, s).

Definition bind {S A B : Type} (m : M S A) (k : A -> M S B) : M S B :=
  fun s =>
    match m s with
    | (Return a, s') => k a s'
    | (Raise e, s') => (Raise e, s')
    end.

Definition get_state {S : Type} : M S S := fun s => (Return s, s).

Definition modify {S : Type} (f : S -> S) : M S unit := fun s => (Return tt, f s).

Definition lift {S A : Type} (o : outcome A) : M S A := fun s => (o, s).

Declare Scope py_scope.
Delimit Scope py_scope with py.

Notation "x <- m ;; k" := (bind m (fun x => k))
  (at level 61, m at next level, right associativity) : py_scope.
Notation "m ;; k" := (bind m (fun _ => k))
  (at level 61, right associativity) : py_scope.

(** [for x in l: body x] *)
Fixpoint for_each {S X : Type} (l : list X) (body : X -> M S unit) : M S unit :=
  match l with
  | [] => ret tt
  | x :: l' => bind (body x) (fun _ => for_each l' body)
  end.

(** Binding in the exception monad without state. *)
Definition obind {A B : Type} (o : outcome A) (k : A -> outcome B) : outcome B :=
  match o with
  | Return a => k a
  | Raise e => Raise e
  end.

(** ** Insertion-ordered dictionaries *)

Section Dict.

Context {K A : Type} (K_eq_dec : forall x y : K, {x = y} + {x <> y}).

Definition dict : Type := list (K * A).

Fixpoint dict_get (d : dict) (k : K) : option A :=
  match d with
  | [] => None
  | (k', a) :: d' => if K_eq_dec k k' then Some a else dict_get d' k
  end.

Definition dict_mem (d : dict) (k : K) : bool :=
  match dict_get d k with
  | Some _ => true
  | None => false
  end.

(** [d[k] = a]: an existing key keeps its place, a new key goes last. *)
Fixpoint dict_set (d : dict) (k : K) (a : A) : dict :=
  match d with
  | [] => [(k, a)]
  | (k', a') :: d' =>
      if K_eq_dec k k' then (k, a) :: d' else (k', a') :: dict_set d' k a
  end.

(** The entries left by [del d[k]]; the caller raises [KeyError] when the key
    is missing. *)
Definition dict_del (d : dict) (k : K) : dict :=
  filter (fun e => if K_eq_dec k (fst e) then false else true) d.

Definition dict_keys (d : dict) : list K := map fst d.

End Dict.

Arguments dict K A : clear implicits.

(** ** Node identifiers and set iteration order *)

(** What the scripts need of a node identifier: equality, [str(v)] as an
    f-string prints it, and a [str] object used as a node.  In grafo.py every
    node is a [str]; in grafo1.py the original nodes are [int]s and the merged
    ones are [str]s. *)
Class NodeId (V : Type) : Type := {
  node_eq_dec : forall x y : V, {x = y} + {x <> y};
  node_str : V -> string;
  node_of_str : string -> V;
  node_str_of_str : forall s : string, node_str (node_of_str s) = s
}.

(** The order in which Python iterates over [set(l1).union(set(l2))] is not
    specified (it follows the hash values); the model takes it as given, and
    only knows that every element comes exactly once. *)
Class SetIter (V : Type) : Type := {
  set_union_iter : list V -> list V -> list V;
  set_union_iter_NoDup : forall l1 l2, NoDup (set_union_iter l1 l2);
  set_union_iter_In :
    forall l1 l2 x, In x (set_union_iter l1 l2) <-> In x l1 \/ In x l2
}.

(** [f"{node1},{node2}"] *)
Definition joined {V : Type} `{NodeId V} (node1 node2 : V) : V :=
  node_of_str (node_str node1 ++ "," ++ node_str node2)%string.

(** ** The networkx graph *)

Section Networkx.

Context {V : Type} `{NodeId V}.

(** [Graph._adj]: node to (neighbour to weight). *)
Definition graph : Type := dict V (dict V Q).

Definition nx_get (d : dict V Q) (k : V) : option Q := dict_get node_eq_dec d k.

Definition nx_adj (g : graph) (n : V) : option (dict V Q) := dict_get node_eq_dec g n.

(** [n in G] *)
Definition nx_has_node (g : graph) (n : V) : bool := dict_mem node_eq_dec g n.

(** [list(G.nodes)] *)
Definition nx_nodes (g : graph) : list V := dict_keys g.

(** [len(G.nodes)] *)
Definition nx_number_of_nodes (g : graph) : nat := List.length (nx_nodes g).

(** [G.neighbors(n)]: raises for a node that is not in the graph. *)
Definition nx_neighbors (g : graph) (n : V) : outcome (list V) :=
  match nx_adj g n with
  | Some nbrs => Return (dict_keys nbrs)
  | None => Raise NetworkXError
  end.

(** [G.get_edge_data(u, v, {"weight": default})["weight"]] *)
Definition nx_get_edge_data (g : graph) (u v : V) (default : Q) : Q :=
  match nx_adj g u with
  | Some nbrs =>
      match nx_get nbrs v with
      | Some w => w
      | None => default
      end
  | None => default
  end.

(** [G[u][v]["weight"]] *)
Definition nx_weight (g : graph) (u v : V) : outcome Q :=
  match nx_adj g u with
  | Some nbrs =>
      match nx_get nbrs v with
      | Some w => Return w
      | None => Raise KeyError
      end
  | None => Raise KeyError
  end.

(** [G.add_node(n)] *)
Definition nx_add_node (g : graph) (n : V) : graph :=
  if nx_has_node g n then g else g ++ [(n, [])].

(** [G.add_nodes_from(l)] *)
Definition nx_add_nodes_from (g : graph) (l : list V) : graph :=
  fold_left nx_add_node l g.

(** [adj[u][v] = w] for a node [u] of the graph. *)
Definition nx_set_adj (g : graph) (u v : V) (w : Q) : graph :=
  match nx_adj g u with
  | Some nbrs => dict_set node_eq_dec g u (dict_set node_eq_dec nbrs v w)
  | None => g
  end.

(** [G.add_edge(u, v, weight=w)]: adds missing end points, then writes the
    weight in both directions. *)
Definition nx_add_edge (g : graph) (u v : V) (w : Q) : graph :=
  let g1 := nx_add_node g u in
  let g2 := nx_add_node g1 v in
  let g3 := nx_set_adj g2 u v w in
  nx_set_adj g3 v u w.

(** [G.add_edges_from(l)] for triples [(u, v, {"weight": w})]. *)
Definition nx_add_edges_from (g : graph) (l : list (V * V * Q)) : graph :=
  fold_left (fun g e => nx_add_edge g (fst (fst e)) (snd (fst e)) (snd e)) l g.

(** [del adj[u][n]] inside [remove_nodes_from]. *)
Definition nx_del_adj (g : graph) (u n : V) : graph :=
  match nx_adj g u with
  | Some nbrs => dict_set node_eq_dec g u (dict_del node_eq_dec nbrs n)
  | None => g
  end.

(** One round of [G.remove_nodes_from]: a node that is not in the graph is
    skipped silently ([except KeyError: pass]). *)
Definition nx_remove_node (g : graph) (n : V) : graph :=
  match nx_adj g n with
  | Some nbrs =>
      dict_del node_eq_dec
        (fold_left (fun g u => nx_del_adj g u n) (dict_keys nbrs) g) n
  | None => g
  end.

(** [G.remove_nodes_from(l)] *)
Definition nx_remove_nodes_from (g : graph) (l : list V) : graph :=
  fold_left nx_remove_node l g.

(** [G.edges(data=True)]: every node's adjacency in turn, skipping the
    neighbours whose own adjacency has been listed already. *)
Fixpoint nx_edges_seen (adj : graph) (seen : list V) : list (V * V * Q) :=
  match adj with
  | [] => []
  | (n, nbrs) :: adj' =>
      map (fun e => (n, fst e, snd e))
          (filter (fun e => if in_dec node_eq_dec (fst e) seen then false else true) nbrs)
        ++ nx_edges_seen adj' (n :: seen)
  end.

Definition nx_edges (g : graph) : list (V * V * Q) := nx_edges_seen g [].

(** Every directed adjacency entry, as [Graph.copy] lists them. *)
Definition nx_adjacency_entries (g : graph) : list (V * V * Q) :=
  flat_map (fun e => map (fun f => (fst e, fst f, snd f)) (snd e)) g.

(** [G.copy()] *)
Definition nx_copy (g : graph) : graph :=
  nx_add_edges_from (nx_add_nodes_from [] (nx_nodes g)) (nx_adjacency_entries g).

(** [G.clear()] followed by [add_nodes_from(o.nodes())] and
    [add_edges_from(o.edges(data=True))], as [reset_graph] does. *)
Definition nx_rebuild (o : graph) : graph :=
  nx_add_edges_from (nx_add_nodes_from [] (nx_nodes o)) (nx_edges o).

(** The class invariant of a networkx [Graph]: no node twice, no neighbour
    twice, every neighbour a node, and the same weight in both directions. *)
Definition nx_wf (g : graph) : Prop :=
  NoDup (nx_nodes g) /\
  forall u nbrs, nx_adj g u = Some nbrs ->
    NoDup (dict_keys nbrs) /\
    forall v w, nx_get nbrs v = Some w ->
      exists nbrs', nx_adj g v = Some nbrs' /\ nx_get nbrs' u = Some w.

End Networkx.

Arguments graph V : clear implicits.

(** ** Merging two nodes: the part both scripts share *)

Section Merge.

Context {V : Type} `{NodeId V} {set_order : SetIter V}.

(** [self.pos]: node to its coordinates. *)
Definition positions : Type := dict V (Q * Q).

(** The loop of [merge_nodes] that fills [edges], over the neighbours in the
    order the set yields them. *)
Definition merged_edges (g : graph V) (node1 node2 : V) (nbrs : list V) : dict V Q :=
  fold_left
    (fun edges neighbor =>
       if in_dec node_eq_dec neighbor [node1; node2] then edges
       else dict_set node_eq_dec edges neighbor
              (nx_get_edge_data g node1 neighbor 0 + nx_get_edge_data g node2 neighbor 0)%Q)
    nbrs [].

(** [remove_nodes_from], [add_node] and the loop of [add_edge]. *)
Definition contract (g : graph V) (node1 node2 : V) (edges : dict V Q) : graph V :=
  let new_node := joined node1 node2 in
  let g1 := nx_remove_nodes_from g [node1; node2] in
  let g2 := nx_add_node g1 new_node in
  fold_left (fun g e => nx_add_edge g new_node (fst e) (snd e)) edges g2.

Definition midpoint (p1 p2 : Q * Q) : Q * Q :=
  ((fst p1 + fst p2) / 2, (snd p1 + snd p2) / 2)%Q.

(** [pos[n]] *)
Definition pos_getitem (pos : positions) (n : V) : outcome (Q * Q) :=
  match dict_get node_eq_dec pos n with
  | Some p => Return p
  | None => Raise KeyError
  end.

(** [del pos[n]] *)
Definition pos_delitem (pos : positions) (n : V) : outcome positions :=
  if dict_mem node_eq_dec pos n then Return (dict_del node_eq_dec pos n)
  else Raise KeyError.

(** The body of [merge_nodes] from [new_node = ...] on, over the graph and
    the positions.  Both [neighbors] calls come before the first mutation;
    the positions are read and deleted after the graph has been rewritten. *)
Definition merge_graph_pos (node1 node2 : V) : M (graph V * positions) unit :=
  fun gp =>
    let g := fst gp in
    let pos := snd gp in
    let new_node := joined node1 node2 in
    match nx_neighbors g node1 with
    | Raise e => (Raise e, (g, pos))
    | Return nbrs1 =>
    match nx_neighbors g node2 with
    | Raise e => (Raise e, (g, pos))
    | Return nbrs2 =>
        let edges := merged_edges g node1 node2 (set_union_iter nbrs1 nbrs2) in
        let g' := contract g node1 node2 edges in
        match pos_getitem pos node1 with
        | Raise e => (Raise e, (g', pos))
        | Return p1 =>
        match pos_getitem pos node2 with
        | Raise e => (Raise e, (g', pos))
        | Return p2 =>
            let pos1 := dict_set node_eq_dec pos new_node (midpoint p1 p2) in
            match pos_delitem pos1 node1 with
            | Raise e => (Raise e, (g', pos1))
            | Return pos2 =>
            match pos_delitem pos2 node2 with
            | Raise e => (Raise e, (g', pos2))
            | Return pos3 => (Return tt, (g', pos3))
            end
            end
        end
        end
    end
    end.

(** The graph that [merge_nodes] leaves. *)
Definition merge_graph (g : graph V) (node1 node2 : V) : graph V :=
  match nx_neighbors g node1, nx_neighbors g node2 with
  | Return nbrs1, Return nbrs2 =>
      contract g node1 node2 (merged_edges g node1 node2 (set_union_iter nbrs1 nbrs2))
  | _, _ => g
  end.

(** The weight of the edge between [u] and [v], a missing edge counting 0. *)
Definition weight_or_0 (g : graph V) (u v : V) : Q := nx_get_edge_data g u v 0.

End Merge.

Arguments positions V : clear implicits.

(** ** Python strings *)

Definition comma : ascii := Ascii.ascii_of_nat 44.

(** [s.split(",")] *)
Fixpoint split_comma (s : string) : list string :=
  match s with
  | EmptyString => [EmptyString]
  | String c s' =>
      if Ascii.eqb c comma then EmptyString :: split_comma s'
      else match split_comma s' with
           | t :: ts => String c t :: ts
           | [] => [String c EmptyString]
           end
  end.

Definition is_digit (c : ascii) : bool :=
  (48 <=? nat_of_ascii c) && (nat_of_ascii c <=? 57).

Definition digit_val (c : ascii) : Z := Z.of_nat (nat_of_ascii c - 48).

(** ASCII white space as [str.strip] and [str.split] see it. *)
Definition is_space (c : ascii) : bool :=
  ((9 <=? nat_of_ascii c) && (nat_of_ascii c <=? 13))
  || ((28 <=? nat_of_ascii c) && (nat_of_ascii c <=? 32)).

Definition is_empty (s : string) : bool :=
  match s with
  | EmptyString => true
  | String _ _ => false
  end.

Fixpoint py_lstrip (s : string) : string :=
  match s with
  | EmptyString => EmptyString
  | String c s' => if is_space c then py_lstrip s' else s
  end.

Fixpoint py_rstrip (s : string) : string :=
  match s with
  | EmptyString => EmptyString
  | String c s' =>
      let r := py_rstrip s' in
      if is_space c && is_empty r then EmptyString else String c r
  end.

(** [s.strip()] *)
Definition py_strip (s : string) : string := py_rstrip (py_lstrip s).

Fixpoint py_split_go (s cur : string) : list string :=
  match s with
  | EmptyString => if is_empty cur then [] else [cur]
  | String c s' =>
      if is_space c then
        if is_empty cur then py_split_go s' EmptyString
        else cur :: py_split_go s' EmptyString
      else py_split_go s' (cur ++ String c EmptyString)%string
  end.

(** [s.split()] *)
Definition py_split (s : string) : list string := py_split_go s EmptyString.

(** Decimal digits with single underscores between them. *)
Fixpoint py_digits (s : string) (acc : Z) (after_digit : bool) : option Z :=
  match s with
  | EmptyString => if after_digit then Some acc else None
  | String c s' =>
      if is_digit c then py_digits s' (10 * acc + digit_val c)%Z true
      else if Ascii.eqb c (Ascii.ascii_of_nat 95) && after_digit then py_digits s' acc false
      else None
  end.

(** [int(s)] for a [str]: white space around, an optional sign, decimal
    digits; anything else is a [ValueError].  (Digits outside ASCII, which
    Python also reads, do not occur in the scripts' identifiers and files.) *)
Definition py_int (s : string) : outcome Z :=
  let t := py_strip s in
  let r :=
    match t with
    | String c t' =>
        if Ascii.eqb c (Ascii.ascii_of_nat 43) then py_digits t' 0%Z false
        else if Ascii.eqb c (Ascii.ascii_of_nat 45) then option_map Z.opp (py_digits t' 0%Z false)
        else py_digits t 0%Z false
    | EmptyString => None
    end in
  match r with
  | Some z => Return z
  | None => Raise ValueError
  end.

(** [str(i)] for a natural number. *)
Definition py_str_nat (i : nat) : string := NilEmpty.string_of_uint (Nat.to_uint i).

(** [str(z)] for an [int]. *)
Definition py_str_int (z : Z) : string := NilEmpty.string_of_int (Z.to_int z).

Fixpoint py_lines_go (s cur : string) : list string :=
  match s with
  | EmptyString => if is_empty cur then [] else [cur]
  | String c s' =>
      if Ascii.eqb c (Ascii.ascii_of_nat 10)
      then (cur ++ String c EmptyString)%string :: py_lines_go s' EmptyString
      else py_lines_go s' (cur ++ String c EmptyString)%string
  end.

(** The lines of a text file, each with its newline. *)
Definition py_lines (s : string) : list string := py_lines_go s EmptyString.

(** [l[-k]] for [k >= 1]. *)
Definition py_index_from_end {A : Type} (l : list A) (k : nat) : outcome A :=
  match nth_error l (List.length l - k) with
  | Some a => if List.length l <? k then Raise IndexError else Return a
  | None => Raise IndexError
  end.

(** [l[i]] for [i >= 0]. *)
Definition py_index {A : Type} (l : list A) (i : nat) : outcome A :=
  match nth_error l i with
  | Some a => Return a
  | None => Raise IndexError
  end.

Fixpoint fold_outcome {A X : Type} (f : A -> X -> outcome A) (l : list X) (a : A) : outcome A :=
  match l with
  | [] => Return a
  | x :: l' => obind (f a x) (fun a' => fold_outcome f l' a')
  end.

Fixpoint map_outcome {A B : Type} (f : A -> outcome B) (l : list A) : outcome (list B) :=
  match l with
  | [] => Return []
  | x :: l' =>
      obind (f x) (fun y => obind (map_outcome f l') (fun ys => Return (y :: ys)))
  end.

(** ** The adjacency-matrix loader (the same in both scripts) *)

Section Loader.

(** [float(token)]: the value of a numeric token, [None] for a [ValueError]. *)
Variable py_float : string -> option Q.

Definition float_of_token (tok : string) : outcome Q :=
  match py_float tok with
  | Some q => Return q
  | None => Raise ValueError
  end.

(** [list(map(float, line.strip().split()))] *)
Definition read_row (line : string) : outcome (list Q) :=
  map_outcome float_of_token (py_split (py_strip line)).

(** [read_graph_from_file], from the text of the file. *)
Definition read_graph_from_file (file : string) : outcome (Z * list (list Q)) :=
  let lines := py_lines file in
  obind (py_int (py_strip (hd EmptyString lines))) (fun n =>
  obind (map_outcome read_row (tl lines)) (fun matrix =>
  Return (n, matrix))).

(** [matrix[i][j]] *)
Definition matrix_entry (matrix : list (list Q)) (i j : nat) : outcome Q :=
  obind (py_index matrix i) (fun row => py_index row j).

End Loader.

(** ** Python floats *)

(** A Python [float] is an IEEE binary64 number: 53 bits of precision. *)
Definition float_prec : Z := 53.
Definition float_emax : Z := 1024.

(** The float of a rational: the quotient of numerator and denominator
    rounded once, to nearest (ties to even).  It is the rational itself when
    that is the value of a float, as a Python weight always is, and otherwise
    the float nearest to it, as [float(token)] or a literal of the source
    gives it. *)
Definition float_of_Q (q : Q) : SpecFloat.spec_float :=
  match Qnum q with
  | Z0 => SpecFloat.S754_zero false
  | Zpos n =>
      SpecFloat.SFdiv float_prec float_emax
        (SpecFloat.S754_finite false n 0) (SpecFloat.S754_finite false (Qden q) 0)
  | Zneg n =>
      SpecFloat.SFdiv float_prec float_emax
        (SpecFloat.S754_finite true n 0) (SpecFloat.S754_finite false (Qden q) 0)
  end.

(** ** Mouse events *)

(** A matplotlib mouse event as the handlers read it: the data coordinates
    [(event.xdata, event.ydata)] of the pointer when it is over the axes of
    the figure ([event.inaxes == self.ax]; [plt.subplots] gives the figure
    one axes), and [None] when it is outside, where [event.inaxes],
    [event.xdata] and [event.ydata] are all [None]. *)
Definition mouse_event : Type := option (Q * Q).

(** How a mouse handler ends: it returns, an exception of the engine passes
    through it, or [x - event.xdata] raises [TypeError] on the [None] of an
    event outside the axes. *)
Inductive mouse_outcome : Type :=
| Handled
| Failed (e : exn)
| TypeError.

(** [self.node_radius = 0.05] *)
Definition node_radius : Q := 5 # 100.

(** [v ** 2] on a float: the product of the float with itself. *)
Definition float_square (v : SpecFloat.spec_float) : SpecFloat.spec_float :=
  SpecFloat.SFmul float_prec float_emax v v.

(** [(x - event.xdata) ** 2 + (y - event.ydata) ** 2 < self.node_radius ** 2],
    in the arithmetic of the floats. *)
Definition within_radius (p xy : Q * Q) : bool :=
  SpecFloat.SFltb
    (SpecFloat.SFadd float_prec float_emax
       (float_square
          (SpecFloat.SFsub float_prec float_emax (float_of_Q (fst p)) (float_of_Q (fst xy))))
       (float_square
          (SpecFloat.SFsub float_prec float_emax (float_of_Q (snd p)) (float_of_Q (snd xy)))))
    (float_square (float_of_Q node_radius)).

(** ** grafo.py *)

Module Grafo.

(** Every node of grafo.py is a [str]: [plot_graph] labels the nodes with
    [map(str, range(n))] and [merge_nodes] creates f-strings. *)
#[global] Instance str_node : NodeId string := {|
  node_eq_dec := string_dec;
  node_str := fun s => s;
  node_of_str := fun s => s;
  node_str_of_str := fun s => eq_refl
|}.

Section Engine.

Context {set_order : SetIter string}.

(** The attributes of [DraggableGraph] that the engine reads and writes. *)
Record DraggableGraph : Type := {
  G : graph string;
  pos : positions string;
  selected_node : option string;
  original_G : graph string;
  original_pos : positions string;
  merged_node : string;
  last_merged_nodes : list string;
  merged_nodes : list string;
  shrinked_nodes : list (string * string);
  initial_nodes : list string
}.

Definition set_G_pos (self : DraggableGraph) (g : graph string) (p : positions string) : DraggableGraph :=
  {| G := g; pos := p; selected_node := selected_node self;
     original_G := original_G self; original_pos := original_pos self;
     merged_node := merged_node self; last_merged_nodes := last_merged_nodes self;
     merged_nodes := merged_nodes self; shrinked_nodes := shrinked_nodes self;
     initial_nodes := initial_nodes self |}.

Definition set_merged_node (self : DraggableGraph) (n : string) : DraggableGraph :=
  {| G := G self; pos := pos self; selected_node := selected_node self;
     original_G := original_G self; original_pos := original_pos self;
     merged_node := n; last_merged_nodes := last_merged_nodes self;
     merged_nodes := merged_nodes self; shrinked_nodes := shrinked_nodes self;
     initial_nodes := initial_nodes self |}.

Definition set_last_merged_nodes (self : DraggableGraph) (l : list string) : DraggableGraph :=
  {| G := G self; pos := pos self; selected_node := selected_node self;
     original_G := original_G self; original_pos := original_pos self;
     merged_node := merged_node self; last_merged_nodes := l;
     merged_nodes := merged_nodes self; shrinked_nodes := shrinked_nodes self;
     initial_nodes := initial_nodes self |}.

Definition set_merged_nodes (self : DraggableGraph) (l : list string) : DraggableGraph :=
  {| G := G self; pos := pos self; selected_node := selected_node self;
     original_G := original_G self; original_pos := original_pos self;
     merged_node := merged_node self; last_merged_nodes := last_merged_nodes self;
     merged_nodes := l; shrinked_nodes := shrinked_nodes self;
     initial_nodes := initial_nodes self |}.

Definition set_shrinked_nodes (self : DraggableGraph) (l : list (string * string)) : DraggableGraph :=
  {| G := G self; pos := pos self; selected_node := selected_node self;
     original_G := original_G self; original_pos := original_pos self;
     merged_node := merged_node self; last_merged_nodes := last_merged_nodes self;
     merged_nodes := merged_nodes self; shrinked_nodes := l;
     initial_nodes := initial_nodes self |}.

Definition set_initial_nodes (self : DraggableGraph) (l : list string) : DraggableGraph :=
  {| G := G self; pos := pos self; selected_node := selected_node self;
     original_G := original_G self; original_pos := original_pos self;
     merged_node := merged_node self; last_merged_nodes := last_merged_nodes self;
     merged_nodes := merged_nodes self; shrinked_nodes := shrinked_nodes self;
     initial_nodes := l |}.

(** [DraggableGraph.__init__(G, pos, original_G, original_pos)] *)
Definition init (g : graph string) (p : positions string)
    (og : graph string) (op : positions string) : DraggableGraph :=
  {| G := g; pos := p; selected_node := None;
     original_G := nx_copy og; original_pos := op;
     merged_node := "0"; last_merged_nodes := [];
     merged_nodes := []; shrinked_nodes := [];
     initial_nodes := nx_nodes g |}.

(** [find_subset(list1, list2)]: counts the items of [list1] that are in
    [list2] and compares the count with [len(list1)]. *)
Definition find_subset (list1 list2 : list string) : bool :=
  let count :=
    fold_left (fun count i => if in_dec string_dec i list2 then count + 1 else count)
      list1 0 in
  count =? List.length list1.

(** [find_nodes(node1, node2)] *)
Definition find_nodes (self : DraggableGraph) (node1 node2 : string) : list string :=
  fold_left
    (fun nodes n =>
       if find_subset (split_comma node1) (split_comma n)
          || find_subset (split_comma node2) (split_comma n)
       then nodes ++ [n] else nodes)
    (initial_nodes self) [].

(** One loop of [find_smallest_number]. *)
Definition smallest_of (l : list string) : outcome Z :=
  fold_outcome
    (fun small i => obind (py_int i) (fun v => Return (if (v <? small)%Z then v else small)))
    l 9999999999999%Z.

(** [find_smallest_number(node1, node2)] *)
Definition find_smallest_number (node1 node2 : string) : outcome (Z * Z) :=
  obind (smallest_of (split_comma node1)) (fun small_1 =>
  obind (smallest_of (split_comma node2)) (fun small_2 =>
  Return (small_1, small_2))).

(** The literal [0.000001] as it is written; the tests use its float. *)
Definition epsilon : Q := 1 # 1000000.

(** [weight > max_weight + 0.000001] on floats: the sum is rounded, then
    compared.  [None] is minus infinity, below every weight. *)
Definition above (weight : Q) (max_weight : option Q) : bool :=
  match max_weight with
  | None => true
  | Some m =>
      SpecFloat.SFltb
        (SpecFloat.SFadd float_prec float_emax (float_of_Q m) (float_of_Q epsilon))
        (float_of_Q weight)
  end.

(** [abs(weight - max_weight) < 0.000001] on floats: the difference is
    rounded, then compared.  Against minus infinity the test fails. *)
Definition near (weight : Q) (max_weight : option Q) : bool :=
  match max_weight with
  | None => false
  | Some m =>
      SpecFloat.SFltb
        (SpecFloat.SFabs
           (SpecFloat.SFsub float_prec float_emax (float_of_Q weight) (float_of_Q m)))
        (float_of_Q epsilon)
  end.

(** The body of the loop of [find_max_edge_node] over
    [(max_weight, max_edge_node)]. *)
Definition max_edge_step (g : graph string) (target : string)
    (acc : option Q * option string) (neighbor : string)
    : outcome (option Q * option string) :=
  obind (nx_weight g target neighbor) (fun weight =>
  if above weight (fst acc) then Return (Some weight, Some neighbor)
  else if near weight (fst acc) then
    match snd acc with
    | None => Raise AttributeError
    | Some max_edge_node =>
        obind (find_smallest_number neighbor max_edge_node) (fun s =>
        if (fst s <? snd s)%Z then Return (Some weight, Some neighbor)
        else Return (Some weight, Some max_edge_node))
    end
  else Return acc).

(** [find_max_edge_node(target)] on the graph. *)
Definition find_max_edge_node_in (g : graph string) (target : string) : outcome (option string) :=
  obind (nx_neighbors g target) (fun nbrs =>
  obind (fold_outcome (max_edge_step g target) nbrs (None, None)) (fun acc =>
  Return (snd acc))).

Definition find_max_edge_node (target : string) : M DraggableGraph (option string) :=
  fun self => (find_max_edge_node_in (G self) target, self).

(** [merge_nodes(node1, node2)] *)
Definition merge_nodes (node1 node2 : string) : M DraggableGraph unit :=
  fun self =>
    let self1 := set_merged_nodes self (merged_nodes self ++ [node1]) in
    let self2 := set_merged_nodes self1 (merged_nodes self1 ++ [node2]) in
    let r := merge_graph_pos node1 node2 (G self2, pos self2) in
    (fst r, set_G_pos self2 (fst (snd r)) (snd (snd r))).

(** [fuse_max_edge_to_merged()] *)
Definition fuse_max_edge_to_merged : M DraggableGraph unit :=
  fun self =>
    if negb (dict_mem string_dec (pos self) (merged_node self)) then (Return tt, self)
    else
      bind (find_max_edge_node (merged_node self))
        (fun max_edge_node =>
           match max_edge_node with
           | Some n =>
               bind (merge_nodes (merged_node self) n)
                 (fun _ => modify (fun s => set_merged_node s (merged_node self ++ "," ++ n)%string))
           | None => ret tt
           end) self.

(** One [merge_nodes(nodes[0], nodes[1])] call after the other, as the loop
    of [reset_graph] makes them. *)
Definition merge_each (l : list (string * string)) : M DraggableGraph unit :=
  for_each l (fun nodes => merge_nodes (fst nodes) (snd nodes)).

(** [reset_graph()] *)
Definition reset_graph : M DraggableGraph unit :=
  fun self =>
    let self1 := set_G_pos self (nx_rebuild (original_G self)) (original_pos self) in
    let self2 := set_merged_node self1 "0" in
    let self3 := set_merged_nodes self2 [] in
    bind (merge_each (shrinked_nodes self3))
      (fun _ => modify (fun s => set_initial_nodes s (nx_nodes (G s)))) self3.

(** [shrink_last_merged()] *)
Definition shrink_last_merged : M DraggableGraph bool :=
  fun self =>
    match last_merged_nodes self with
    | [node1; node2] =>
        let self1 := set_last_merged_nodes self [] in
        (Return true, set_shrinked_nodes self1 (shrinked_nodes self1 ++ [(node1, node2)]))
    | _ => (Raise ValueError, self)
    end.

(** The [enter] branch of [on_key_press]. *)
Definition on_enter : M DraggableGraph unit :=
  bind fuse_max_edge_to_merged (fun _ =>
  fun self =>
    if nx_number_of_nodes (G self) =? 1 then
      match py_index_from_end (merged_nodes self) 3 with
      | Raise e => (Raise e, self)
      | Return m3 =>
      match py_index_from_end (merged_nodes self) 1 with
      | Raise e => (Raise e, self)
      | Return m1 =>
          let self1 := set_last_merged_nodes self (find_nodes self m3 m1) in
          bind shrink_last_merged (fun _ => reset_graph) self1
      end
      end
    else (Return tt, self)).

(** The [enter] key pressed [n] times; an exception ends the run. *)
Fixpoint enter_times (n : nat) : M DraggableGraph unit :=
  match n with
  | O => ret tt
  | S n' => bind on_enter (fun _ => enter_times n')
  end.

(** The [backspace] branch of [on_key_press]: [while len(G.nodes) > 2]. *)
Fixpoint on_backspace (fuel : nat) : M DraggableGraph unit :=
  fun self =>
    if 2 <? nx_number_of_nodes (G self) then
      match fuel with
      | O => (Raise OutOfFuel, self)
      | S fuel' => bind fuse_max_edge_to_merged (fun _ => on_backspace fuel') self
      end
    else (Return tt, self).

Inductive key : Type :=
| Enter
| Backspace
| OtherKey.

(** [on_key_press(event)] *)
Definition on_key_press (fuel : nat) (k : key) : M DraggableGraph unit :=
  match k with
  | Enter => on_enter
  | Backspace => on_backspace fuel
  | OtherKey => ret tt
  end.

(** The merge that [on_release] makes when a node is dropped on another:
    [merge_nodes] and then [last_merged_nodes = [selected_node, node]]. *)
Definition drag_merge (a b : string) : M DraggableGraph unit :=
  bind (merge_nodes a b) (fun _ => modify (fun s => set_last_merged_nodes s [a; b])).

(** What the user can do to contract the graph: drop a node on another, or
    take a greedy step. *)
Inductive action : Type :=
| DragMerge (a b : string)
| GreedyStep.

Definition perform (act : action) : M DraggableGraph unit :=
  match act with
  | DragMerge a b => drag_merge a b
  | GreedyStep => fuse_max_edge_to_merged
  end.

(** The engine after a sequence of actions; a handler that raises leaves the
    engine as it is at that point and the event loop goes on. *)
Fixpoint perform_all (acts : list action) (self : DraggableGraph) : DraggableGraph :=
  match acts with
  | [] => self
  | act :: acts' => perform_all acts' (snd (perform act self))
  end.

(** ** The mouse handlers *)

Definition set_selected_node (self : DraggableGraph) (n : option string) : DraggableGraph :=
  {| G := G self; pos := pos self; selected_node := n;
     original_G := original_G self; original_pos := original_pos self;
     merged_node := merged_node self; last_merged_nodes := last_merged_nodes self;
     merged_nodes := merged_nodes self; shrinked_nodes := shrinked_nodes self;
     initial_nodes := initial_nodes self |}.

(** [on_press(event)]: the first node of [self.pos] within the radius of the
    pointer becomes the selected node; the loop stops there. *)
Definition on_press (event : mouse_event) (self : DraggableGraph) : DraggableGraph :=
  match event with
  | None => self
  | Some xy =>
      match find (fun e => within_radius (snd e) xy) (pos self) with
      | Some e => set_selected_node self (Some (fst e))
      | None => self
      end
  end.

(** [on_release(event)]: the selected node is merged with the first other
    node of [self.pos] within the radius of the pointer.  The handler does
    not look at [event.inaxes]; an exception leaves before the selection is
    cleared. *)
Definition on_release (event : mouse_event) : DraggableGraph -> mouse_outcome * DraggableGraph :=
  fun self =>
    match selected_node self with
    | None => (Handled, set_selected_node self None)
    | Some sel =>
        match event with
        | None =>
            if existsb (fun e => if string_dec (fst e) sel then false else true) (pos self)
            then (TypeError, self)
            else (Handled, set_selected_node self None)
        | Some xy =>
            match find (fun e => (if string_dec (fst e) sel then false else true)
                                 && within_radius (snd e) xy) (pos self) with
            | Some e =>
                match drag_merge sel (fst e) self with
                | (Return _, self') => (Handled, set_selected_node self' None)
                | (Raise ex, self') => (Failed ex, self')
                end
            | None => (Handled, set_selected_node self None)
            end
        end
    end.

(** [on_motion(event)] *)
Definition on_motion (event : mouse_event) (self : DraggableGraph) : DraggableGraph :=
  match selected_node self, event with
  | Some sel, Some xy => set_G_pos self (G self) (dict_set string_dec (pos self) sel xy)
  | _, _ => self
  end.

(** What the window passes to the engine. *)
Inductive ui_event : Type :=
| MousePress (event : mouse_event)
| MouseMotion (event : mouse_event)
| MouseRelease (event : mouse_event)
| KeyPress (k : key).

(** The engine after one event: the event loop reports an exception of a
    handler and goes on with the engine as the handler left it.  [fuel]
    bounds the iterations of the backspace loop. *)
Definition handle (fuel : nat) (ev : ui_event) (self : DraggableGraph) : DraggableGraph :=
  match ev with
  | MousePress event => on_press event self
  | MouseMotion event => on_motion event self
  | MouseRelease event => snd (on_release event self)
  | KeyPress k => snd (on_key_press fuel k self)
  end.

Fixpoint handle_all (fuel : nat) (evs : list ui_event) (self : DraggableGraph) : DraggableGraph :=
  match evs with
  | [] => self
  | ev :: evs' => handle_all fuel evs' (handle fuel ev self)
  end.

(** The graph that [plot_graph] builds from the matrix. *)
Definition matrix_graph (n : nat) (matrix : list (list Q)) : outcome (graph string) :=
  fold_outcome
    (fun g i =>
       fold_outcome
         (fun g j =>
            obind (matrix_entry matrix i j) (fun w =>
            if Qeq_bool w 0 then Return g
            else Return (nx_add_edge g (py_str_nat i) (py_str_nat j) w)))
         (seq (i + 1) (n - (i + 1))) g)
    (seq 0 n)
    (nx_add_nodes_from [] (map py_str_nat (seq 0 n))).

(** [plot_graph(n, matrix)] up to the construction of the engine; [layout]
    stands for [nx.kamada_kawai_layout]. *)
Definition plot_graph (layout : graph string -> positions string)
    (n : Z) (matrix : list (list Q)) : outcome DraggableGraph :=
  obind (matrix_graph (Z.to_nat n) matrix) (fun g =>
  let p := layout g in
  Return (init g p g p)).

(** The script's main block: [Raise] when it stops before a window exists,
    [Return] with the engine behind the window otherwise. *)
Definition main (py_float : string -> option Q)
    (layout : graph string -> positions string) (file : string) : outcome DraggableGraph :=
  obind (read_graph_from_file py_float file) (fun nm =>
  plot_graph layout (fst nm) (snd nm)).

End Engine.

End Grafo.

(** ** grafo1.py *)

Module Grafo1.

(** A node of grafo1.py is an [int] of [range(n)] or the [str] of a merged
    node; Python keeps [0] and ["0"] apart. *)
Inductive node : Type :=
| IntNode (i : Z)
| StrNode (s : string).

Definition node_dec (x y : node) : {x = y} + {x <> y}.
Proof.
  decide equality; [apply Z.eq_dec | apply string_dec].
Defined.

#[global] Instance int_or_str_node : NodeId node := {|
  node_eq_dec := node_dec;
  node_str := fun v => match v with IntNode i => py_str_int i | StrNode s => s end;
  node_of_str := StrNode;
  node_str_of_str := fun s => eq_refl
|}.

Section Engine.

Context {set_order : SetIter node}.

Record DraggableGraph : Type := {
  G : graph node;
  pos : positions node;
  original_G : graph node;
  original_pos : positions node;
  selected_node : option node;
  merged_node : node
}.

Definition set_G_pos (self : DraggableGraph) (g : graph node) (p : positions node) : DraggableGraph :=
  {| G := g; pos := p; original_G := original_G self; original_pos := original_pos self;
     selected_node := selected_node self; merged_node := merged_node self |}.

Definition set_merged_node (self : DraggableGraph) (n : node) : DraggableGraph :=
  {| G := G self; pos := pos self; original_G := original_G self;
     original_pos := original_pos self;
     selected_node := selected_node self; merged_node := n |}.

(** [DraggableGraph.__init__(G, pos, original_G, original_pos)] *)
Definition init (g : graph node) (p : positions node)
    (og : graph node) (op : positions node) : DraggableGraph :=
  {| G := g; pos := p; original_G := nx_copy og; original_pos := op;
     selected_node := None; merged_node := IntNode 0 |}.

(** The body of the loop of [find_max_edge_node]: [weight > max_weight]. *)
Definition max_edge_step (g : graph node) (target : node)
    (acc : option Q * option node) (neighbor : node)
    : outcome (option Q * option node) :=
  obind (nx_weight g target neighbor) (fun weight =>
  match fst acc with
  | None => Return (Some weight, Some neighbor)
  | Some m =>
      if Qlt_le_dec m weight then Return (Some weight, Some neighbor)
      else Return acc
  end).

Definition find_max_edge_node_in (g : graph node) (target : node) : outcome (option node) :=
  obind (nx_neighbors g target) (fun nbrs =>
  obind (fold_outcome (max_edge_step g target) nbrs (None, None)) (fun acc =>
  Return (snd acc))).

(** [find_max_edge_node(target)] *)
Definition find_max_edge_node (target : node) : M DraggableGraph (option node) :=
  fun self => (find_max_edge_node_in (G self) target, self).

(** [merge_nodes(node1, node2)] *)
Definition merge_nodes (node1 node2 : node) : M DraggableGraph unit :=
  fun self =>
    let r := merge_graph_pos node1 node2 (G self, pos self) in
    (fst r, set_G_pos self (fst (snd r)) (snd (snd r))).

(** [fuse_max_edge_to_merged()] *)
Definition fuse_max_edge_to_merged : M DraggableGraph unit :=
  fun self =>
    if negb (dict_mem node_dec (pos self) (merged_node self)) then (Return tt, self)
    else
      bind (find_max_edge_node (merged_node self))
        (fun max_edge_node =>
           match max_edge_node with
           | Some n =>
               bind (merge_nodes (merged_node self) n)
                 (fun _ => modify (fun s => set_merged_node s (joined (merged_node self) n)))
           | None => ret tt
           end) self.

(** A sequence of [merge_nodes] calls. *)
Definition merge_each (l : list (node * node)) : M DraggableGraph unit :=
  for_each l (fun nodes => merge_nodes (fst nodes) (snd nodes)).

(** [reset_graph()] *)
Definition reset_graph : M DraggableGraph unit :=
  fun self =>
    let self1 := set_G_pos self (nx_rebuild (original_G self)) (original_pos self) in
    (Return tt, set_merged_node self1 (IntNode 0)).

Inductive key : Type :=
| Enter
| Escape
| OtherKey.

(** [on_key_press(event)] *)
Definition on_key_press (k : key) : M DraggableGraph unit :=
  match k with
  | Enter => fuse_max_edge_to_merged
  | Escape => reset_graph
  | OtherKey => ret tt
  end.

(** What the user can do to contract the graph: drop a node on another
    ([on_release] calls [merge_nodes]), or take a greedy step. *)
Inductive action : Type :=
| DragMerge (a b : node)
| GreedyStep.

Definition perform (act : action) : M DraggableGraph unit :=
  match act with
  | DragMerge a b => merge_nodes a b
  | GreedyStep => fuse_max_edge_to_merged
  end.

(** The engine after a sequence of actions. *)
Fixpoint perform_all (acts : list action) (self : DraggableGraph) : DraggableGraph :=
  match acts with
  | [] => self
  | act :: acts' => perform_all acts' (snd (perform act self))
  end.

(** ** The mouse handlers *)

Definition set_selected_node (self : DraggableGraph) (n : option node) : DraggableGraph :=
  {| G := G self; pos := pos self; original_G := original_G self;
     original_pos := original_pos self;
     selected_node := n; merged_node := merged_node self |}.

(** [on_press(event)] *)
Definition on_press (event : mouse_event) (self : DraggableGraph) : DraggableGraph :=
  match event with
  | None => self
  | Some xy =>
      match find (fun e => within_radius (snd e) xy) (pos self) with
      | Some e => set_selected_node self (Some (fst e))
      | None => self
      end
  end.

(** [on_release(event)] *)
Definition on_release (event : mouse_event) : DraggableGraph -> mouse_outcome * DraggableGraph :=
  fun self =>
    match selected_node self with
    | None => (Handled, set_selected_node self None)
    | Some sel =>
        match event with
        | None =>
            if existsb (fun e => if node_dec (fst e) sel then false else true) (pos self)
            then (TypeError, self)
            else (Handled, set_selected_node self None)
        | Some xy =>
            match find (fun e => (if node_dec (fst e) sel then false else true)
                                 && within_radius (snd e) xy) (pos self) with
            | Some e =>
                match merge_nodes sel (fst e) self with
                | (Return _, self') => (Handled, set_selected_node self' None)
                | (Raise ex, self') => (Failed ex, self')
                end
            | None => (Handled, set_selected_node self None)
            end
        end
    end.

(** [on_motion(event)] *)
Definition on_motion (event : mouse_event) (self : DraggableGraph) : DraggableGraph :=
  match selected_node self, event with
  | Some sel, Some xy => set_G_pos self (G self) (dict_set node_dec (pos self) sel xy)
  | _, _ => self
  end.

(** What the window passes to the engine. *)
Inductive ui_event : Type :=
| MousePress (event : mouse_event)
| MouseMotion (event : mouse_event)
| MouseRelease (event : mouse_event)
| KeyPress (k : key).

(** The engine after one event; an exception of a handler is reported and
    the event loop goes on. *)
Definition handle (ev : ui_event) (self : DraggableGraph) : DraggableGraph :=
  match ev with
  | MousePress event => on_press event self
  | MouseMotion event => on_motion event self
  | MouseRelease event => snd (on_release event self)
  | KeyPress k => snd (on_key_press k self)
  end.

Fixpoint handle_all (evs : list ui_event) (self : DraggableGraph) : DraggableGraph :=
  match evs with
  | [] => self
  | ev :: evs' => handle_all evs' (handle ev self)
  end.

(** The graph that [plot_graph] builds from the matrix. *)
Definition matrix_graph (n : nat) (matrix : list (list Q)) : outcome (graph node) :=
  fold_outcome
    (fun g i =>
       fold_outcome
         (fun g j =>
            obind (matrix_entry matrix i j) (fun w =>
            if Qeq_bool w 0 then Return g
            else Return (nx_add_edge g (IntNode (Z.of_nat i)) (IntNode (Z.of_nat j)) w)))
         (seq (i + 1) (n - (i + 1))) g)
    (seq 0 n)
    (nx_add_nodes_from [] (map (fun i => IntNode (Z.of_nat i)) (seq 0 n))).

(** [plot_graph(n, matrix)] up to the construction of the engine. *)
Definition plot_graph (layout : graph node -> positions node)
    (n : Z) (matrix : list (list Q)) : outcome DraggableGraph :=
  obind (matrix_graph (Z.to_nat n) matrix) (fun g =>
  let p := layout g in
  Return (init g p g p)).

Definition main (py_float : string -> option Q)
    (layout : graph node -> positions node) (file : string) : outcome DraggableGraph :=
  obind (read_graph_from_file py_float file) (fun nm =>
  plot_graph layout (fst nm) (snd nm)).

End Engine.

End Grafo1.

(** ** Concrete collaborators for the examples *)

(** One iteration order a set may have: by first occurrence. *)
#[export] Instance first_seen {V : Type} `{NodeId V} : SetIter V := {|
  set_union_iter := fun l1 l2 => nodup node_eq_dec (l1 ++ l2);
  set_union_iter_NoDup := fun l1 l2 => NoDup_nodup node_eq_dec (l1 ++ l2);
  set_union_iter_In := fun l1 l2 x =>
    iff_trans (nodup_In node_eq_dec (l1 ++ l2) x) (in_app_iff l1 l2 x)
|}.

(** Another one: by last occurrence, backwards. *)
#[export] Instance last_seen {V : Type} `{NodeId V} : SetIter V := {|
  set_union_iter := fun l1 l2 => nodup node_eq_dec (rev (l1 ++ l2));
  set_union_iter_NoDup := fun l1 l2 => NoDup_nodup node_eq_dec (rev (l1 ++ l2));
  set_union_iter_In := fun l1 l2 x =>
    iff_trans (nodup_In node_eq_dec (rev (l1 ++ l2)) x)
      (iff_trans (iff_sym (in_rev (l1 ++ l2) x)) (in_app_iff l1 l2 x))
|}.

(** A layout that puts node number [k] of the graph at [(k, 0)]. *)
Definition line_layout {V : Type} (g : graph V) : positions V :=
  map (fun e => (snd e, (inject_Z (Z.of_nat (fst e)), 0%Q)))
      (combine (seq 0 (List.length g)) (map fst g)).

(** [float(token)] on plain decimal tokens: an optional sign, digits and an
    optional fraction.  The other spellings Python reads (exponents, [inf],
    [nan]) are not needed by the example files. *)
Fixpoint fraction_digits (s : string) (num den : Z) : option (Z * Z) :=
  match s with
  | EmptyString => Some (num, den)
  | String c s' =>
      if is_digit c then fraction_digits s' (10 * num + digit_val c)%Z (10 * den)%Z
      else None
  end.

Fixpoint decimal_digits (s : string) (acc : Z) (seen : bool) : option (Z * Z) :=
  match s with
  | EmptyString => if seen then Some (acc, 1%Z) else None
  | String c s' =>
      if is_digit c then decimal_digits s' (10 * acc + digit_val c)%Z true
      else if Ascii.eqb c (Ascii.ascii_of_nat 46) then
        if seen || negb (is_empty s') then fraction_digits s' acc 1%Z else None
      else None
  end.

Definition decimal_float (tok : string) : option Q :=
  let mk (neg : bool) (r : option (Z * Z)) : option Q :=
    match r with
    | Some (num, den) =>
        Some (Qmake (if neg then Z.opp num else num) (Z.to_pos den))
    | None => None
    end in
  match tok with
  | String c t' =>
      if Ascii.eqb c (Ascii.ascii_of_nat 45) then mk true (decimal_digits t' 0%Z false)
      else if Ascii.eqb c (Ascii.ascii_of_nat 43) then mk false (decimal_digits t' 0%Z false)
      else mk false (decimal_digits tok 0%Z false)
  | EmptyString => None
  end.

(** ** Reading a graph *)

(** The weight stored for the edge from [u] to [v], if there is one. *)
Definition nx_edge {V : Type} `{NodeId V} (g : graph V) (u v : V) : option Q :=
  match nx_adj g u with
  | Some nbrs => nx_get nbrs v
  | None => None
  end.

(** No two nodes of the graph share a leaf: the comma-separated tokens of
    two different identifiers are disjoint (the spec's invariant that a
    composite identifier never occurs twice). *)
Definition ids_disjoint {V : Type} `{NodeId V} (g : graph V) : Prop :=
  forall u v t, In u (nx_nodes g) -> In v (nx_nodes g) -> u <> v ->
    In t (split_comma (node_str u)) -> ~ In t (split_comma (node_str v)).

(** What [merge_nodes] must store between the merged node and [k]: nothing
    for the merged nodes themselves and for a node adjacent to neither, the
    sum of the two weights (a missing one counting 0) otherwise. *)
Definition merged_weight {V : Type} `{NodeId V} (g : graph V) (a b k : V) : option Q :=
  if in_dec node_eq_dec k [a; b] then None
  else match nx_edge g a k, nx_edge g b k with
       | None, None => None
       | _, _ => Some (weight_or_0 g a k + weight_or_0 g b k)%Q
       end.

(** ** Checking the invariants of a concrete graph *)

Definition Q_eqb (p q : Q) : bool :=
  Z.eqb (Qnum p) (Qnum q) && Pos.eqb (Qden p) (Qden q).

Fixpoint nodupb {V : Type} `{NodeId V} (l : list V) : bool :=
  match l with
  | [] => true
  | x :: l' => (if in_dec node_eq_dec x l' then false else true) && nodupb l'
  end.

(** [nx_wf] as a test. *)
Definition nx_wfb {V : Type} `{NodeId V} (g : graph V) : bool :=
  nodupb (nx_nodes g)
  && forallb
       (fun e =>
          nodupb (dict_keys (snd e))
          && forallb
               (fun f =>
                  match nx_edge g (fst f) (fst e) with
                  | Some w => Q_eqb w (snd f)
                  | None => false
                  end)
               (snd e))
       g.

(** [ids_disjoint] as a test. *)
Definition ids_disjointb {V : Type} `{NodeId V} (g : graph V) : bool :=
  forallb
    (fun u =>
       forallb
         (fun v =>
            if node_eq_dec u v then true
            else forallb
                   (fun t =>
                      if in_dec string_dec t (split_comma (node_str v)) then false else true)
                   (split_comma (node_str u)))
         (nx_nodes g))
    (nx_nodes g).

(** ** Example inputs *)

(** The 3-node example of the spec: edges (0,1)=1, (0,2)=5, (1,2)=2. *)
Definition example_matrix : list (list Q) :=
  [[0; 1; 5]; [1; 0; 2]; [5; 2; 0]]%Q.

Definition triangle : graph string :=
  [("0", [("1", 1); ("2", 5)]); ("1", [("0", 1); ("2", 2)]);
   ("2", [("0", 5); ("1", 2)])]%string%Q.

Definition triangle_engine : Grafo.DraggableGraph :=
  Grafo.init triangle (line_layout triangle) triangle (line_layout triangle).

Definition triangle1 : graph Grafo1.node :=
  [(Grafo1.IntNode 0, [(Grafo1.IntNode 1, 1); (Grafo1.IntNode 2, 5)]);
   (Grafo1.IntNode 1, [(Grafo1.IntNode 0, 1); (Grafo1.IntNode 2, 2)]);
   (Grafo1.IntNode 2, [(Grafo1.IntNode 0, 5); (Grafo1.IntNode 1, 2)])]%Q.

Definition triangle1_engine : Grafo1.DraggableGraph :=
  Grafo1.init triangle1 (line_layout triangle1) triangle1 (line_layout triangle1).

(** An engine whose anchor "0" has no neighbour. *)
Definition lonely : graph string :=
  [("0", []); ("1", [("2", 4)]); ("2", [("1", 4)])]%string%Q.

Definition lonely_engine : Grafo.DraggableGraph :=
  Grafo.init lonely (line_layout lonely) lonely (line_layout lonely).

(** The 3-node engine with the checkpoint ("1", "2") recorded. *)
Definition checkpointed_engine : Grafo.DraggableGraph :=
  Grafo.set_shrinked_nodes triangle_engine [("1", "2")]%string.

(** ** Choosing the strongest neighbour *)

(** The smallest leaf index of an identifier, as [find_smallest_number]
    computes it; 0 stands in where a token is no integer and the script
    raises [ValueError]. *)
Definition leaf_index (n : string) : Z :=
  match Grafo.smallest_of (split_comma n) with
  | Return z => z
  | Raise _ => 0%Z
  end.

(** Every token of the identifier is an integer: [find_smallest_number]
    does not raise on it. *)
Definition parses (n : string) : Prop :=
  exists z, Grafo.smallest_of (split_comma n) = Return z.

(** The weights of the neighbours [a] and [b] of [target] stand to each
    other as their levels say, for the two tests that [find_max_edge_node]
    makes: on one level, [a] passes the tolerance test against [b] and not
    the greater test; from a higher level it passes the greater test; from a
    lower level it passes neither. *)
Definition levelled (g : graph string) (target : string) (level : string -> nat)
    (a b : string) : Prop :=
  (level a = level b ->
   Grafo.above (weight_or_0 g target a) (Some (weight_or_0 g target b)) = false /\
   Grafo.near (weight_or_0 g target a) (Some (weight_or_0 g target b)) = true) /\
  (level b < level a ->
   Grafo.above (weight_or_0 g target a) (Some (weight_or_0 g target b)) = true) /\
  (level a < level b ->
   Grafo.above (weight_or_0 g target a) (Some (weight_or_0 g target b)) = false /\
   Grafo.near (weight_or_0 g target a) (Some (weight_or_0 g target b)) = false).

(** "0" with the neighbours "3" of weight 10, "1" of weight 10.0000005 and
    "2" of weight 3: a near tie at the top, and a lighter neighbour. *)
Definition tie_and_below : graph string :=
  [("0", [("3", 10); ("1", 100000005 # 10000000); ("2", 3)]);
   ("3", [("0", 10)]);
   ("1", [("0", 100000005 # 10000000)]);
   ("2", [("0", 3)])]%string%Q.

(** The same graph with the neighbours of "0" in the opposite order. *)
Definition tie_and_below_reordered : graph string :=
  [("0", [("2", 3); ("1", 100000005 # 10000000); ("3", 10)]);
   ("3", [("0", 10)]);
   ("1", [("0", 100000005 # 10000000)]);
   ("2", [("0", 3)])]%string%Q.

(** Its levels: "2" below, "3" and "1" on top. *)
Definition top_two (n : string) : nat := if string_dec n "2" then 0 else 1.

(** "0" with the neighbours "1" of weight 2.0 and "2" of weight
    [float('2.000001')], whose value is 4503601879170310 / 2^51, a little
    more than 2.000001.  In floats [2.0 + 0.000001] is that very number. *)
Definition rounding_gap : graph string :=
  [("0", [("1", 2); ("2", 4503601879170310 # 2251799813685248)]);
   ("1", [("0", 2)]);
   ("2", [("0", 4503601879170310 # 2251799813685248)])]%string%Q.

(** The same graph with the neighbours of "0" in the opposite order. *)
Definition rounding_gap_reordered : graph string :=
  [("0", [("2", 4503601879170310 # 2251799813685248); ("1", 2)]);
   ("1", [("0", 2)]);
   ("2", [("0", 4503601879170310 # 2251799813685248)])]%string%Q.

(** Three neighbours of "0" whose weights climb in steps of 0.0000008:
    10, 10.0000008 and 10.0000016. *)
Definition near_ties : graph string :=
  [("0", [("1", 10); ("2", 100000008 # 10000000); ("3", 100000016 # 10000000)]);
   ("1", [("0", 10)]);
   ("2", [("0", 100000008 # 10000000)]);
   ("3", [("0", 100000016 # 10000000)])]%string%Q.

(** The same graph with the neighbours of "0" in another order. *)
Definition near_ties_reordered : graph string :=
  [("0", [("3", 100000016 # 10000000); ("1", 10); ("2", 100000008 # 10000000)]);
   ("1", [("0", 10)]);
   ("2", [("0", 100000008 # 10000000)]);
   ("3", [("0", 100000016 # 10000000)])]%string%Q.

(** grafo1.py: node 0 with two neighbours of equal weight, 2 listed first. *)
Definition equal_weights1 : graph Grafo1.node :=
  [(Grafo1.IntNode 0, [(Grafo1.IntNode 2, 5); (Grafo1.IntNode 1, 5)]);
   (Grafo1.IntNode 2, [(Grafo1.IntNode 0, 5)]);
   (Grafo1.IntNode 1, [(Grafo1.IntNode 0, 5)])]%Q.

(** The same graph with 1 listed first. *)
Definition equal_weights1_reordered : graph Grafo1.node :=
  [(Grafo1.IntNode 0, [(Grafo1.IntNode 1, 5); (Grafo1.IntNode 2, 5)]);
   (Grafo1.IntNode 2, [(Grafo1.IntNode 0, 5)]);
   (Grafo1.IntNode 1, [(Grafo1.IntNode 0, 5)])]%Q.

(** grafo.py: "0" with two neighbours of equal weight, "2" listed first. *)
Definition equal_weights : graph string :=
  [("0", [("2", 5); ("1", 5)]); ("2", [("0", 5)]); ("1", [("0", 5)])]%string%Q.

(** ** Example files *)

Definition newline : string := String (Ascii.ascii_of_nat 10) EmptyString.

(** Declares 2 nodes; the first row has 3 entries. *)
Definition long_row_file : string :=
  ("2" ++ newline ++ "0 1 2" ++ newline ++ "1 0" ++ newline)%string.

(** Declares 2 nodes; the first row has 1 entry. *)
Definition short_row_file : string :=
  ("2" ++ newline ++ "0" ++ newline ++ "1 0" ++ newline)%string.

(** A token that is no number. *)
Definition bad_token_file : string :=
  ("2" ++ newline ++ "0 x" ++ newline ++ "1 0" ++ newline)%string.

(** No count line: the file starts with the first row. *)
Definition no_count_file : string :=
  ("0 1" ++ newline ++ "1 0" ++ newline)%string.

(** ** Complete graphs *)

(** The complete graph on "0", "1", "2", "3" as [plot_graph] builds it from a
    matrix without zeros off the diagonal. *)
Definition complete4 (w01 w02 w03 w12 w13 w23 : Q) : graph string :=
  nx_add_edges_from
    (nx_add_nodes_from [] ["0"; "1"; "2"; "3"]%string)
    [("0", "1", w01); ("0", "2", w02); ("0", "3", w03);
     ("1", "2", w12); ("1", "3", w13); ("2", "3", w23)]%string.

(** Positions for its four nodes. *)
Definition positions4 (p0 p1 p2 p3 : Q * Q) : positions string :=
  [("0", p0); ("1", p1); ("2", p2); ("3", p3)]%string.

(** The engine that [plot_graph] starts on it. *)
Definition complete4_engine (w01 w02 w03 w12 w13 w23 : Q) (p0 p1 p2 p3 : Q * Q)
    : Grafo.DraggableGraph :=
  Grafo.init (complete4 w01 w02 w03 w12 w13 w23) (positions4 p0 p1 p2 p3)
    (complete4 w01 w02 w03 w12 w13 w23) (positions4 p0 p1 p2 p3).

(** One with the distinct weights 1 to 6. *)
Definition k4_engine : Grafo.DraggableGraph :=
  complete4_engine 1 2 3 4 5 6 (0, 0)%Q (1, 0)%Q (0, 1)%Q (1, 1)%Q.

(** Two nodes joined by one edge. *)
Definition pair : graph string :=
  [("0", [("1", 7)]); ("1", [("0", 7)])]%string%Q.

Definition pair_engine : Grafo.DraggableGraph :=
  Grafo.init pair (line_layout pair) pair (line_layout pair).

(** [k4_engine] after two presses of the enter key, one step before the
    collapse, and after five, one step before the third collapse. *)
Definition k4_before_collapse : Grafo.DraggableGraph :=
  snd (Grafo.enter_times (set_order := first_seen) 2 k4_engine).

Definition k4_after_five : Grafo.DraggableGraph :=
  snd (Grafo.enter_times (set_order := first_seen) 5 k4_engine).

(** Any two different nodes are joined by an edge. *)
Definition nx_complete {V : Type} `{NodeId V} (g : graph V) : Prop :=
  forall u v, In u (nx_nodes g) -> In v (nx_nodes g) -> u <> v -> nx_edge g u v <> None.

(** No node is joined to itself. *)
Definition nx_loopless {V : Type} `{NodeId V} (g : graph V) : Prop :=
  forall u, nx_edge g u u = None.

(** [nx_loopless] as a test. *)
Definition nx_looplessb {V : Type} `{NodeId V} (g : graph V) : bool :=
  forallb
    (fun e => if in_dec node_eq_dec (fst e) (dict_keys (snd e)) then false else true)
    g.

(** [nx_complete] as a test. *)
Definition nx_completeb {V : Type} `{NodeId V} (g : graph V) : bool :=
  forallb
    (fun u =>
       forallb
         (fun v =>
            if node_eq_dec u v then true
            else match nx_edge g u v with
                 | Some _ => true
                 | None => false
                 end)
         (nx_nodes g))
    (nx_nodes g).

(** What holds of the engine of grafo.py between two key presses: the graph
    invariants, a position for exactly the nodes, identifiers made of
    integers, and an anchor that is a node. *)
Definition engine_ok (self : Grafo.DraggableGraph) : Prop :=
  nx_wf (Grafo.G self) /\
  ids_disjoint (Grafo.G self) /\
  nx_loopless (Grafo.G self) /\
  (forall k, In k (dict_keys (Grafo.pos self)) <-> In k (nx_nodes (Grafo.G self))) /\
  (forall n, In n (nx_nodes (Grafo.G self)) -> parses n) /\
  In (Grafo.merged_node self) (nx_nodes (Grafo.G self)).

(** ** [find_nodes] in the words of the spec *)

(** Every item of [l1] occurs in [l2]. *)
Definition all_in (l1 l2 : list string) : bool :=
  forallb (fun t => if in_dec string_dec t l2 then true else false) l1.

(** The identifiers of [initial] whose own tokens all occur among the tokens
    of [labelA] or among those of [labelB]: the subset test in the direction
    the spec states it. *)
Definition find_nodes_as_specified (initial : list string) (labelA labelB : string)
    : list string :=
  filter
    (fun n =>
       all_in (split_comma n) (split_comma labelA)
       || all_in (split_comma n) (split_comma labelB))
    initial.

(** ** What the handlers keep *)

(** The graph invariants together: the networkx class invariant, no leaf in
    two nodes, no self-loop. *)
Definition graph_ok {V : Type} `{NodeId V} (g : graph V) : Prop :=
  nx_wf g /\ ids_disjoint g /\ nx_loopless g.

(** Every node of the graph has a position: what [draw_graph] needs. *)
Definition drawable {V : Type} `{NodeId V} (g : graph V) (p : positions V) : Prop :=
  forall k, In k (nx_nodes g) -> In k (dict_keys p).

(** The same nodes in the same order, and the same weighted edges. *)
Definition same_graph {V : Type} `{NodeId V} (g g' : graph V) : Prop :=
  nx_nodes g = nx_nodes g' /\ forall u v, nx_edge g u v = nx_edge g' u v.

Fixpoint leaf_sum (f : string -> Q) (l : list string) : Q :=
  match l with
  | [] => 0
  | t :: l' => f t + leaf_sum f l'
  end.

(** The total weight, in the graph [g0], of the edges between the leaves of
    [u] and the leaves of [v]; the leaves of an identifier of grafo.py are
    its comma-separated tokens. *)
Definition cut_weight (g0 : graph string) (u v : string) : Q :=
  leaf_sum (fun s => leaf_sum (fun t => weight_or_0 g0 s t) (split_comma v))
    (split_comma u).

(** Every edge of [g] carries the total weight between the leaves of its
    ends in [g0]. *)
Definition cut_inv (g0 g : graph string) : Prop :=
  forall u v, In u (nx_nodes g) -> In v (nx_nodes g) -> u <> v ->
    (weight_or_0 g u v == cut_weight g0 u v)%Q.

(** The leaves of the nodes of [g] are the nodes of [g0], all of them. *)
Definition leaves_cover (g0 g : graph string) : Prop :=
  (forall x t, In x (nx_nodes g) -> In t (split_comma x) -> In t (nx_nodes g0)) /\
  (forall t, In t (nx_nodes g0) -> exists x, In x (nx_nodes g) /\ In t (split_comma x)).

(** A property [P] of the graph, the positions and the snapshot, read off an
    engine. *)
Definition grafo_holds
    (P : graph string -> positions string -> graph string -> positions string -> Prop)
    (self : Grafo.DraggableGraph) : Prop :=
  P (Grafo.G self) (Grafo.pos self) (Grafo.original_G self) (Grafo.original_pos self).

Definition grafo1_holds
    (P : graph Grafo1.node -> positions Grafo1.node ->
         graph Grafo1.node -> positions Grafo1.node -> Prop)
    (self : Grafo1.DraggableGraph) : Prop :=
  P (Grafo1.G self) (Grafo1.pos self) (Grafo1.original_G self) (Grafo1.original_pos self).

(** What holds of an engine of grafo.py started on the graph [g0], whatever
    the user does. *)
Definition engine_inv (g0 : graph string)
    (g : graph string) (p : positions string) (o : graph string) (op : positions string)
    : Prop :=
  graph_ok g /\ drawable g p /\ cut_inv g0 g /\ leaves_cover g0 g /\
  nx_wf o /\ same_graph o g0 /\ drawable o op.

(** The same for grafo1.py, without the leaf weights. *)
Definition engine1_inv (g0 : graph Grafo1.node)
    (g : graph Grafo1.node) (p : positions Grafo1.node)
    (o : graph Grafo1.node) (op : positions Grafo1.node) : Prop :=
  graph_ok g /\ drawable g p /\ nx_wf o /\ same_graph o g0 /\ drawable o op.

(** ** The loops of [plot_graph] *)

(** The index pairs that the loops visit, in their order:
    [for i in range(n): for j in range(i + 1, n)]. *)
Definition upper_pairs (n : nat) : list (nat * nat) :=
  flat_map (fun i => map (fun j => (i, j)) (seq (i + 1) (n - (i + 1)))) (seq 0 n).

(** The body of the inner loop, for nodes labelled by [label]. *)
Definition add_entry {V : Type} `{NodeId V} (label : nat -> V) (matrix : list (list Q))
    (g : graph V) (ij : nat * nat) : outcome (graph V) :=
  obind (matrix_entry matrix (fst ij) (snd ij)) (fun w =>
  if Qeq_bool w 0 then Return g
  else Return (nx_add_edge g (label (fst ij)) (label (snd ij)) w)).

(** [x] and [y] are the nodes number [i] and [j], in one order or the other. *)
Definition joins {V : Type} (label : nat -> V) (x y : V) (i j : nat) : Prop :=
  (x = label i /\ y = label j) \/ (x = label j /\ y = label i).

(** The graph after the loops have visited the pairs [done]. *)
Definition entries_inv {V : Type} `{NodeId V} (label : nat -> V) (matrix : list (list Q))
    (n : nat) (done : list (nat * nat)) (g : graph V) : Prop :=
  nx_nodes g = map label (seq 0 n) /\
  forall x y w,
    nx_edge g x y = Some w <->
    exists i j, In (i, j) done /\ joins label x y i j /\
                matrix_entry matrix i j = Return w /\ Qeq_bool w 0 = false.

(** A string without white space. *)
Fixpoint no_space (s : string) : bool :=
  match s with
  | EmptyString => true
  | String c s' => negb (is_space c) && no_space s'
  end.

(** What holds of the graph and the positions of grafo.py as long as nodes
    are only merged: the graph invariants, a position for exactly the nodes,
    and identifiers made of integers. *)
Definition engine_sync (g : graph string) (p : positions string)
    (o : graph string) (op : positions string) : Prop :=
  graph_ok g /\
  (forall k, In k (dict_keys p) <-> In k (nx_nodes g)) /\
  (forall x, In x (nx_nodes g) -> parses x).

(** The snapshot is a copy of the graph [g0] at the positions [op0]. *)
Definition snapshot_of {V : Type} `{NodeId V} (g0 : graph V) (op0 : positions V)
    (g : graph V) (p : positions V) (o : graph V) (op : positions V) : Prop :=
  nx_wf o /\ same_graph o g0 /\ op = op0.

(** * Properties *)

(** ** Dictionaries *)

Section DictFacts.

Context {K A : Type} (dec : forall x y : K, {x = y} + {x <> y}).

Implicit Types (d : dict K A) (k : K) (a : A).

Lemma dict_get_set_eq d k a : dict_get dec (dict_set dec d k a) k = Some a.
Proof.
  induction d as [|[k' a'] d IH]; simpl.
  - destruct (dec k k); congruence.
  - destruct (dec k k') as [->|Hne]; simpl.
    + destruct (dec k' k'); congruence.
    + destruct (dec k k'); [congruence | exact IH].
Qed.

Lemma dict_get_set_neq d k k' a :
  k <> k' -> dict_get dec (dict_set dec d k a) k' = dict_get dec d k'.
Proof.
  intros Hne. induction d as [|[k0 a0] d IH]; simpl.
  - destruct (dec k' k); congruence.
  - destruct (dec k k0) as [->|Hk]; simpl.
    + destruct (dec k' k0); congruence.
    + destruct (dec k' k0); [reflexivity | exact IH].
Qed.

Lemma dict_get_set d k k' a :
  dict_get dec (dict_set dec d k a) k' = if dec k' k then Some a else dict_get dec d k'.
Proof.
  destruct (dec k' k) as [->|Hne].
  - apply dict_get_set_eq.
  - apply dict_get_set_neq. congruence.
Qed.

Lemma dict_get_In d k a : dict_get dec d k = Some a -> In k (dict_keys d).
Proof.
  induction d as [|[k' a'] d IH]; simpl; [discriminate|].
  destruct (dec k k') as [->|Hne]; intros Hg; [now left | right; auto].
Qed.

Lemma dict_get_None d k : dict_get dec d k = None <-> ~ In k (dict_keys d).
Proof.
  induction d as [|[k' a'] d IH]; simpl.
  - tauto.
  - destruct (dec k k') as [->|Hne].
    + split; [discriminate | intros Hn; exfalso; apply Hn; now left].
    + rewrite IH. split; [intros Hn [He|Hi]; [congruence | tauto] | tauto].
Qed.

Lemma dict_In_get d k : In k (dict_keys d) -> exists a, dict_get dec d k = Some a.
Proof.
  intros Hin. destruct (dict_get dec d k) as [a|] eqn:E; [now exists a|].
  apply dict_get_None in E. contradiction.
Qed.

Lemma dict_mem_In d k : dict_mem dec d k = true <-> In k (dict_keys d).
Proof.
  unfold dict_mem. destruct (dict_get dec d k) as [a|] eqn:E.
  - split; [intros _; eapply dict_get_In; eauto | reflexivity].
  - apply dict_get_None in E. split; [discriminate | contradiction].
Qed.

Lemma dict_mem_false d k : dict_mem dec d k = false <-> ~ In k (dict_keys d).
Proof.
  rewrite <- dict_mem_In. destruct (dict_mem dec d k); split; congruence.
Qed.

Lemma dict_keys_set_old d k a :
  In k (dict_keys d) -> dict_keys (dict_set dec d k a) = dict_keys d.
Proof.
  induction d as [|[k' a'] d IH]; simpl; [tauto|].
  intros Hin. destruct (dec k k') as [->|Hne]; simpl; [reflexivity|].
  f_equal. apply IH. destruct Hin; [congruence | assumption].
Qed.

Lemma dict_keys_set_new d k a :
  ~ In k (dict_keys d) -> dict_keys (dict_set dec d k a) = dict_keys d ++ [k].
Proof.
  induction d as [|[k' a'] d IH]; simpl; [reflexivity|].
  intros Hn. destruct (dec k k') as [->|Hne]; simpl.
  - exfalso. apply Hn. now left.
  - f_equal. apply IH. tauto.
Qed.

Lemma dict_keys_set_In d k a x :
  In x (dict_keys (dict_set dec d k a)) <-> x = k \/ In x (dict_keys d).
Proof.
  destruct (in_dec dec k (dict_keys d)) as [Hin|Hn].
  - rewrite dict_keys_set_old by assumption. split; [tauto | intros [->|]; assumption].
  - rewrite dict_keys_set_new by assumption. rewrite in_app_iff. simpl.
    split; [intros [|[->|[]]]; tauto | intros [->|]; tauto].
Qed.

Lemma dict_set_NoDup d k a : NoDup (dict_keys d) -> NoDup (dict_keys (dict_set dec d k a)).
Proof.
  intros Hnd. destruct (in_dec dec k (dict_keys d)) as [Hin|Hn].
  - now rewrite dict_keys_set_old.
  - rewrite dict_keys_set_new by assumption.
    apply NoDup_app; [assumption | repeat constructor; simpl; tauto |].
    intros x Hx [<-|[]]. contradiction.
Qed.

Lemma dict_keys_del d k :
  dict_keys (dict_del dec d k)
  = filter (fun x => if dec k x then false else true) (dict_keys d).
Proof.
  unfold dict_del, dict_keys. induction d as [|[k' a'] d IH]; simpl; [reflexivity|].
  destruct (dec k k'); simpl; [exact IH | now f_equal].
Qed.

Lemma dict_keys_del_In d k x :
  In x (dict_keys (dict_del dec d k)) <-> x <> k /\ In x (dict_keys d).
Proof.
  rewrite dict_keys_del, filter_In. destruct (dec k x) as [->|Hne].
  - split; [intros [_ Hf]; discriminate | intros [Hx _]; congruence].
  - split; [intros [Hi _]; split; [congruence | assumption] | tauto].
Qed.

Lemma dict_del_NoDup d k : NoDup (dict_keys d) -> NoDup (dict_keys (dict_del dec d k)).
Proof.
  intros Hnd. rewrite dict_keys_del. now apply NoDup_filter.
Qed.

Lemma dict_get_del_eq d k : dict_get dec (dict_del dec d k) k = None.
Proof.
  apply dict_get_None. rewrite dict_keys_del_In. tauto.
Qed.

Lemma dict_get_del_neq d k k' :
  k <> k' -> dict_get dec (dict_del dec d k) k' = dict_get dec d k'.
Proof.
  intros Hne. unfold dict_del. induction d as [|[k0 a0] d IH]; simpl; [reflexivity|].
  destruct (dec k k0) as [->|Hk]; simpl.
  - destruct (dec k' k0); [congruence | exact IH].
  - destruct (dec k' k0); [reflexivity | exact IH].
Qed.

Lemma dict_get_del d k k' :
  dict_get dec (dict_del dec d k) k' = if dec k' k then None else dict_get dec d k'.
Proof.
  destruct (dec k' k) as [->|Hne].
  - apply dict_get_del_eq.
  - apply dict_get_del_neq. congruence.
Qed.

Lemma dict_del_length d k :
  NoDup (dict_keys d) -> In k (dict_keys d) ->
  S (List.length (dict_del dec d k)) = List.length d.
Proof.
  unfold dict_del, dict_keys.
  induction d as [|[k' a'] d IH]; simpl; [tauto|].
  intros Hnd Hin. inversion Hnd as [|? ? Hk' Hnd']; subst.
  destruct (dec k k') as [->|Hne]; simpl.
  - f_equal. clear IH Hin Hnd Hnd'. induction d as [|[k0 a0] d IH]; simpl; [reflexivity|].
    simpl in Hk'. destruct (dec k' k0) as [->|Hne]; [tauto|].
    simpl. f_equal. apply IH. tauto.
  - f_equal. apply IH; [assumption|]. destruct Hin; [congruence | assumption].
Qed.

Lemma dict_get_app_new d k a k' :
  dict_get dec (d ++ [(k, a)]) k'
  = match dict_get dec d k' with
    | Some x => Some x
    | None => if dec k' k then Some a else None
    end.
Proof.
  induction d as [|[k0 a0] d IH]; simpl; [reflexivity|].
  destruct (dec k' k0); [reflexivity | exact IH].
Qed.

End DictFacts.

(** ** The networkx operations *)

Section NetworkxFacts.

Context {V : Type} `{NodeId V}.

Implicit Types (g : graph V) (u v n x y : V) (w : Q).

Lemma nx_has_node_In g n : nx_has_node g n = true <-> In n (nx_nodes g).
Proof. apply dict_mem_In. Qed.

Lemma nx_has_node_false g n : nx_has_node g n = false <-> ~ In n (nx_nodes g).
Proof. apply dict_mem_false. Qed.

Lemma nx_has_node_adj g n : nx_has_node g n = true <-> exists nbrs, nx_adj g n = Some nbrs.
Proof.
  unfold nx_has_node, dict_mem, nx_adj. destruct (dict_get node_eq_dec g n) as [nb|].
  - split; [intros _; now exists nb | reflexivity].
  - split; [discriminate | intros [nb Hnb]; discriminate].
Qed.

Lemma nx_adj_None g n : nx_adj g n = None <-> ~ In n (nx_nodes g).
Proof. apply dict_get_None. Qed.

Lemma nx_adj_In g n nbrs : nx_adj g n = Some nbrs -> In n (nx_nodes g).
Proof. apply dict_get_In. Qed.

Lemma nx_edge_In g u v w : nx_edge g u v = Some w -> In u (nx_nodes g).
Proof.
  unfold nx_edge. destruct (nx_adj g u) as [nb|] eqn:E; [|discriminate].
  intros _. eapply nx_adj_In; eauto.
Qed.

Lemma nx_get_edge_data_edge g u v d :
  nx_get_edge_data g u v d = match nx_edge g u v with Some w => w | None => d end.
Proof.
  unfold nx_get_edge_data, nx_edge. destruct (nx_adj g u); reflexivity.
Qed.

(** The invariant in terms of [nx_edge]. *)
Lemma nx_wf_edge g :
  nx_wf g <->
  NoDup (nx_nodes g) /\
  (forall u nbrs, nx_adj g u = Some nbrs -> NoDup (dict_keys nbrs)) /\
  (forall u v w, nx_edge g u v = Some w -> nx_edge g v u = Some w).
Proof.
  unfold nx_wf, nx_edge. split.
  - intros [Hn Ha]. split; [assumption|]. split.
    + intros u nb Hu. now apply (Ha u nb).
    + intros u v w. destruct (nx_adj g u) as [nb|] eqn:Eu; [|discriminate].
      intros Hg. destruct (Ha u nb Eu) as [_ Hs].
      destruct (Hs v w Hg) as [nb' [Ev Hg']]. now rewrite Ev.
  - intros [Hn [Hk Hs]]. split; [assumption|].
    intros u nb Eu. split; [now apply (Hk u)|].
    intros v w Hg. specialize (Hs u v w). rewrite Eu in Hs. specialize (Hs Hg).
    destruct (nx_adj g v) as [nb'|]; [|discriminate]. now exists nb'.
Qed.

Lemma nx_wf_nil : nx_wf (@nil (V * dict V Q)).
Proof.
  split; [constructor|]. intros u nb Hu. discriminate.
Qed.

(** *** [add_node] *)

Lemma nx_nodes_add_node g n :
  nx_nodes (nx_add_node g n) = if nx_has_node g n then nx_nodes g else nx_nodes g ++ [n].
Proof.
  unfold nx_add_node. destruct (nx_has_node g n); [reflexivity|].
  unfold nx_nodes, dict_keys. now rewrite map_app.
Qed.

Lemma nx_nodes_add_node_In g n x :
  In x (nx_nodes (nx_add_node g n)) <-> x = n \/ In x (nx_nodes g).
Proof.
  rewrite nx_nodes_add_node. destruct (nx_has_node g n) eqn:E.
  - apply nx_has_node_In in E. split; [tauto | intros [->|]; assumption].
  - rewrite in_app_iff. simpl. split; [intros [|[->|[]]]; tauto | intros [->|]; tauto].
Qed.

Lemma nx_adj_add_node g n x :
  nx_adj (nx_add_node g n) x
  = match nx_adj g x with
    | Some nb => Some nb
    | None => if node_eq_dec x n then Some [] else None
    end.
Proof.
  unfold nx_add_node. destruct (nx_has_node g n) eqn:E.
  - destruct (nx_adj g x) as [nb|] eqn:Ex; [reflexivity|].
    destruct (node_eq_dec x n) as [->|Hne]; [|reflexivity].
    apply nx_has_node_adj in E. destruct E as [nb Hnb]. congruence.
  - unfold nx_adj. apply dict_get_app_new.
Qed.

Lemma nx_edge_add_node g n x y : nx_edge (nx_add_node g n) x y = nx_edge g x y.
Proof.
  unfold nx_edge. rewrite nx_adj_add_node. destruct (nx_adj g x); [reflexivity|].
  destruct (node_eq_dec x n); reflexivity.
Qed.

Lemma nx_has_node_add_node g n : nx_has_node (nx_add_node g n) n = true.
Proof. apply nx_has_node_In, nx_nodes_add_node_In. now left. Qed.

Lemma nx_add_node_NoDup g n : NoDup (nx_nodes g) -> NoDup (nx_nodes (nx_add_node g n)).
Proof.
  intros Hnd. rewrite nx_nodes_add_node. destruct (nx_has_node g n) eqn:E; [assumption|].
  apply nx_has_node_false in E.
  apply NoDup_app; [assumption | repeat constructor; simpl; tauto |].
  intros x Hx [<-|[]]. contradiction.
Qed.

Lemma nx_add_node_wf g n : nx_wf g -> nx_wf (nx_add_node g n).
Proof.
  rewrite !nx_wf_edge. intros [Hn [Hk Hs]]. split; [now apply nx_add_node_NoDup|]. split.
  - intros u nb. rewrite nx_adj_add_node. destruct (nx_adj g u) as [nb0|] eqn:Eu.
    + intros [= <-]. now apply (Hk u).
    + destruct (node_eq_dec u n); [intros [= <-]; constructor | discriminate].
  - intros u v w. rewrite !nx_edge_add_node. apply Hs.
Qed.

(** *** [adj[u][v] = w] *)

Lemma nx_nodes_set_adj g u v w : nx_nodes (nx_set_adj g u v w) = nx_nodes g.
Proof.
  unfold nx_set_adj. destruct (nx_adj g u) as [nb|] eqn:E; [|reflexivity].
  apply dict_keys_set_old. eapply nx_adj_In; eauto.
Qed.

Lemma nx_adj_set_adj g u v w x :
  nx_adj (nx_set_adj g u v w) x
  = match nx_adj g u with
    | Some nb => if node_eq_dec x u then Some (dict_set node_eq_dec nb v w) else nx_adj g x
    | None => nx_adj g x
    end.
Proof.
  unfold nx_set_adj. destruct (nx_adj g u) as [nb|] eqn:E; [|reflexivity].
  unfold nx_adj. apply dict_get_set.
Qed.

Lemma nx_edge_set_adj g u v w x y :
  In u (nx_nodes g) ->
  nx_edge (nx_set_adj g u v w) x y
  = if node_eq_dec x u then (if node_eq_dec y v then Some w else nx_edge g x y)
    else nx_edge g x y.
Proof.
  intros Hu. unfold nx_edge. rewrite nx_adj_set_adj.
  destruct (nx_adj g u) as [nb|] eqn:E.
  - destruct (node_eq_dec x u) as [->|Hne]; [|reflexivity].
    rewrite E. unfold nx_get. apply dict_get_set.
  - apply nx_adj_None in E. contradiction.
Qed.

(** *** [add_edge] *)

Lemma nx_nodes_add_edge g u v w :
  nx_nodes (nx_add_edge g u v w) = nx_nodes (nx_add_node (nx_add_node g u) v).
Proof.
  unfold nx_add_edge. now rewrite !nx_nodes_set_adj.
Qed.

Lemma nx_nodes_add_edge_old g u v w :
  In u (nx_nodes g) -> In v (nx_nodes g) -> nx_nodes (nx_add_edge g u v w) = nx_nodes g.
Proof.
  intros Hu Hv. rewrite nx_nodes_add_edge.
  apply nx_has_node_In in Hu. apply nx_has_node_In in Hv.
  unfold nx_add_node. rewrite Hu, Hv. reflexivity.
Qed.

Lemma nx_edge_add_edge g u v w x y :
  nx_edge (nx_add_edge g u v w) x y
  = if node_eq_dec x u then
      (if node_eq_dec y v then Some w
       else if node_eq_dec x v then (if node_eq_dec y u then Some w else nx_edge g x y)
       else nx_edge g x y)
    else if node_eq_dec x v then (if node_eq_dec y u then Some w else nx_edge g x y)
    else nx_edge g x y.
Proof.
  unfold nx_add_edge.
  assert (Hu : In u (nx_nodes (nx_add_node (nx_add_node g u) v))).
  { apply nx_nodes_add_node_In. right. apply nx_nodes_add_node_In. now left. }
  assert (Hv : In v (nx_nodes (nx_add_node (nx_add_node g u) v))).
  { apply nx_nodes_add_node_In. now left. }
  rewrite nx_edge_set_adj by (now rewrite nx_nodes_set_adj).
  rewrite nx_edge_set_adj by assumption.
  rewrite !nx_edge_add_node.
  repeat (match goal with
          | |- context [node_eq_dec ?a ?b] => destruct (node_eq_dec a b)
          end);
    subst; try reflexivity; congruence.
Qed.

Lemma nx_adj_NoDup_set_adj g u v w :
  (forall x nb, nx_adj g x = Some nb -> NoDup (dict_keys nb)) ->
  forall x nb, nx_adj (nx_set_adj g u v w) x = Some nb -> NoDup (dict_keys nb).
Proof.
  intros Hk x nb. rewrite nx_adj_set_adj. destruct (nx_adj g u) as [nbu|] eqn:E.
  - destruct (node_eq_dec x u) as [->|Hne].
    + intros [= <-]. apply dict_set_NoDup. now apply (Hk u).
    + apply Hk.
  - apply Hk.
Qed.

Lemma nx_add_edge_wf g u v w : nx_wf g -> nx_wf (nx_add_edge g u v w).
Proof.
  intros Hwf.
  assert (Hwf2 : nx_wf (nx_add_node (nx_add_node g u) v)) by now do 2 apply nx_add_node_wf.
  apply nx_wf_edge in Hwf. destruct Hwf as [_ [_ Hs]].
  apply nx_wf_edge in Hwf2. destruct Hwf2 as [Hn2 [Hk2 _]].
  apply nx_wf_edge. split; [|split].
  - now rewrite nx_nodes_add_edge.
  - unfold nx_add_edge. now do 2 apply nx_adj_NoDup_set_adj.
  - intros x y q. rewrite !nx_edge_add_edge.
    repeat (match goal with
            | |- context [node_eq_dec ?a ?b] => destruct (node_eq_dec a b)
            end);
      subst; try congruence; try tauto; apply Hs.
Qed.

End NetworkxFacts.

Section RemoveFacts.

Context {V : Type} `{NodeId V}.

Implicit Types (g : graph V) (u v n x y : V) (w : Q).

Lemma dict_del_idem (d : dict V Q) n :
  dict_del node_eq_dec (dict_del node_eq_dec d n) n = dict_del node_eq_dec d n.
Proof.
  unfold dict_del. induction d as [|[k a] d IH]; simpl; [reflexivity|].
  destruct (node_eq_dec n k) eqn:E; simpl; [exact IH|].
  rewrite E. now f_equal.
Qed.

Lemma filter_out_absent (l : list V) n :
  ~ In n l -> filter (fun x => if node_eq_dec n x then false else true) l = l.
Proof.
  induction l as [|a l IH]; simpl; [reflexivity|].
  intros Hn. destruct (node_eq_dec n a) as [->|Hne]; [tauto|].
  f_equal. apply IH. tauto.
Qed.

Lemma nx_nodes_del_adj g u n : nx_nodes (nx_del_adj g u n) = nx_nodes g.
Proof.
  unfold nx_del_adj. destruct (nx_adj g u) as [nb|] eqn:E; [|reflexivity].
  apply dict_keys_set_old. eapply nx_adj_In; eauto.
Qed.

Lemma nx_adj_del_adj g u n x :
  nx_adj (nx_del_adj g u n) x
  = option_map (fun nb => if node_eq_dec x u then dict_del node_eq_dec nb n else nb)
      (nx_adj g x).
Proof.
  unfold nx_del_adj. destruct (nx_adj g u) as [nbu|] eqn:E.
  - unfold nx_adj at 1. rewrite dict_get_set.
    destruct (node_eq_dec x u) as [->|Hne].
    + now rewrite E.
    + fold (nx_adj g x). destruct (nx_adj g x); reflexivity.
  - destruct (node_eq_dec x u) as [->|Hne].
    + now rewrite E.
    + destruct (nx_adj g x); reflexivity.
Qed.

Lemma nx_nodes_del_adj_fold l g n :
  nx_nodes (fold_left (fun g u => nx_del_adj g u n) l g) = nx_nodes g.
Proof.
  revert g. induction l as [|u l IH]; intros g; simpl; [reflexivity|].
  now rewrite IH, nx_nodes_del_adj.
Qed.

Lemma nx_adj_del_adj_fold l g n x :
  nx_adj (fold_left (fun g u => nx_del_adj g u n) l g) x
  = option_map (fun nb => if in_dec node_eq_dec x l then dict_del node_eq_dec nb n else nb)
      (nx_adj g x).
Proof.
  revert g. induction l as [|u l IH]; intros g; simpl.
  - destruct (nx_adj g x); reflexivity.
  - rewrite IH, nx_adj_del_adj. destruct (nx_adj g x) as [nb|]; simpl; [|reflexivity].
    f_equal. destruct (node_eq_dec u x) as [->|Hux].
    + destruct (node_eq_dec x x); [|congruence].
      destruct (in_dec node_eq_dec x l); [apply dict_del_idem | reflexivity].
    + destruct (node_eq_dec x u); [congruence|].
      destruct (in_dec node_eq_dec x l); reflexivity.
Qed.

Lemma nx_nodes_remove_node g n :
  nx_nodes (nx_remove_node g n)
  = filter (fun x => if node_eq_dec n x then false else true) (nx_nodes g).
Proof.
  unfold nx_remove_node. destruct (nx_adj g n) as [nbrs|] eqn:E.
  - unfold nx_nodes at 1. rewrite dict_keys_del.
    fold (nx_nodes (fold_left (fun g u => nx_del_adj g u n) (dict_keys nbrs) g)).
    now rewrite nx_nodes_del_adj_fold.
  - symmetry. apply filter_out_absent. now apply nx_adj_None.
Qed.

Lemma nx_nodes_remove_node_In g n x :
  In x (nx_nodes (nx_remove_node g n)) <-> x <> n /\ In x (nx_nodes g).
Proof.
  rewrite nx_nodes_remove_node, filter_In. destruct (node_eq_dec n x) as [->|Hne].
  - split; [intros [_ Hf]; discriminate | intros [Hx _]; congruence].
  - split; [intros [Hi _]; split; [congruence | assumption] | tauto].
Qed.

Lemma nx_adj_remove_node g n x :
  nx_adj (nx_remove_node g n) x
  = if node_eq_dec x n then None
    else match nx_adj g n with
         | Some nbrs =>
             option_map
               (fun nb => if in_dec node_eq_dec x (dict_keys nbrs)
                          then dict_del node_eq_dec nb n else nb)
               (nx_adj g x)
         | None => nx_adj g x
         end.
Proof.
  unfold nx_remove_node. destruct (nx_adj g n) as [nbrs|] eqn:E.
  - unfold nx_adj at 1. rewrite dict_get_del.
    destruct (node_eq_dec x n); [reflexivity|]. apply nx_adj_del_adj_fold.
  - destruct (node_eq_dec x n) as [->|Hne]; [assumption | reflexivity].
Qed.

Lemma nx_adj_remove_node_None g n x :
  nx_adj g x = None -> nx_adj (nx_remove_node g n) x = None.
Proof.
  intros Hx. rewrite nx_adj_remove_node. destruct (node_eq_dec x n); [reflexivity|].
  destruct (nx_adj g n); [now rewrite Hx | assumption].
Qed.

Lemma nx_edge_remove_node g n x y :
  nx_wf g ->
  nx_edge (nx_remove_node g n) x y
  = if node_eq_dec x n then None else if node_eq_dec y n then None else nx_edge g x y.
Proof.
  intros Hwf. apply nx_wf_edge in Hwf. destruct Hwf as [_ [_ Hs]].
  unfold nx_edge at 1. rewrite nx_adj_remove_node.
  destruct (node_eq_dec x n) as [->|Hxn]; [reflexivity|].
  destruct (nx_adj g n) as [nbrs|] eqn:En.
  - destruct (nx_adj g x) as [nb|] eqn:Ex; simpl.
    + destruct (in_dec node_eq_dec x (dict_keys nbrs)) as [Hin|Hnin].
      * unfold nx_get. rewrite dict_get_del. unfold nx_edge. rewrite Ex.
        destruct (node_eq_dec y n); reflexivity.
      * destruct (node_eq_dec y n) as [->|Hyn].
        -- destruct (nx_get nb n) as [q|] eqn:Eq; [|reflexivity].
           exfalso. apply Hnin. specialize (Hs x n q). unfold nx_edge in Hs.
           rewrite Ex, En in Hs. specialize (Hs Eq).
           eapply dict_get_In. exact Hs.
        -- unfold nx_edge. now rewrite Ex.
    + unfold nx_edge. rewrite Ex. destruct (node_eq_dec y n); reflexivity.
  - destruct (node_eq_dec y n) as [->|Hyn].
    + destruct (nx_adj g x) as [nb|] eqn:Ex; [|reflexivity].
      destruct (nx_get nb n) as [q|] eqn:Eq; [|reflexivity].
      specialize (Hs x n q). unfold nx_edge in Hs. rewrite Ex, En in Hs.
      specialize (Hs Eq). discriminate.
    + reflexivity.
Qed.

Lemma nx_remove_node_wf g n : nx_wf g -> nx_wf (nx_remove_node g n).
Proof.
  intros Hwf. pose proof Hwf as Hwf'. apply nx_wf_edge in Hwf'.
  destruct Hwf' as [Hn [Hk Hs]]. apply nx_wf_edge. split; [|split].
  - rewrite nx_nodes_remove_node. now apply NoDup_filter.
  - intros u nb. rewrite nx_adj_remove_node. destruct (node_eq_dec u n); [discriminate|].
    destruct (nx_adj g n) as [nbrs|].
    + destruct (nx_adj g u) as [nbu|] eqn:Eu; simpl; [|discriminate].
      intros [= <-]. destruct (in_dec node_eq_dec u (dict_keys nbrs)).
      * apply dict_del_NoDup. now apply (Hk u).
      * now apply (Hk u).
    + apply Hk.
  - intros u v w. rewrite !nx_edge_remove_node by assumption.
    destruct (node_eq_dec u n); [discriminate|].
    destruct (node_eq_dec v n); [discriminate|]. apply Hs.
Qed.

Lemma nx_remove_nodes_from_wf l g : nx_wf g -> nx_wf (nx_remove_nodes_from g l).
Proof.
  unfold nx_remove_nodes_from. revert g.
  induction l as [|n l IH]; intros g Hwf; simpl; [assumption|].
  apply IH. now apply nx_remove_node_wf.
Qed.

Lemma nx_add_nodes_from_wf l g : nx_wf g -> nx_wf (nx_add_nodes_from g l).
Proof.
  unfold nx_add_nodes_from. revert g.
  induction l as [|n l IH]; intros g Hwf; simpl; [assumption|].
  apply IH. now apply nx_add_node_wf.
Qed.

Lemma nx_add_edges_from_wf l g : nx_wf g -> nx_wf (nx_add_edges_from g l).
Proof.
  unfold nx_add_edges_from. revert g.
  induction l as [|e l IH]; intros g Hwf; simpl; [assumption|].
  apply IH. now apply nx_add_edge_wf.
Qed.

End RemoveFacts.

(** ** Merging *)

Section MergeFacts.

Context {V : Type} `{NodeId V} {set_order : SetIter V}.

Implicit Types (g : graph V) (a b k u v x y : V) (w : Q).

Lemma merged_edges_fold_get g a b l (acc : dict V Q) k :
  dict_get node_eq_dec
    (fold_left
       (fun edges neighbor =>
          if in_dec node_eq_dec neighbor [a; b] then edges
          else dict_set node_eq_dec edges neighbor
                 (nx_get_edge_data g a neighbor 0 + nx_get_edge_data g b neighbor 0)%Q)
       l acc) k
  = if in_dec node_eq_dec k l then
      (if in_dec node_eq_dec k [a; b] then dict_get node_eq_dec acc k
       else Some (weight_or_0 g a k + weight_or_0 g b k)%Q)
    else dict_get node_eq_dec acc k.
Proof.
  revert acc. induction l as [|u l IH]; intros acc; [reflexivity|].
  cbn [fold_left]. rewrite IH. clear IH.
  unfold weight_or_0.
  destruct (in_dec node_eq_dec u [a; b]) as [Huab|Huab].
  - destruct (in_dec node_eq_dec k (u :: l)) as [Hin|Hnin];
      destruct (in_dec node_eq_dec k l) as [Hl|Hl];
      destruct (in_dec node_eq_dec k [a; b]) as [Hab|Hab];
      try reflexivity; try (exfalso; apply Hnin; now right).
    destruct Hin as [->|]; contradiction.
  - rewrite dict_get_set.
    destruct (in_dec node_eq_dec k (u :: l)) as [Hin|Hnin];
      destruct (in_dec node_eq_dec k l) as [Hl|Hl];
      destruct (in_dec node_eq_dec k [a; b]) as [Hab|Hab];
      destruct (node_eq_dec k u) as [->|Hku];
      try reflexivity; try contradiction;
      try (exfalso; apply Hnin; now right);
      try (exfalso; apply Hnin; now left).
    all: destruct Hin as [Hin|Hin]; [congruence | contradiction].
Qed.

Lemma merged_edges_get g a b l k :
  dict_get node_eq_dec (merged_edges g a b l) k
  = if in_dec node_eq_dec k l then
      (if in_dec node_eq_dec k [a; b] then None
       else Some (weight_or_0 g a k + weight_or_0 g b k)%Q)
    else None.
Proof.
  unfold merged_edges. rewrite merged_edges_fold_get. simpl.
  destruct (in_dec node_eq_dec k l); reflexivity.
Qed.

Lemma merged_edges_NoDup g a b l : NoDup (dict_keys (merged_edges g a b l)).
Proof.
  unfold merged_edges.
  assert (Hgen : forall acc : dict V Q, NoDup (dict_keys acc) ->
    NoDup (dict_keys (fold_left
       (fun edges neighbor =>
          if in_dec node_eq_dec neighbor [a; b] then edges
          else dict_set node_eq_dec edges neighbor
                 (nx_get_edge_data g a neighbor 0 + nx_get_edge_data g b neighbor 0)%Q)
       l acc))).
  { induction l as [|u l IH]; intros acc Hacc; [assumption|].
    cbn [fold_left]. apply IH. destruct (in_dec node_eq_dec u [a; b]); [assumption|].
    now apply dict_set_NoDup. }
  apply Hgen. constructor.
Qed.

Lemma merged_edges_In g a b l k :
  In k (dict_keys (merged_edges g a b l)) <-> In k l /\ ~ In k [a; b].
Proof.
  split.
  - intros Hin. apply (dict_In_get node_eq_dec) in Hin. destruct Hin as [q Hq].
    rewrite merged_edges_get in Hq.
    destruct (in_dec node_eq_dec k l); [|discriminate].
    destruct (in_dec node_eq_dec k [a; b]); [discriminate | tauto].
  - intros [Hl Hab]. eapply dict_get_In with (dec := node_eq_dec).
    rewrite merged_edges_get.
    destruct (in_dec node_eq_dec k l); [|contradiction].
    destruct (in_dec node_eq_dec k [a; b]); [contradiction | reflexivity].
Qed.

(** The loop of [add_edge] in [merge_nodes]. *)
Lemma add_edges_fold_edge new (es : dict V Q) g x y :
  NoDup (dict_keys es) -> ~ In new (dict_keys es) ->
  nx_edge (fold_left (fun g e => nx_add_edge g new (fst e) (snd e)) es g) x y
  = if node_eq_dec x new then
      match dict_get node_eq_dec es y with Some q => Some q | None => nx_edge g x y end
    else if node_eq_dec y new then
      match dict_get node_eq_dec es x with Some q => Some q | None => nx_edge g x y end
    else nx_edge g x y.
Proof.
  revert g. induction es as [|[k q] es IH]; intros g Hnd Hnew.
  - simpl. destruct (node_eq_dec x new); [reflexivity|].
    destruct (node_eq_dec y new); reflexivity.
  - cbn [fold_left fst snd]. inversion Hnd as [|? ? Hk Hnd']; subst.
    simpl in Hnew. rewrite IH by tauto. clear IH.
    rewrite nx_edge_add_edge. cbn [dict_get].
    assert (Hkn : k <> new) by tauto.
    assert (Hgk : dict_get node_eq_dec es k = None) by now apply dict_get_None.
    destruct (node_eq_dec x new) as [->|Hx].
    + destruct (node_eq_dec y k) as [->|Hyk].
      * now rewrite Hgk.
      * destruct (dict_get node_eq_dec es y); [reflexivity|].
        destruct (node_eq_dec new k); [congruence | reflexivity].
    + destruct (node_eq_dec y new) as [->|Hy].
      * destruct (node_eq_dec x k) as [->|Hxk].
        -- rewrite Hgk. destruct (node_eq_dec new new); [reflexivity | congruence].
        -- destruct (dict_get node_eq_dec es x); reflexivity.
      * destruct (node_eq_dec x k); reflexivity.
Qed.

Lemma add_edges_fold_nodes new (es : dict V Q) g :
  In new (nx_nodes g) -> (forall k, In k (dict_keys es) -> In k (nx_nodes g)) ->
  nx_nodes (fold_left (fun g e => nx_add_edge g new (fst e) (snd e)) es g) = nx_nodes g.
Proof.
  revert g. induction es as [|[k q] es IH]; intros g Hnew Hks; [reflexivity|].
  cbn [fold_left fst snd].
  assert (Hk : In k (nx_nodes g)) by (apply Hks; now left).
  rewrite IH.
  - now apply nx_nodes_add_edge_old.
  - now rewrite nx_nodes_add_edge_old.
  - intros k' Hk'. rewrite nx_nodes_add_edge_old by assumption. apply Hks. now right.
Qed.

Lemma add_edges_fold_wf new (es : dict V Q) g :
  nx_wf g -> nx_wf (fold_left (fun g e => nx_add_edge g new (fst e) (snd e)) es g).
Proof.
  revert g. induction es as [|[k q] es IH]; intros g Hwf; [assumption|].
  cbn [fold_left]. apply IH. now apply nx_add_edge_wf.
Qed.

End MergeFacts.

Section MergeSpec.

Context {V : Type} `{NodeId V} {set_order : SetIter V}.

Implicit Types (g : graph V) (a b k u v x y : V) (w : Q).

Lemma nx_edge_keys g a nbrs y :
  nx_adj g a = Some nbrs -> (In y (dict_keys nbrs) <-> nx_edge g a y <> None).
Proof.
  intros Ha. unfold nx_edge. rewrite Ha. unfold nx_get.
  destruct (dict_get node_eq_dec nbrs y) as [q|] eqn:E.
  - split; [discriminate | intros _; eapply dict_get_In; eauto].
  - apply dict_get_None in E. split; [contradiction | congruence].
Qed.

Lemma nx_edge_absent g x y : ~ In x (nx_nodes g) -> nx_edge g x y = None.
Proof.
  intros Hx. apply nx_adj_None in Hx. unfold nx_edge. now rewrite Hx.
Qed.

Lemma nx_edge_absent_r g x y : nx_wf g -> ~ In y (nx_nodes g) -> nx_edge g x y = None.
Proof.
  intros Hwf Hy. apply nx_wf_edge in Hwf. destruct Hwf as [_ [_ Hs]].
  destruct (nx_edge g x y) as [q|] eqn:E; [|reflexivity].
  apply Hs in E. apply nx_edge_In in E. contradiction.
Qed.

Lemma merge_graph_unfold g a b na nb :
  nx_adj g a = Some na -> nx_adj g b = Some nb ->
  merge_graph g a b
  = contract g a b
      (merged_edges g a b (set_union_iter (dict_keys na) (dict_keys nb))).
Proof.
  intros Ha Hb. unfold merge_graph, nx_neighbors. now rewrite Ha, Hb.
Qed.

Lemma merged_edges_spec g a b na nb k :
  nx_adj g a = Some na -> nx_adj g b = Some nb ->
  dict_get node_eq_dec
    (merged_edges g a b (set_union_iter (dict_keys na) (dict_keys nb))) k
  = merged_weight g a b k.
Proof.
  intros Ha Hb. rewrite merged_edges_get. unfold merged_weight.
  destruct (in_dec node_eq_dec k [a; b]) as [Hab|Hab].
  - destruct (in_dec node_eq_dec k _); reflexivity.
  - destruct (in_dec node_eq_dec k (set_union_iter (dict_keys na) (dict_keys nb))) as [Hin|Hnin].
    + apply set_union_iter_In in Hin.
      rewrite (nx_edge_keys g a na k Ha), (nx_edge_keys g b nb k Hb) in Hin.
      destruct (nx_edge g a k); [reflexivity|].
      destruct (nx_edge g b k); [reflexivity|]. destruct Hin; congruence.
    + rewrite set_union_iter_In in Hnin.
      rewrite (nx_edge_keys g a na k Ha), (nx_edge_keys g b nb k Hb) in Hnin.
      destruct (nx_edge g a k); [exfalso; apply Hnin; left; discriminate|].
      destruct (nx_edge g b k); [exfalso; apply Hnin; right; discriminate|].
      reflexivity.
Qed.

Lemma merged_weight_In g a b k q :
  nx_wf g -> merged_weight g a b k = Some q -> In k (nx_nodes g) /\ ~ In k [a; b].
Proof.
  intros Hwf. apply nx_wf_edge in Hwf. destruct Hwf as [_ [_ Hs]].
  unfold merged_weight. destruct (in_dec node_eq_dec k [a; b]); [discriminate|].
  intros Hq. split; [|assumption].
  destruct (nx_edge g a k) as [qa|] eqn:Ea.
  - apply Hs in Ea. eapply nx_edge_In; eauto.
  - destruct (nx_edge g b k) as [qb|] eqn:Eb; [|discriminate].
    apply Hs in Eb. eapply nx_edge_In; eauto.
Qed.

Section Mergeable.

Variables (g : graph V) (a b : V).
Hypothesis Hwf : nx_wf g.
Hypothesis Ha : In a (nx_nodes g).
Hypothesis Hb : In b (nx_nodes g).
Hypothesis Hnew : ~ In (joined a b) (nx_nodes g).

Lemma merge_graph_nodes :
  nx_nodes (merge_graph g a b)
  = filter (fun x => if node_eq_dec b x then false else true)
      (filter (fun x => if node_eq_dec a x then false else true) (nx_nodes g))
    ++ [joined a b].
Proof.
  destruct (dict_In_get node_eq_dec g a Ha) as [na Ena].
  destruct (dict_In_get node_eq_dec g b Hb) as [nb Enb].
  rewrite (merge_graph_unfold g a b na nb Ena Enb). unfold contract.
  set (es := merged_edges g a b _).
  set (g1 := nx_remove_nodes_from g [a; b]).
  assert (Hg1 : nx_nodes g1
     = filter (fun x => if node_eq_dec b x then false else true)
         (filter (fun x => if node_eq_dec a x then false else true) (nx_nodes g))).
  { unfold g1, nx_remove_nodes_from. simpl. now rewrite !nx_nodes_remove_node. }
  assert (Hfresh : nx_has_node g1 (joined a b) = false).
  { apply nx_has_node_false. rewrite Hg1, !filter_In. tauto. }
  rewrite add_edges_fold_nodes.
  - rewrite nx_nodes_add_node, Hfresh. now rewrite Hg1.
  - apply nx_nodes_add_node_In. now left.
  - intros k Hk. apply nx_nodes_add_node_In. right.
    apply (dict_In_get node_eq_dec) in Hk. destruct Hk as [q Hq].
    unfold es in Hq. rewrite (merged_edges_spec g a b na nb k Ena Enb) in Hq.
    apply merged_weight_In in Hq; [|assumption]. destruct Hq as [Hk Hab].
    rewrite Hg1, !filter_In. simpl in Hab.
    destruct (node_eq_dec a k); [tauto|]. destruct (node_eq_dec b k); tauto.
Qed.

Lemma merge_graph_edge x y :
  nx_edge (merge_graph g a b) x y
  = if node_eq_dec x (joined a b) then merged_weight g a b y
    else if node_eq_dec y (joined a b) then merged_weight g a b x
    else if in_dec node_eq_dec x [a; b] then None
    else if in_dec node_eq_dec y [a; b] then None
    else nx_edge g x y.
Proof.
  destruct (dict_In_get node_eq_dec g a Ha) as [na Ena].
  destruct (dict_In_get node_eq_dec g b Hb) as [nb Enb].
  rewrite (merge_graph_unfold g a b na nb Ena Enb). unfold contract.
  set (es := merged_edges g a b _).
  assert (Hes : forall k, dict_get node_eq_dec es k = merged_weight g a b k).
  { intros k. apply merged_edges_spec; assumption. }
  assert (Hg1 : forall u v,
    nx_edge (nx_add_node (nx_remove_nodes_from g [a; b]) (joined a b)) u v
    = if in_dec node_eq_dec u [a; b] then None
      else if in_dec node_eq_dec v [a; b] then None else nx_edge g u v).
  { intros u v. rewrite nx_edge_add_node. unfold nx_remove_nodes_from. cbn [fold_left].
    rewrite nx_edge_remove_node by now apply nx_remove_node_wf.
    rewrite nx_edge_remove_node by assumption.
    destruct (in_dec node_eq_dec u [a; b]) as [Hu|Hu];
      destruct (in_dec node_eq_dec v [a; b]) as [Hv|Hv];
      simpl in Hu, Hv;
      destruct (node_eq_dec u b) as [Hub|Hub]; destruct (node_eq_dec u a) as [Hua|Hua];
      destruct (node_eq_dec v b) as [Hvb|Hvb]; destruct (node_eq_dec v a) as [Hva|Hva];
      try reflexivity; exfalso; intuition congruence. }
  rewrite add_edges_fold_edge.
  - rewrite !Hes, !Hg1.
    destruct (node_eq_dec x (joined a b)) as [->|Hx].
    + destruct (merged_weight g a b y); [reflexivity|].
      destruct (in_dec node_eq_dec (joined a b) [a; b]); [reflexivity|].
      destruct (in_dec node_eq_dec y [a; b]); [reflexivity|].
      now apply nx_edge_absent.
    + destruct (node_eq_dec y (joined a b)) as [->|Hy]; [|reflexivity].
      destruct (merged_weight g a b x); [reflexivity|].
      destruct (in_dec node_eq_dec x [a; b]); [reflexivity|].
      destruct (in_dec node_eq_dec (joined a b) [a; b]); [reflexivity|].
      now apply nx_edge_absent_r.
  - apply merged_edges_NoDup.
  - intros Hin. apply (dict_In_get node_eq_dec) in Hin. destruct Hin as [q Hq].
    rewrite Hes in Hq. apply merged_weight_In in Hq; [|assumption]. tauto.
Qed.

Lemma merge_graph_wf : nx_wf (merge_graph g a b).
Proof.
  destruct (dict_In_get node_eq_dec g a Ha) as [na Ena].
  destruct (dict_In_get node_eq_dec g b Hb) as [nb Enb].
  rewrite (merge_graph_unfold g a b na nb Ena Enb). unfold contract.
  apply add_edges_fold_wf, nx_add_node_wf, nx_remove_nodes_from_wf, Hwf.
Qed.

End Mergeable.

End MergeSpec.

(** ** Identifiers *)

Lemma split_comma_nonempty (s : string) : split_comma s <> [].
Proof.
  destruct s as [|c s]; simpl; [discriminate|].
  destruct (Ascii.eqb c comma); [discriminate|].
  destruct (split_comma s); discriminate.
Qed.

Lemma split_comma_app (s1 s2 : string) :
  split_comma (s1 ++ String comma s2) = split_comma s1 ++ split_comma s2.
Proof.
  induction s1 as [|c s1 IH]; simpl.
  - reflexivity.
  - destruct (Ascii.eqb c comma); [now rewrite IH|].
    rewrite IH. destruct (split_comma s1) as [|t ts] eqn:E; [|reflexivity].
    now apply split_comma_nonempty in E.
Qed.

Lemma string_app_length (s1 s2 : string) :
  String.length (s1 ++ s2) = String.length s1 + String.length s2.
Proof.
  induction s1 as [|c s1 IH]; simpl; [reflexivity | now rewrite IH].
Qed.

Section IdFacts.

Context {V : Type} `{NodeId V} {set_order : SetIter V}.

Implicit Types (g : graph V) (a b k u v x y : V).

Lemma joined_str a b :
  node_str (joined a b) = (node_str a ++ String comma (node_str b))%string.
Proof. unfold joined. now rewrite node_str_of_str. Qed.

Lemma joined_tokens a b :
  split_comma (node_str (joined a b))
  = split_comma (node_str a) ++ split_comma (node_str b).
Proof. rewrite joined_str. apply split_comma_app. Qed.

Lemma joined_neq_l a b : joined a b <> a.
Proof.
  intros E. apply (f_equal node_str) in E. rewrite joined_str in E.
  apply (f_equal String.length) in E. rewrite string_app_length in E. simpl in E. lia.
Qed.

Lemma joined_neq_r a b : joined a b <> b.
Proof.
  intros E. apply (f_equal node_str) in E. rewrite joined_str in E.
  apply (f_equal String.length) in E. rewrite string_app_length in E. simpl in E. lia.
Qed.

Lemma joined_fresh g a b :
  ids_disjoint g -> In a (nx_nodes g) -> ~ In (joined a b) (nx_nodes g).
Proof.
  intros Hd Ha Hin.
  destruct (split_comma (node_str a)) as [|t ts] eqn:E.
  - now apply split_comma_nonempty in E.
  - apply (Hd a (joined a b) t Ha Hin).
    + intros Heq. symmetry in Heq. now apply joined_neq_l in Heq.
    + rewrite E. now left.
    + rewrite joined_tokens, E. now left.
Qed.

Lemma merge_graph_ids_disjoint g a b :
  nx_wf g -> ids_disjoint g -> In a (nx_nodes g) -> In b (nx_nodes g) ->
  ids_disjoint (merge_graph g a b).
Proof.
  intros Hwf Hd Ha Hb.
  pose proof (joined_fresh g a b Hd Ha) as Hnew.
  assert (Hnodes : forall x, In x (nx_nodes (merge_graph g a b)) ->
            x = joined a b \/ (In x (nx_nodes g) /\ x <> a /\ x <> b)).
  { intros x. rewrite (merge_graph_nodes g a b Hwf Ha Hb Hnew), in_app_iff, !filter_In.
    simpl. destruct (node_eq_dec b x); destruct (node_eq_dec a x);
      intuition congruence. }
  intros u v t Hu Hv Huv Htu Htv.
  destruct (Hnodes u Hu) as [->|[Hu' [Hua Hub]]];
    destruct (Hnodes v Hv) as [->|[Hv' [Hva Hvb]]].
  - congruence.
  - rewrite joined_tokens, in_app_iff in Htu. destruct Htu as [Hta|Htb].
    + apply (Hd a v t Ha Hv'); [congruence | assumption | assumption].
    + apply (Hd b v t Hb Hv'); [congruence | assumption | assumption].
  - rewrite joined_tokens, in_app_iff in Htv. destruct Htv as [Hta|Htb].
    + apply (Hd u a t Hu' Ha); [congruence | assumption | assumption].
    + apply (Hd u b t Hu' Hb); [congruence | assumption | assumption].
  - apply (Hd u v t Hu' Hv' Huv Htu Htv).
Qed.

(** *** What the shared body of [merge_nodes] returns *)

Lemma merge_graph_pos_graph a b (gp : graph V * positions V) :
  fst (snd (merge_graph_pos a b gp)) = merge_graph (fst gp) a b.
Proof.
  unfold merge_graph_pos, merge_graph.
  destruct (nx_neighbors (fst gp) a) as [n1|e1]; [|reflexivity].
  destruct (nx_neighbors (fst gp) b) as [n2|e2]; [|reflexivity].
  destruct (pos_getitem (snd gp) a); [|reflexivity].
  destruct (pos_getitem (snd gp) b); [|reflexivity].
  destruct (pos_delitem _ a); [|reflexivity].
  destruct (pos_delitem _ b); reflexivity.
Qed.

Lemma merge_graph_pos_missing a b g (p : positions V) :
  nx_has_node g a = false \/ nx_has_node g b = false ->
  merge_graph_pos a b (g, p) = (Raise NetworkXError, (g, p)).
Proof.
  intros Hm. unfold merge_graph_pos, nx_neighbors. cbn [fst snd].
  destruct (nx_adj g a) as [na|] eqn:Ea; [|reflexivity].
  destruct (nx_adj g b) as [nb|] eqn:Eb; [|reflexivity].
  destruct Hm as [Hm|Hm]; apply nx_has_node_false in Hm; exfalso; apply Hm;
    eapply nx_adj_In; eauto.
Qed.

Lemma merge_graph_pos_Return a b g (p : positions V) :
  fst (merge_graph_pos a b (g, p)) = Return tt ->
  In a (nx_nodes g) /\ In b (nx_nodes g) /\ a <> b.
Proof.
  unfold merge_graph_pos, nx_neighbors, pos_getitem, pos_delitem. cbn [fst snd].
  destruct (nx_adj g a) as [na|] eqn:Ea; [|discriminate].
  destruct (nx_adj g b) as [nb|] eqn:Eb; [|discriminate].
  destruct (dict_get node_eq_dec p a) as [pa|]; [|discriminate].
  destruct (dict_get node_eq_dec p b) as [pb|]; [|discriminate].
  destruct (dict_mem node_eq_dec _ a); [|discriminate].
  destruct (dict_mem node_eq_dec (dict_del node_eq_dec _ a) b) eqn:Em; [|discriminate].
  intros _. split; [eapply nx_adj_In; eauto|]. split; [eapply nx_adj_In; eauto|].
  intros ->. apply dict_mem_In in Em. apply dict_keys_del_In in Em. tauto.
Qed.

End IdFacts.

(** ** Soundness of the invariant tests *)

Lemma Q_eqb_eq (p q : Q) : Q_eqb p q = true -> p = q.
Proof.
  unfold Q_eqb. intros Hb. apply andb_prop in Hb. destruct Hb as [Hn Hd].
  apply Z.eqb_eq in Hn. apply Pos.eqb_eq in Hd.
  destruct p, q. simpl in *. congruence.
Qed.

Lemma dict_get_In_pair {K A : Type} (dec : forall x y : K, {x = y} + {x <> y})
    (d : dict K A) (k : K) (a : A) :
  dict_get dec d k = Some a -> In (k, a) d.
Proof.
  induction d as [|[k' a'] d IH]; simpl; [discriminate|].
  destruct (dec k k') as [->|Hne].
  - intros [= ->]. now left.
  - intros Hg. right. auto.
Qed.

Section CheckFacts.

Context {V : Type} `{NodeId V}.

Lemma nodupb_sound (l : list V) : nodupb l = true -> NoDup l.
Proof.
  induction l as [|x l IH]; simpl; [constructor|].
  destruct (in_dec node_eq_dec x l); simpl; [discriminate|].
  intros Hb. constructor; auto.
Qed.

Lemma nx_wfb_sound (g : graph V) : nx_wfb g = true -> nx_wf g.
Proof.
  unfold nx_wfb. intros Hb. apply andb_prop in Hb. destruct Hb as [Hn Hall].
  split; [now apply nodupb_sound|].
  intros u nbrs Hu. apply dict_get_In_pair in Hu.
  rewrite forallb_forall in Hall. specialize (Hall _ Hu). cbn [fst snd] in Hall.
  apply andb_prop in Hall. destruct Hall as [Hk Hs].
  split; [now apply nodupb_sound|].
  intros v w Hv. apply dict_get_In_pair in Hv.
  rewrite forallb_forall in Hs. specialize (Hs _ Hv). cbn [fst snd] in Hs.
  unfold nx_edge in Hs. destruct (nx_adj g v) as [nbrs'|]; [|discriminate].
  exists nbrs'. split; [reflexivity|].
  destruct (nx_get nbrs' u) as [w'|]; [|discriminate].
  apply Q_eqb_eq in Hs. now subst.
Qed.

Lemma ids_disjointb_sound (g : graph V) : ids_disjointb g = true -> ids_disjoint g.
Proof.
  unfold ids_disjointb. intros Hb u v t Hu Hv Huv Htu Htv.
  rewrite forallb_forall in Hb. specialize (Hb u Hu).
  rewrite forallb_forall in Hb. specialize (Hb v Hv).
  destruct (node_eq_dec u v); [contradiction|].
  rewrite forallb_forall in Hb. specialize (Hb t Htu).
  destruct (in_dec string_dec t (split_comma (node_str v))); [discriminate | contradiction].
Qed.

Lemma filter_out_length (l : list V) (a : V) :
  NoDup l -> In a l ->
  S (List.length (filter (fun x => if node_eq_dec a x then false else true) l))
  = List.length l.
Proof.
  induction l as [|x l IH]; simpl; [tauto|].
  intros Hnd Hin. inversion Hnd as [|? ? Hx Hnd']; subst.
  destruct (node_eq_dec a x) as [->|Hne].
  - now rewrite filter_out_absent.
  - simpl. f_equal. apply IH; [assumption|]. destruct Hin; [congruence | assumption].
Qed.

End CheckFacts.

(** ** One merge *)

Section MergeStep.

Context {V : Type} `{NodeId V} {set_order : SetIter V}.

Implicit Types (g : graph V) (a b k : V) (p : positions V).

(** The merge goes through when both nodes are in the graph and have a
    position, and are different. *)
Lemma merge_graph_pos_succeeds a b g p :
  In a (nx_nodes g) -> In b (nx_nodes g) -> a <> b ->
  In a (dict_keys p) -> In b (dict_keys p) ->
  fst (merge_graph_pos a b (g, p)) = Return tt.
Proof.
  intros Ha Hb Hab Hpa Hpb.
  unfold merge_graph_pos, nx_neighbors, pos_getitem, pos_delitem. cbn [fst snd].
  destruct (dict_In_get node_eq_dec g a Ha) as [na Ena]. unfold nx_adj. rewrite Ena.
  destruct (dict_In_get node_eq_dec g b Hb) as [nb Enb]. rewrite Enb.
  destruct (dict_In_get node_eq_dec p a Hpa) as [pa Epa]. rewrite Epa.
  destruct (dict_In_get node_eq_dec p b Hpb) as [pb Epb]. rewrite Epb.
  set (p1 := dict_set node_eq_dec p (joined a b) (midpoint pa pb)).
  assert (H1 : dict_mem node_eq_dec p1 a = true).
  { apply dict_mem_In. unfold p1. apply dict_keys_set_In. now right. }
  rewrite H1.
  assert (H2 : dict_mem node_eq_dec (dict_del node_eq_dec p1 a) b = true).
  { apply dict_mem_In, dict_keys_del_In. split; [congruence|].
    unfold p1. apply dict_keys_set_In. now right. }
  now rewrite H2.
Qed.

Lemma merge_graph_count g a b :
  nx_wf g -> ids_disjoint g -> In a (nx_nodes g) -> In b (nx_nodes g) -> a <> b ->
  S (nx_number_of_nodes (merge_graph g a b)) = nx_number_of_nodes g.
Proof.
  intros Hwf Hd Ha Hb Hab. unfold nx_number_of_nodes.
  rewrite (merge_graph_nodes g a b Hwf Ha Hb (joined_fresh g a b Hd Ha)).
  destruct Hwf as [Hnd _].
  rewrite length_app. simpl. rewrite Nat.add_1_r.
  rewrite <- (filter_out_length (nx_nodes g) a Hnd Ha). f_equal.
  apply filter_out_length.
  - now apply NoDup_filter.
  - apply filter_In. split; [assumption|]. destruct (node_eq_dec a b); [contradiction | reflexivity].
Qed.

Lemma merge_graph_weight g a b k :
  nx_wf g -> ids_disjoint g -> In a (nx_nodes g) -> In b (nx_nodes g) ->
  k <> a -> k <> b ->
  nx_edge (merge_graph g a b) (joined a b) k = merged_weight g a b k /\
  nx_edge (merge_graph g a b) k (joined a b) = merged_weight g a b k /\
  (weight_or_0 (merge_graph g a b) (joined a b) k
     == weight_or_0 g a k + weight_or_0 g b k)%Q /\
  (weight_or_0 (merge_graph g a b) k (joined a b)
     == weight_or_0 g a k + weight_or_0 g b k)%Q.
Proof.
  intros Hwf Hd Ha Hb Hka Hkb.
  pose proof (joined_fresh g a b Hd Ha) as Hnew.
  assert (E1 : nx_edge (merge_graph g a b) (joined a b) k = merged_weight g a b k).
  { rewrite (merge_graph_edge g a b Hwf Ha Hb Hnew).
    destruct (node_eq_dec (joined a b) (joined a b)); [reflexivity | congruence]. }
  assert (E2 : nx_edge (merge_graph g a b) k (joined a b) = merged_weight g a b k).
  { rewrite (merge_graph_edge g a b Hwf Ha Hb Hnew).
    destruct (node_eq_dec k (joined a b)) as [->|Hk]; [reflexivity|].
    destruct (node_eq_dec (joined a b) (joined a b)); [reflexivity | congruence]. }
  assert (E3 : (match merged_weight g a b k with Some q => q | None => 0 end
                == weight_or_0 g a k + weight_or_0 g b k)%Q).
  { unfold merged_weight. destruct (in_dec node_eq_dec k [a; b]) as [Hin|Hnin].
    - simpl in Hin. intuition congruence.
    - unfold weight_or_0 at 3 4. rewrite !nx_get_edge_data_edge.
      destruct (nx_edge g a k) as [qa|] eqn:Ea; destruct (nx_edge g b k) as [qb|] eqn:Eb;
        unfold weight_or_0; rewrite ?nx_get_edge_data_edge, ?Ea, ?Eb; reflexivity. }
  repeat split; try assumption.
  - unfold weight_or_0 at 1. rewrite nx_get_edge_data_edge, E1. exact E3.
  - unfold weight_or_0 at 1. rewrite nx_get_edge_data_edge, E2. exact E3.
Qed.

End MergeStep.

(** ** [merge_nodes] in the two scripts *)

Section GrafoMerge.

Context {set_order : SetIter string}.

Implicit Types (self : Grafo.DraggableGraph) (a b k : string).

Lemma grafo_merge_nodes_G self a b :
  Grafo.G (snd (Grafo.merge_nodes a b self)) = merge_graph (Grafo.G self) a b.
Proof.
  unfold Grafo.merge_nodes. cbn [snd Grafo.G Grafo.set_G_pos].
  rewrite merge_graph_pos_graph. reflexivity.
Qed.

Lemma grafo_merge_nodes_history self a b :
  Grafo.merged_nodes (snd (Grafo.merge_nodes a b self)) = Grafo.merged_nodes self ++ [a; b].
Proof.
  unfold Grafo.merge_nodes. cbn. now rewrite <- app_assoc.
Qed.

Lemma grafo_merge_nodes_frame self a b :
  let self' := snd (Grafo.merge_nodes a b self) in
  Grafo.original_G self' = Grafo.original_G self /\
  Grafo.original_pos self' = Grafo.original_pos self /\
  Grafo.shrinked_nodes self' = Grafo.shrinked_nodes self /\
  Grafo.initial_nodes self' = Grafo.initial_nodes self /\
  Grafo.merged_node self' = Grafo.merged_node self /\
  Grafo.last_merged_nodes self' = Grafo.last_merged_nodes self /\
  Grafo.selected_node self' = Grafo.selected_node self.
Proof. cbn. repeat split. Qed.

Lemma grafo_merge_nodes_outcome self a b :
  fst (Grafo.merge_nodes a b self)
  = fst (merge_graph_pos a b (Grafo.G self, Grafo.pos self)).
Proof. reflexivity. Qed.

Lemma grafo_merge_nodes_pos self a b :
  Grafo.pos (snd (Grafo.merge_nodes a b self))
  = snd (snd (merge_graph_pos a b (Grafo.G self, Grafo.pos self))).
Proof. reflexivity. Qed.

Lemma grafo_merge_each_count l self :
  nx_wf (Grafo.G self) -> ids_disjoint (Grafo.G self) ->
  fst (Grafo.merge_each l self) = Return tt ->
  nx_number_of_nodes (Grafo.G (snd (Grafo.merge_each l self))) + List.length l
  = nx_number_of_nodes (Grafo.G self).
Proof.
  revert self. induction l as [|[a b] l IH]; intros self Hwf Hd Hret.
  - simpl. lia.
  - unfold Grafo.merge_each in *. cbn [for_each fst snd] in *. unfold bind in *.
    destruct (Grafo.merge_nodes a b self) as [[[]|e] self'] eqn:E; [|discriminate].
    assert (Hout : fst (Grafo.merge_nodes a b self) = Return tt) by now rewrite E.
    rewrite grafo_merge_nodes_outcome in Hout.
    apply merge_graph_pos_Return in Hout. destruct Hout as [Ha [Hb Hab]].
    assert (HG : Grafo.G self' = merge_graph (Grafo.G self) a b).
    { rewrite <- grafo_merge_nodes_G. now rewrite E. }
    pose proof (merge_graph_count (Grafo.G self) a b Hwf Hd Ha Hb Hab) as Hc.
    rewrite <- HG in Hc.
    assert (Hwf' : nx_wf (Grafo.G self')).
    { rewrite HG. apply merge_graph_wf; assumption. }
    assert (Hd' : ids_disjoint (Grafo.G self')).
    { rewrite HG. now apply merge_graph_ids_disjoint. }
    specialize (IH self' Hwf' Hd' Hret). simpl. lia.
Qed.

End GrafoMerge.

Section Grafo1Merge.

Context {set_order : SetIter Grafo1.node}.

Implicit Types (self : Grafo1.DraggableGraph) (a b k : Grafo1.node).

Lemma grafo1_merge_nodes_G self a b :
  Grafo1.G (snd (Grafo1.merge_nodes a b self)) = merge_graph (Grafo1.G self) a b.
Proof.
  unfold Grafo1.merge_nodes. cbn [snd Grafo1.G Grafo1.set_G_pos].
  rewrite merge_graph_pos_graph. reflexivity.
Qed.

Lemma grafo1_merge_nodes_outcome self a b :
  fst (Grafo1.merge_nodes a b self)
  = fst (merge_graph_pos a b (Grafo1.G self, Grafo1.pos self)).
Proof. reflexivity. Qed.

Lemma grafo1_merge_each_count l self :
  nx_wf (Grafo1.G self) -> ids_disjoint (Grafo1.G self) ->
  fst (Grafo1.merge_each l self) = Return tt ->
  nx_number_of_nodes (Grafo1.G (snd (Grafo1.merge_each l self))) + List.length l
  = nx_number_of_nodes (Grafo1.G self).
Proof.
  revert self. induction l as [|[a b] l IH]; intros self Hwf Hd Hret.
  - simpl. lia.
  - unfold Grafo1.merge_each in *. cbn [for_each fst snd] in *. unfold bind in *.
    destruct (Grafo1.merge_nodes a b self) as [[[]|e] self'] eqn:E; [|discriminate].
    assert (Hout : fst (Grafo1.merge_nodes a b self) = Return tt) by now rewrite E.
    rewrite grafo1_merge_nodes_outcome in Hout.
    apply merge_graph_pos_Return in Hout. destruct Hout as [Ha [Hb Hab]].
    assert (HG : Grafo1.G self' = merge_graph (Grafo1.G self) a b).
    { rewrite <- grafo1_merge_nodes_G. now rewrite E. }
    pose proof (merge_graph_count (Grafo1.G self) a b Hwf Hd Ha Hb Hab) as Hc.
    rewrite <- HG in Hc.
    assert (Hwf' : nx_wf (Grafo1.G self')).
    { rewrite HG. apply merge_graph_wf; assumption. }
    assert (Hd' : ids_disjoint (Grafo1.G self')).
    { rewrite HG. now apply merge_graph_ids_disjoint. }
    specialize (IH self' Hwf' Hd' Hret). simpl. lia.
Qed.

End Grafo1Merge.

(** C1.  Weight conservation.  In both scripts, for a graph that satisfies
    the graph invariants, two different nodes [a] and [b] of it (with
    positions) and any other identifier [k], [merge_nodes(a, b)] returns and
    leaves, between the new node [f"{a},{b}"] and [k], the weight of edge
    [(a, k)] plus the weight of edge [(b, k)], a missing edge counting 0. *)
Theorem merge_conserves_weight :
  (forall (set_order : SetIter string) (self : Grafo.DraggableGraph) (a b k : string),
     nx_wf (Grafo.G self) -> ids_disjoint (Grafo.G self) ->
     In a (nx_nodes (Grafo.G self)) -> In b (nx_nodes (Grafo.G self)) -> a <> b ->
     In a (dict_keys (Grafo.pos self)) -> In b (dict_keys (Grafo.pos self)) ->
     k <> a -> k <> b ->
     fst (Grafo.merge_nodes a b self) = Return tt /\
     (weight_or_0 (Grafo.G (snd (Grafo.merge_nodes a b self))) (joined a b) k
        == weight_or_0 (Grafo.G self) a k + weight_or_0 (Grafo.G self) b k)%Q /\
     (weight_or_0 (Grafo.G (snd (Grafo.merge_nodes a b self))) k (joined a b)
        == weight_or_0 (Grafo.G self) a k + weight_or_0 (Grafo.G self) b k)%Q) /\
  (forall (set_order : SetIter Grafo1.node) (self : Grafo1.DraggableGraph)
          (a b k : Grafo1.node),
     nx_wf (Grafo1.G self) -> ids_disjoint (Grafo1.G self) ->
     In a (nx_nodes (Grafo1.G self)) -> In b (nx_nodes (Grafo1.G self)) -> a <> b ->
     In a (dict_keys (Grafo1.pos self)) -> In b (dict_keys (Grafo1.pos self)) ->
     k <> a -> k <> b ->
     fst (Grafo1.merge_nodes a b self) = Return tt /\
     (weight_or_0 (Grafo1.G (snd (Grafo1.merge_nodes a b self))) (joined a b) k
        == weight_or_0 (Grafo1.G self) a k + weight_or_0 (Grafo1.G self) b k)%Q /\
     (weight_or_0 (Grafo1.G (snd (Grafo1.merge_nodes a b self))) k (joined a b)
        == weight_or_0 (Grafo1.G self) a k + weight_or_0 (Grafo1.G self) b k)%Q).
Proof.
  split.
  - intros set_order self a b k Hwf Hd Ha Hb Hab Hpa Hpb Hka Hkb.
    split.
    + rewrite grafo_merge_nodes_outcome. now apply merge_graph_pos_succeeds.
    + rewrite grafo_merge_nodes_G.
      destruct (merge_graph_weight (Grafo.G self) a b k Hwf Hd Ha Hb Hka Hkb)
        as [_ [_ [H1 H2]]].
      split; assumption.
  - intros set_order self a b k Hwf Hd Ha Hb Hab Hpa Hpb Hka Hkb.
    split.
    + rewrite grafo1_merge_nodes_outcome. now apply merge_graph_pos_succeeds.
    + rewrite grafo1_merge_nodes_G.
      destruct (merge_graph_weight (Grafo1.G self) a b k Hwf Hd Ha Hb Hka Hkb)
        as [_ [_ [H1 H2]]].
      split; assumption.
Qed.

(** The 3-node example of the spec: merging "0" and "2" leaves weight
    1 + 2 between "0,2" and "1", in both scripts. *)
Lemma merge_conserves_weight_witness :
  (fst (Grafo.merge_nodes (set_order := first_seen) "0" "2" triangle_engine) = Return tt /\
   (weight_or_0
      (Grafo.G (snd (Grafo.merge_nodes (set_order := first_seen) "0" "2" triangle_engine)))
      "0,2"%string "1"%string == 1 + 2)%Q) /\
  (fst (Grafo1.merge_nodes (set_order := first_seen)
          (Grafo1.IntNode 0) (Grafo1.IntNode 2) triangle1_engine) = Return tt /\
   (weight_or_0
      (Grafo1.G (snd (Grafo1.merge_nodes (set_order := first_seen)
                        (Grafo1.IntNode 0) (Grafo1.IntNode 2) triangle1_engine)))
      (Grafo1.StrNode "0,2") (Grafo1.IntNode 1) == 1 + 2)%Q).
Proof.
  split.
  - pose proof (proj1 merge_conserves_weight first_seen triangle_engine
                  "0"%string "2"%string "1"%string) as Hw.
    destruct Hw as [Hr [Hw _]].
    + apply nx_wfb_sound. vm_compute. reflexivity.
    + apply ids_disjointb_sound. vm_compute. reflexivity.
    + simpl. tauto.
    + simpl. tauto.
    + discriminate.
    + simpl. tauto.
    + simpl. tauto.
    + discriminate.
    + discriminate.
    + split; [exact Hr | exact Hw].
  - pose proof (proj2 merge_conserves_weight first_seen triangle1_engine
                  (Grafo1.IntNode 0) (Grafo1.IntNode 2) (Grafo1.IntNode 1)) as Hw.
    destruct Hw as [Hr [Hw _]].
    + apply nx_wfb_sound. vm_compute. reflexivity.
    + apply ids_disjointb_sound. vm_compute. reflexivity.
    + simpl. tauto.
    + simpl. tauto.
    + discriminate.
    + simpl. tauto.
    + simpl. tauto.
    + discriminate.
    + discriminate.
    + split; [exact Hr | exact Hw].
Defined.

Lemma grafo_merge_nodes_missing (set_order : SetIter string)
    (self : Grafo.DraggableGraph) (a b : string) :
  nx_has_node (Grafo.G self) a = false \/ nx_has_node (Grafo.G self) b = false ->
  fst (Grafo.merge_nodes a b self) = Raise NetworkXError /\
  Grafo.G (snd (Grafo.merge_nodes a b self)) = Grafo.G self /\
  Grafo.pos (snd (Grafo.merge_nodes a b self)) = Grafo.pos self.
Proof.
  intros Hm. unfold Grafo.merge_nodes.
  cbn [fst snd Grafo.G Grafo.pos Grafo.set_G_pos Grafo.set_merged_nodes].
  rewrite (merge_graph_pos_missing a b (Grafo.G self) (Grafo.pos self) Hm).
  repeat split.
Qed.

(** C6.  A merge that names a node which is not in the graph fails with
    networkx's node-not-in-graph error (the spec's [InvalidNodeError]) and
    leaves the graph and the positions as they were: both [neighbors] calls
    come before the first removal. *)
Theorem merge_missing_node_fails :
  (forall (set_order : SetIter string) (self : Grafo.DraggableGraph) (a b : string),
     nx_has_node (Grafo.G self) a = false \/ nx_has_node (Grafo.G self) b = false ->
     fst (Grafo.merge_nodes a b self) = Raise NetworkXError /\
     Grafo.G (snd (Grafo.merge_nodes a b self)) = Grafo.G self /\
     Grafo.pos (snd (Grafo.merge_nodes a b self)) = Grafo.pos self) /\
  (forall (set_order : SetIter Grafo1.node) (self : Grafo1.DraggableGraph)
          (a b : Grafo1.node),
     nx_has_node (Grafo1.G self) a = false \/ nx_has_node (Grafo1.G self) b = false ->
     Grafo1.merge_nodes a b self = (Raise NetworkXError, self)).
Proof.
  split.
  - intros set_order self a b Hm. now apply grafo_merge_nodes_missing.
  - intros set_order self a b Hm. unfold Grafo1.merge_nodes.
    rewrite (merge_graph_pos_missing a b (Grafo1.G self) (Grafo1.pos self) Hm).
    destruct self. reflexivity.
Qed.

(** Merging "0" with the unknown "7" in the 3-node example. *)
Lemma merge_missing_node_fails_witness :
  (fst (Grafo.merge_nodes (set_order := first_seen) "0" "7" triangle_engine)
     = Raise NetworkXError /\
   Grafo.G (snd (Grafo.merge_nodes (set_order := first_seen) "0" "7" triangle_engine))
     = triangle) /\
  Grafo1.merge_nodes (set_order := first_seen)
     (Grafo1.IntNode 7) (Grafo1.IntNode 0) triangle1_engine
  = (Raise NetworkXError, triangle1_engine).
Proof.
  split.
  - destruct (proj1 merge_missing_node_fails first_seen triangle_engine
                "0"%string "7"%string) as [Hr [Hg _]].
    + right. reflexivity.
    + split; [exact Hr | exact Hg].
  - apply (proj2 merge_missing_node_fails first_seen triangle1_engine).
    left. reflexivity.
Defined.

(** C8.  In both scripts a merge of two different nodes of a graph that
    satisfies the graph invariants leaves exactly one node fewer, and a run
    of [n] merges that all return leaves [n] nodes fewer. *)
Theorem merge_reduces_node_count :
  (forall (set_order : SetIter string) (self : Grafo.DraggableGraph),
     nx_wf (Grafo.G self) -> ids_disjoint (Grafo.G self) ->
     (forall a b, In a (nx_nodes (Grafo.G self)) -> In b (nx_nodes (Grafo.G self)) ->
        a <> b ->
        S (nx_number_of_nodes (Grafo.G (snd (Grafo.merge_nodes a b self))))
        = nx_number_of_nodes (Grafo.G self)) /\
     (forall l, fst (Grafo.merge_each l self) = Return tt ->
        nx_number_of_nodes (Grafo.G (snd (Grafo.merge_each l self))) + List.length l
        = nx_number_of_nodes (Grafo.G self))) /\
  (forall (set_order : SetIter Grafo1.node) (self : Grafo1.DraggableGraph),
     nx_wf (Grafo1.G self) -> ids_disjoint (Grafo1.G self) ->
     (forall a b, In a (nx_nodes (Grafo1.G self)) -> In b (nx_nodes (Grafo1.G self)) ->
        a <> b ->
        S (nx_number_of_nodes (Grafo1.G (snd (Grafo1.merge_nodes a b self))))
        = nx_number_of_nodes (Grafo1.G self)) /\
     (forall l, fst (Grafo1.merge_each l self) = Return tt ->
        nx_number_of_nodes (Grafo1.G (snd (Grafo1.merge_each l self))) + List.length l
        = nx_number_of_nodes (Grafo1.G self))).
Proof.
  split.
  - intros set_order self Hwf Hd. split.
    + intros a b Ha Hb Hab. rewrite grafo_merge_nodes_G. now apply merge_graph_count.
    + intros l Hret. now apply grafo_merge_each_count.
  - intros set_order self Hwf Hd. split.
    + intros a b Ha Hb Hab. rewrite grafo1_merge_nodes_G. now apply merge_graph_count.
    + intros l Hret. now apply grafo1_merge_each_count.
Qed.

(** Two merges in the 3-node example leave one node, in both scripts. *)
Lemma merge_reduces_node_count_witness :
  (nx_number_of_nodes
     (Grafo.G (snd (Grafo.merge_each (set_order := first_seen)
                      [("0", "2"); ("0,2", "1")]%string triangle_engine))) + 2
   = 3) /\
  (nx_number_of_nodes
     (Grafo1.G (snd (Grafo1.merge_each (set_order := first_seen)
                       [(Grafo1.IntNode 0, Grafo1.IntNode 2);
                        (Grafo1.StrNode "0,2", Grafo1.IntNode 1)] triangle1_engine))) + 2
   = 3).
Proof.
  split.
  - destruct (proj1 merge_reduces_node_count first_seen triangle_engine) as [_ Hseq].
    + apply nx_wfb_sound. vm_compute. reflexivity.
    + apply ids_disjointb_sound. vm_compute. reflexivity.
    + apply (Hseq [("0", "2"); ("0,2", "1")]%string). vm_compute. reflexivity.
  - destruct (proj2 merge_reduces_node_count first_seen triangle1_engine) as [_ Hseq].
    + apply nx_wfb_sound. vm_compute. reflexivity.
    + apply ids_disjointb_sound. vm_compute. reflexivity.
    + apply (Hseq [(Grafo1.IntNode 0, Grafo1.IntNode 2);
                   (Grafo1.StrNode "0,2", Grafo1.IntNode 1)]).
      vm_compute. reflexivity.
Defined.

(** C10.  In grafo.py [merge_nodes] appends both identifiers to
    [merged_nodes] before anything else: the history is two entries longer
    after every call, also after one that raises because a node is not in
    the graph. *)
Theorem merge_nodes_appends_history_first :
  forall (set_order : SetIter string) (self : Grafo.DraggableGraph) (a b : string),
    Grafo.merged_nodes (snd (Grafo.merge_nodes a b self))
    = Grafo.merged_nodes self ++ [a; b] /\
    (nx_has_node (Grafo.G self) a = false \/ nx_has_node (Grafo.G self) b = false ->
     fst (Grafo.merge_nodes a b self) = Raise NetworkXError /\
     Grafo.G (snd (Grafo.merge_nodes a b self)) = Grafo.G self).
Proof.
  intros set_order self a b. split.
  - apply grafo_merge_nodes_history.
  - intros Hm.
    destruct (grafo_merge_nodes_missing set_order self a b Hm) as [Hr [Hg _]].
    split; assumption.
Qed.

(** A failing merge still lengthens the history: "0" with the unknown "7". *)
Lemma merge_nodes_appends_history_first_witness :
  Grafo.merged_nodes
    (snd (Grafo.merge_nodes (set_order := first_seen) "0" "7" triangle_engine))
  = ["0"; "7"]%string /\
  fst (Grafo.merge_nodes (set_order := first_seen) "0" "7" triangle_engine)
  = Raise NetworkXError.
Proof.
  destruct (merge_nodes_appends_history_first first_seen triangle_engine
              "0"%string "7"%string) as [Hh Hf].
  split; [exact Hh|]. apply Hf. right. reflexivity.
Defined.

(** ** The greedy step on an isolated anchor *)

(** C9.  In grafo.py, when [target] is a node without neighbours,
    [find_max_edge_node(target)] returns [None] and raises nothing, and
    [fuse_max_edge_to_merged], with such an anchor, returns with the whole
    engine state (graph, positions, history) as it was. *)
Theorem isolated_anchor_is_no_op :
  forall (set_order : SetIter string) (self : Grafo.DraggableGraph),
    (forall target,
        nx_neighbors (Grafo.G self) target = Return [] ->
        Grafo.find_max_edge_node target self = (Return None, self)) /\
    (nx_neighbors (Grafo.G self) (Grafo.merged_node self) = Return [] ->
     Grafo.fuse_max_edge_to_merged self = (Return tt, self)).
Proof.
  intros set_order self. split.
  - intros target Hn. unfold Grafo.find_max_edge_node, Grafo.find_max_edge_node_in.
    rewrite Hn. reflexivity.
  - intros Hn. unfold Grafo.fuse_max_edge_to_merged.
    destruct (negb (dict_mem string_dec (Grafo.pos self) (Grafo.merged_node self)));
      [reflexivity|].
    unfold bind, Grafo.find_max_edge_node, Grafo.find_max_edge_node_in.
    rewrite Hn. reflexivity.
Qed.

(** The anchor "0" of [lonely_engine] has a position and no neighbour. *)
Lemma isolated_anchor_is_no_op_witness :
  Grafo.find_max_edge_node "0" lonely_engine = (Return None, lonely_engine) /\
  Grafo.fuse_max_edge_to_merged (set_order := first_seen) lonely_engine
  = (Return tt, lonely_engine).
Proof.
  destruct (isolated_anchor_is_no_op first_seen lonely_engine) as [Hf Hs].
  split; [apply Hf | apply Hs]; reflexivity.
Defined.

(** ** [find_nodes] *)

Lemma count_fold_filter (l2 l : list string) (c : nat) :
  fold_left (fun count i => if in_dec string_dec i l2 then count + 1 else count) l c
  = c + List.length (filter (fun t => if in_dec string_dec t l2 then true else false) l).
Proof.
  revert c. induction l as [|x l IH]; intros c; simpl; [lia|].
  rewrite IH. destruct (in_dec string_dec x l2); simpl; lia.
Qed.

Lemma filter_length_all (p : string -> bool) (l : list string) :
  (List.length (filter p l) =? List.length l) = forallb p l.
Proof.
  induction l as [|x l IH]; simpl; [reflexivity|].
  destruct (p x); simpl; [exact IH|].
  pose proof (filter_length_le p l) as Hle.
  apply Nat.eqb_neq. lia.
Qed.

Lemma find_subset_all_in (l1 l2 : list string) :
  Grafo.find_subset l1 l2 = all_in l1 l2.
Proof.
  unfold Grafo.find_subset, all_in.
  rewrite <- filter_length_all.
  rewrite (count_fold_filter l2 l1 0). reflexivity.
Qed.

Lemma append_fold_filter (p : string -> bool) (l acc : list string) :
  fold_left (fun nodes n => if p n then nodes ++ [n] else nodes) l acc
  = acc ++ filter p l.
Proof.
  revert acc. induction l as [|x l IH]; intros acc; simpl.
  - now rewrite app_nil_r.
  - rewrite IH. destruct (p x); [|reflexivity].
    now rewrite <- app_assoc.
Qed.

Lemma all_in_spec (l1 l2 : list string) :
  all_in l1 l2 = true <-> forall t, In t l1 -> In t l2.
Proof.
  unfold all_in. rewrite forallb_forall. split.
  - intros Hall t Ht. specialize (Hall t Ht).
    destruct (in_dec string_dec t l2); [assumption | discriminate].
  - intros Hall t Ht. destruct (in_dec string_dec t l2) as [|Hn]; [reflexivity|].
    exfalso. apply Hn. now apply Hall.
Qed.

(** C5, as the code has it.  [find_nodes(labelA, labelB)] returns, in the
    order of [initial_nodes], exactly the entries [n] of [initial_nodes] such
    that every token of [labelA] occurs among the tokens of [n], or every
    token of [labelB] does: the label is included in the candidate, not the
    candidate in the label. *)
Theorem find_nodes_label_within_candidate :
  forall (self : Grafo.DraggableGraph) (labelA labelB : string),
    Grafo.find_nodes self labelA labelB
    = filter
        (fun n =>
           all_in (split_comma labelA) (split_comma n)
           || all_in (split_comma labelB) (split_comma n))
        (Grafo.initial_nodes self) /\
    (forall n,
        In n (Grafo.find_nodes self labelA labelB) <->
        In n (Grafo.initial_nodes self) /\
        ((forall t, In t (split_comma labelA) -> In t (split_comma n)) \/
         (forall t, In t (split_comma labelB) -> In t (split_comma n)))).
Proof.
  intros self labelA labelB.
  assert (E : Grafo.find_nodes self labelA labelB
     = filter
        (fun n =>
           all_in (split_comma labelA) (split_comma n)
           || all_in (split_comma labelB) (split_comma n))
        (Grafo.initial_nodes self)).
  { unfold Grafo.find_nodes.
    rewrite (append_fold_filter
               (fun n => Grafo.find_subset (split_comma labelA) (split_comma n)
                         || Grafo.find_subset (split_comma labelB) (split_comma n))).
    simpl. apply filter_ext. intros n. now rewrite !find_subset_all_in. }
  split; [exact E|].
  intros n. rewrite E, filter_In, orb_true_iff, !all_in_spec. reflexivity.
Qed.

(** With leaves "0", "1", "2" and the labels "0,2" and "1", the code returns
    only "1", while the identifiers whose tokens lie within a label are all
    three. *)
Lemma find_nodes_not_candidate_within_label :
  Grafo.find_nodes triangle_engine "0,2" "1" = ["1"]%string /\
  find_nodes_as_specified (Grafo.initial_nodes triangle_engine) "0,2" "1"
  = ["0"; "1"; "2"]%string /\
  Grafo.find_nodes triangle_engine "0,2" "1"
  <> find_nodes_as_specified (Grafo.initial_nodes triangle_engine) "0,2" "1".
Proof.
  repeat split; try reflexivity. vm_compute. discriminate.
Qed.

(** ** Rebuilding a graph from a snapshot *)

Lemma dict_In_pair_get {K A : Type} (dec : forall x y : K, {x = y} + {x <> y})
    (d : dict K A) (k : K) (a : A) :
  NoDup (dict_keys d) -> In (k, a) d -> dict_get dec d k = Some a.
Proof.
  induction d as [|[k' a'] d IH]; simpl; [tauto|].
  intros Hnd Hin. inversion Hnd as [|? ? Hk Hnd']; subst.
  destruct Hin as [[= -> ->]|Hin].
  - destruct (dec k k); congruence.
  - destruct (dec k k') as [->|Hne]; [|auto].
    exfalso. apply Hk. change (In (fst (k', a)) (map fst d)). now apply in_map.
Qed.

Section RebuildFacts.

Context {V : Type} `{NodeId V}.

Implicit Types (g o : graph V) (u v x y : V) (w q : Q).

Lemma nx_nodes_add_nodes_from l g :
  NoDup (nx_nodes g ++ l) -> nx_nodes (nx_add_nodes_from g l) = nx_nodes g ++ l.
Proof.
  unfold nx_add_nodes_from. revert g.
  induction l as [|n l IH]; intros g Hnd; simpl.
  - now rewrite app_nil_r.
  - assert (Hn : nx_has_node g n = false).
    { apply nx_has_node_false. intros Hin.
      apply NoDup_remove_2 in Hnd. apply Hnd. apply in_or_app. now left. }
    rewrite IH; rewrite nx_nodes_add_node, Hn, <- app_assoc; [reflexivity | exact Hnd].
Qed.

Lemma nx_edge_add_nodes_from l g x y :
  nx_edge (nx_add_nodes_from g l) x y = nx_edge g x y.
Proof.
  unfold nx_add_nodes_from. revert g.
  induction l as [|n l IH]; intros g; simpl; [reflexivity|].
  now rewrite IH, nx_edge_add_node.
Qed.

Lemma nx_nodes_add_edges_from (es : list (V * V * Q)) g :
  (forall e, In e es -> In (fst (fst e)) (nx_nodes g) /\ In (snd (fst e)) (nx_nodes g)) ->
  nx_nodes (nx_add_edges_from g es) = nx_nodes g.
Proof.
  unfold nx_add_edges_from. revert g.
  induction es as [|e es IH]; intros g Hes; simpl; [reflexivity|].
  destruct (Hes e (or_introl eq_refl)) as [Hu Hv].
  rewrite IH.
  - now apply nx_nodes_add_edge_old.
  - intros e' He'. rewrite nx_nodes_add_edge_old by assumption. apply Hes. now right.
Qed.

(** Whatever [add_edges_from] stores was in the list or in the graph. *)
Lemma nx_add_edges_from_sound o (es : list (V * V * Q)) g :
  (forall u v w, nx_edge o u v = Some w -> nx_edge o v u = Some w) ->
  (forall e, In e es -> nx_edge o (fst (fst e)) (snd (fst e)) = Some (snd e)) ->
  (forall x y q, nx_edge g x y = Some q -> nx_edge o x y = Some q) ->
  forall x y q, nx_edge (nx_add_edges_from g es) x y = Some q -> nx_edge o x y = Some q.
Proof.
  intros Hs. unfold nx_add_edges_from. revert g.
  induction es as [|[[u v] w] es IH]; intros g Hes Hg x y q; simpl; [apply Hg|].
  apply IH.
  - intros e He. apply Hes. now right.
  - intros x' y' q'. rewrite nx_edge_add_edge.
    pose proof (Hes (u, v, w) (or_introl eq_refl)) as Huv. cbn [fst snd] in Huv.
    destruct (node_eq_dec x' u) as [Exu|Nxu]; destruct (node_eq_dec y' v) as [Eyv|Nyv];
      destruct (node_eq_dec x' v) as [Exv|Nxv]; destruct (node_eq_dec y' u) as [Eyu|Nyu];
      intros Hq; try (apply Hg; exact Hq);
      injection Hq as <-; subst;
      first [exact Huv | apply Hs; exact Huv].
Qed.

Lemma nx_add_edges_from_keeps (es : list (V * V * Q)) g x y :
  nx_edge g x y <> None -> nx_edge (nx_add_edges_from g es) x y <> None.
Proof.
  unfold nx_add_edges_from. revert g.
  induction es as [|[[u v] w] es IH]; intros g Hg; simpl; [assumption|].
  apply IH. rewrite nx_edge_add_edge.
  repeat (match goal with
          | |- context [node_eq_dec ?a ?b] => destruct (node_eq_dec a b)
          end);
    try discriminate; assumption.
Qed.

Lemma nx_add_edges_from_complete (es : list (V * V * Q)) g u v w :
  In (u, v, w) es ->
  nx_edge (nx_add_edges_from g es) u v <> None /\
  nx_edge (nx_add_edges_from g es) v u <> None.
Proof.
  revert g. induction es as [|e es IH]; intros g Hin; [contradiction|].
  destruct Hin as [->|Hin].
  - unfold nx_add_edges_from. simpl.
    split; apply (nx_add_edges_from_keeps es); rewrite nx_edge_add_edge;
      repeat (match goal with
              | |- context [node_eq_dec ?a ?b] => destruct (node_eq_dec a b)
              end);
      try discriminate; congruence.
  - apply (IH (nx_add_edge g (fst (fst e)) (snd (fst e)) (snd e)) Hin).
Qed.

Lemma nx_edges_seen_sound (adj : graph V) seen u v w :
  In (u, v, w) (nx_edges_seen adj seen) ->
  exists nbrs, In (u, nbrs) adj /\ In (v, w) nbrs.
Proof.
  revert seen. induction adj as [|[n nbrs] adj IH]; intros seen; simpl; [tauto|].
  rewrite in_app_iff, in_map_iff. intros [[[v' w'] [[= -> -> ->] Hf]]|Hin].
  - apply filter_In in Hf. exists nbrs. split; [now left | tauto].
  - destruct (IH _ Hin) as [nb [H1 H2]]. exists nb. split; [now right | assumption].
Qed.

Lemma nx_edges_seen_complete (adj : graph V) seen u v w nbu nbv :
  NoDup (dict_keys adj) ->
  In (u, nbu) adj -> In (v, nbv) adj -> In (v, w) nbu -> In (u, w) nbv ->
  ~ In u seen -> ~ In v seen ->
  In (u, v, w) (nx_edges_seen adj seen) \/ In (v, u, w) (nx_edges_seen adj seen).
Proof.
  revert seen. induction adj as [|[n nbrs] adj IH]; intros seen Hnd Hu Hv Huv Hvu Hsu Hsv;
    [contradiction|].
  simpl. rewrite !in_app_iff, !in_map_iff.
  simpl in Hnd. inversion Hnd as [|? ? Hn Hnd']; subst.
  destruct Hu as [[= -> ->]|Hu].
  - left. left. exists (v, w). split; [reflexivity|].
    apply filter_In. split; [assumption|]. cbn [fst].
    destruct (in_dec node_eq_dec v seen); [contradiction | reflexivity].
  - destruct Hv as [[= -> ->]|Hv].
    + right. left. exists (u, w). split; [reflexivity|].
      apply filter_In. split; [assumption|]. cbn [fst].
      destruct (in_dec node_eq_dec u seen); [contradiction | reflexivity].
    + assert (Hun : u <> n).
      { intros ->. apply Hn. change (In (fst (n, nbu)) (map fst adj)). now apply in_map. }
      assert (Hvn : v <> n).
      { intros ->. apply Hn. change (In (fst (n, nbv)) (map fst adj)). now apply in_map. }
      destruct (IH (n :: seen) Hnd' Hu Hv Huv Hvu) as [Hl|Hr].
      * simpl. intuition congruence.
      * simpl. intuition congruence.
      * left. now right.
      * right. now right.
Qed.

Lemma nx_rebuild_same o :
  nx_wf o ->
  nx_nodes (nx_rebuild o) = nx_nodes o /\
  forall u v, nx_edge (nx_rebuild o) u v = nx_edge o u v.
Proof.
  intros Hwf. pose proof Hwf as Hwf'. apply nx_wf_edge in Hwf'.
  destruct Hwf' as [Hnd [Hk Hs]].
  assert (Hsound : forall e, In e (nx_edges o) ->
            nx_edge o (fst (fst e)) (snd (fst e)) = Some (snd e)).
  { intros [[u v] w] Hin. cbn [fst snd]. apply nx_edges_seen_sound in Hin.
    destruct Hin as [nb [Hu Hv]]. unfold nx_edge, nx_adj.
    rewrite (dict_In_pair_get node_eq_dec o u nb Hnd Hu).
    apply dict_In_pair_get; [now apply (Hk u), dict_In_pair_get | assumption]. }
  unfold nx_rebuild. split.
  - rewrite nx_nodes_add_edges_from.
    + now rewrite nx_nodes_add_nodes_from.
    + intros e He. rewrite nx_nodes_add_nodes_from by assumption. simpl.
      pose proof (Hsound e He) as He'. split.
      * eapply nx_edge_In; eauto.
      * apply Hs in He'. eapply nx_edge_In; eauto.
  - intros u v.
    set (g0 := nx_add_nodes_from [] (nx_nodes o)).
    assert (Hg0 : forall x y q, nx_edge g0 x y = Some q -> nx_edge o x y = Some q).
    { intros x y q. unfold g0. rewrite nx_edge_add_nodes_from. discriminate. }
    pose proof (nx_add_edges_from_sound o (nx_edges o) g0 Hs Hsound Hg0) as Hsnd.
    destruct (nx_edge o u v) as [w|] eqn:Eo.
    + assert (Hdef : nx_edge (nx_add_edges_from g0 (nx_edges o)) u v <> None).
      { pose proof Eo as Eo'. apply Hs in Eo'.
        unfold nx_edge, nx_adj in Eo, Eo'.
        destruct (dict_get node_eq_dec o u) as [nbu|] eqn:Eu; [|discriminate].
        destruct (dict_get node_eq_dec o v) as [nbv|] eqn:Ev; [|discriminate].
        apply dict_get_In_pair in Eu, Ev, Eo, Eo'.
        destruct (nx_edges_seen_complete o [] u v w nbu nbv Hnd Eu Ev Eo Eo') as [Hin|Hin];
          try (simpl; tauto).
        - apply (nx_add_edges_from_complete _ g0) in Hin. tauto.
        - apply (nx_add_edges_from_complete _ g0) in Hin. tauto. }
      destruct (nx_edge (nx_add_edges_from g0 (nx_edges o)) u v) as [q|] eqn:Er;
        [|congruence].
      apply Hsnd in Er. congruence.
    + destruct (nx_edge (nx_add_edges_from g0 (nx_edges o)) u v) as [q|] eqn:Er;
        [|reflexivity].
      apply Hsnd in Er. congruence.
Qed.

Lemma nx_rebuild_wf o : nx_wf (nx_rebuild o).
Proof.
  unfold nx_rebuild. apply nx_add_edges_from_wf, nx_add_nodes_from_wf, nx_wf_nil.
Qed.

End RebuildFacts.

(** ** Reset *)

Section GrafoReset.

Context {set_order : SetIter string}.

Implicit Types (self : Grafo.DraggableGraph) (a b : string).

Lemma grafo_merge_nodes_agree (s1 s2 : Grafo.DraggableGraph) a b :
  Grafo.G s1 = Grafo.G s2 -> Grafo.pos s1 = Grafo.pos s2 ->
  Grafo.merged_nodes s1 = Grafo.merged_nodes s2 ->
  fst (Grafo.merge_nodes a b s1) = fst (Grafo.merge_nodes a b s2) /\
  Grafo.G (snd (Grafo.merge_nodes a b s1)) = Grafo.G (snd (Grafo.merge_nodes a b s2)) /\
  Grafo.pos (snd (Grafo.merge_nodes a b s1)) = Grafo.pos (snd (Grafo.merge_nodes a b s2)) /\
  Grafo.merged_nodes (snd (Grafo.merge_nodes a b s1))
  = Grafo.merged_nodes (snd (Grafo.merge_nodes a b s2)).
Proof.
  intros HG Hp Hm. unfold Grafo.merge_nodes. cbn. rewrite HG, Hp, Hm. repeat split.
Qed.

Lemma grafo_merge_each_cons a b l self :
  Grafo.merge_each ((a, b) :: l) self
  = match Grafo.merge_nodes a b self with
    | (Return _, self') => Grafo.merge_each l self'
    | (Raise e, self') => (Raise e, self')
    end.
Proof. reflexivity. Qed.

Lemma grafo_merge_each_agree l (s1 s2 : Grafo.DraggableGraph) :
  Grafo.G s1 = Grafo.G s2 -> Grafo.pos s1 = Grafo.pos s2 ->
  Grafo.merged_nodes s1 = Grafo.merged_nodes s2 ->
  fst (Grafo.merge_each l s1) = fst (Grafo.merge_each l s2) /\
  Grafo.G (snd (Grafo.merge_each l s1)) = Grafo.G (snd (Grafo.merge_each l s2)) /\
  Grafo.pos (snd (Grafo.merge_each l s1)) = Grafo.pos (snd (Grafo.merge_each l s2)) /\
  Grafo.merged_nodes (snd (Grafo.merge_each l s1))
  = Grafo.merged_nodes (snd (Grafo.merge_each l s2)).
Proof.
  revert s1 s2. induction l as [|[a b] l IH]; intros s1 s2 HG Hp Hm.
  - cbn. repeat split; assumption.
  - rewrite !grafo_merge_each_cons.
    destruct (grafo_merge_nodes_agree s1 s2 a b HG Hp Hm) as [Ho [HG' [Hp' Hm']]].
    destruct (Grafo.merge_nodes a b s1) as [[[]|e1] t1];
      destruct (Grafo.merge_nodes a b s2) as [[[]|e2] t2];
      cbn [fst snd] in *; try discriminate.
    + now apply IH.
    + repeat split; assumption.
Qed.

Lemma grafo_merge_each_frame l self :
  let self' := snd (Grafo.merge_each l self) in
  Grafo.original_G self' = Grafo.original_G self /\
  Grafo.original_pos self' = Grafo.original_pos self /\
  Grafo.shrinked_nodes self' = Grafo.shrinked_nodes self /\
  Grafo.initial_nodes self' = Grafo.initial_nodes self /\
  Grafo.merged_node self' = Grafo.merged_node self.
Proof.
  revert self. induction l as [|[a b] l IH]; intros self.
  - cbn. repeat split.
  - cbn zeta. rewrite grafo_merge_each_cons.
    pose proof (grafo_merge_nodes_frame self a b) as Hf. cbn zeta in Hf.
    destruct (Grafo.merge_nodes a b self) as [[[]|e] t]; cbn [snd] in *.
    + specialize (IH t). cbn zeta in IH. intuition congruence.
    + intuition congruence.
Qed.

Lemma grafo_merge_each_Return l self :
  fst (Grafo.merge_each l self) = Return tt ->
  Grafo.G (snd (Grafo.merge_each l self))
  = fold_left (fun g p => merge_graph g (fst p) (snd p)) l (Grafo.G self) /\
  Grafo.merged_nodes (snd (Grafo.merge_each l self))
  = Grafo.merged_nodes self ++ flat_map (fun p => [fst p; snd p]) l.
Proof.
  revert self. induction l as [|[a b] l IH]; intros self.
  - cbn. intros _. now rewrite app_nil_r.
  - rewrite grafo_merge_each_cons.
    pose proof (grafo_merge_nodes_G self a b) as HG.
    pose proof (grafo_merge_nodes_history self a b) as Hh.
    destruct (Grafo.merge_nodes a b self) as [[[]|e] t]; cbn [fst snd] in *;
      [|discriminate].
    intros Hr. destruct (IH t Hr) as [IHG IHh]. cbn [fold_left flat_map fst snd].
    rewrite IHG, IHh, HG, Hh, <- app_assoc. split; reflexivity.
Qed.

Lemma grafo_reset_graph_unfold self :
  Grafo.reset_graph self
  = match Grafo.merge_each (Grafo.shrinked_nodes self)
            (Grafo.set_merged_nodes
               (Grafo.set_merged_node
                  (Grafo.set_G_pos self (nx_rebuild (Grafo.original_G self))
                     (Grafo.original_pos self)) "0") []) with
    | (Return _, s) => (Return tt, Grafo.set_initial_nodes s (nx_nodes (Grafo.G s)))
    | (Raise e, s) => (Raise e, s)
    end.
Proof. reflexivity. Qed.

Lemma grafo_reset_graph_agree (s1 s2 : Grafo.DraggableGraph) :
  Grafo.original_G s1 = Grafo.original_G s2 ->
  Grafo.original_pos s1 = Grafo.original_pos s2 ->
  Grafo.shrinked_nodes s1 = Grafo.shrinked_nodes s2 ->
  Grafo.initial_nodes s1 = Grafo.initial_nodes s2 ->
  fst (Grafo.reset_graph s1) = fst (Grafo.reset_graph s2) /\
  Grafo.G (snd (Grafo.reset_graph s1)) = Grafo.G (snd (Grafo.reset_graph s2)) /\
  Grafo.pos (snd (Grafo.reset_graph s1)) = Grafo.pos (snd (Grafo.reset_graph s2)) /\
  Grafo.merged_nodes (snd (Grafo.reset_graph s1))
  = Grafo.merged_nodes (snd (Grafo.reset_graph s2)) /\
  Grafo.initial_nodes (snd (Grafo.reset_graph s1))
  = Grafo.initial_nodes (snd (Grafo.reset_graph s2)).
Proof.
  intros Ho Hp Hs Hi. rewrite !grafo_reset_graph_unfold. rewrite Hs.
  set (b1 := Grafo.set_merged_nodes _ _).
  set (b2 := Grafo.set_merged_nodes (Grafo.set_merged_node (Grafo.set_G_pos s2 _ _) _) _).
  assert (HG : Grafo.G b1 = Grafo.G b2) by (cbn; now rewrite Ho).
  assert (HP : Grafo.pos b1 = Grafo.pos b2) by (cbn; now rewrite Hp).
  assert (HM : Grafo.merged_nodes b1 = Grafo.merged_nodes b2) by reflexivity.
  destruct (grafo_merge_each_agree (Grafo.shrinked_nodes s2) b1 b2 HG HP HM)
    as [Eo [EG [EP EM]]].
  pose proof (grafo_merge_each_frame (Grafo.shrinked_nodes s2) b1) as F1.
  pose proof (grafo_merge_each_frame (Grafo.shrinked_nodes s2) b2) as F2.
  cbn zeta in F1, F2.
  destruct (Grafo.merge_each (Grafo.shrinked_nodes s2) b1) as [[[]|e1] t1];
    destruct (Grafo.merge_each (Grafo.shrinked_nodes s2) b2) as [[[]|e2] t2];
    cbn [fst snd] in *; try discriminate.
  - cbn. rewrite EG. repeat split; assumption.
  - repeat split; try assumption.
    destruct F1 as [_ [_ [_ [F1 _]]]]. destruct F2 as [_ [_ [_ [F2 _]]]].
    rewrite F1, F2. exact Hi.
Qed.

Lemma grafo_reset_graph_result self :
  let r := Grafo.reset_graph self in
  Grafo.merged_node (snd r) = "0"%string /\
  Grafo.shrinked_nodes (snd r) = Grafo.shrinked_nodes self /\
  Grafo.original_G (snd r) = Grafo.original_G self /\
  Grafo.original_pos (snd r) = Grafo.original_pos self /\
  (fst r = Return tt ->
   Grafo.G (snd r)
   = fold_left (fun g p => merge_graph g (fst p) (snd p)) (Grafo.shrinked_nodes self)
       (nx_rebuild (Grafo.original_G self)) /\
   Grafo.merged_nodes (snd r)
   = flat_map (fun p => [fst p; snd p]) (Grafo.shrinked_nodes self) /\
   Grafo.initial_nodes (snd r) = nx_nodes (Grafo.G (snd r))).
Proof.
  cbn zeta. rewrite grafo_reset_graph_unfold.
  set (b := Grafo.set_merged_nodes _ _).
  pose proof (grafo_merge_each_frame (Grafo.shrinked_nodes self) b) as F.
  pose proof (grafo_merge_each_Return (Grafo.shrinked_nodes self) b) as R.
  cbn zeta in F.
  destruct (Grafo.merge_each (Grafo.shrinked_nodes self) b) as [[[]|e] t];
    cbn [fst snd] in *.
  - destruct F as [F1 [F2 [F3 [F4 F5]]]].
    split; [exact F5|]. split; [exact F3|]. split; [exact F1|]. split; [exact F2|].
    intros _. destruct (R eq_refl) as [RG RM].
    split; [exact RG|]. split; [exact RM | reflexivity].
  - destruct F as [F1 [F2 [F3 [F4 F5]]]].
    split; [exact F5|]. split; [exact F3|]. split; [exact F1|]. split; [exact F2|].
    discriminate.
Qed.

Lemma grafo_perform_frame act self :
  let self' := snd (Grafo.perform act self) in
  Grafo.original_G self' = Grafo.original_G self /\
  Grafo.original_pos self' = Grafo.original_pos self /\
  Grafo.shrinked_nodes self' = Grafo.shrinked_nodes self /\
  Grafo.initial_nodes self' = Grafo.initial_nodes self.
Proof.
  destruct act as [a b|]; cbn zeta.
  - unfold Grafo.perform, Grafo.drag_merge, bind.
    pose proof (grafo_merge_nodes_frame self a b) as Hf. cbn zeta in Hf.
    destruct (Grafo.merge_nodes a b self) as [[[]|e] t]; cbn [snd] in *;
      cbn; intuition congruence.
  - unfold Grafo.perform, Grafo.fuse_max_edge_to_merged.
    destruct (negb (dict_mem string_dec (Grafo.pos self) (Grafo.merged_node self)));
      [cbn; repeat split|].
    unfold bind, Grafo.find_max_edge_node.
    destruct (Grafo.find_max_edge_node_in (Grafo.G self) (Grafo.merged_node self))
      as [[n|]|e]; cbn [snd]; try (repeat split; reflexivity).
    pose proof (grafo_merge_nodes_frame self (Grafo.merged_node self) n) as Hf.
    cbn zeta in Hf.
    destruct (Grafo.merge_nodes (Grafo.merged_node self) n self) as [[[]|e] t];
      cbn [snd] in *; cbn; intuition congruence.
Qed.

Lemma grafo_perform_all_frame acts self :
  let self' := Grafo.perform_all acts self in
  Grafo.original_G self' = Grafo.original_G self /\
  Grafo.original_pos self' = Grafo.original_pos self /\
  Grafo.shrinked_nodes self' = Grafo.shrinked_nodes self /\
  Grafo.initial_nodes self' = Grafo.initial_nodes self.
Proof.
  revert self. induction acts as [|act acts IH]; intros self; cbn zeta.
  - cbn. repeat split.
  - cbn [Grafo.perform_all].
    pose proof (grafo_perform_frame act self) as Hf. cbn zeta in Hf.
    specialize (IH (snd (Grafo.perform act self))). cbn zeta in IH.
    intuition congruence.
Qed.

End GrafoReset.

Section Grafo1Reset.

Context {set_order : SetIter Grafo1.node}.

Lemma grafo1_perform_frame act (self : Grafo1.DraggableGraph) :
  Grafo1.original_G (snd (Grafo1.perform act self)) = Grafo1.original_G self /\
  Grafo1.original_pos (snd (Grafo1.perform act self)) = Grafo1.original_pos self.
Proof.
  destruct act as [a b|].
  - cbn. split; reflexivity.
  - unfold Grafo1.perform, Grafo1.fuse_max_edge_to_merged.
    destruct (negb (dict_mem Grafo1.node_dec (Grafo1.pos self) (Grafo1.merged_node self)));
      [split; reflexivity|].
    unfold bind, Grafo1.find_max_edge_node.
    destruct (Grafo1.find_max_edge_node_in (Grafo1.G self) (Grafo1.merged_node self))
      as [[n|]|e]; cbn [snd]; try (split; reflexivity).
    unfold Grafo1.merge_nodes.
    destruct (merge_graph_pos (Grafo1.merged_node self) n (Grafo1.G self, Grafo1.pos self))
      as [[[]|e] t]; cbn; split; reflexivity.
Qed.

Lemma grafo1_perform_all_frame acts (self : Grafo1.DraggableGraph) :
  Grafo1.original_G (Grafo1.perform_all acts self) = Grafo1.original_G self /\
  Grafo1.original_pos (Grafo1.perform_all acts self) = Grafo1.original_pos self.
Proof.
  revert self. induction acts as [|act acts IH]; intros self.
  - split; reflexivity.
  - cbn [Grafo1.perform_all].
    destruct (grafo1_perform_frame act self) as [H1 H2].
    destruct (IH (snd (Grafo1.perform act self))) as [H3 H4].
    split; congruence.
Qed.

End Grafo1Reset.

(** C3.  Reset fidelity.  In grafo.py, after any sequence of drag merges and
    greedy steps, [reset_graph] does what it does on the engine before that
    sequence: same outcome, graph, positions, history and leaf list.  The
    anchor is "0" again and the checkpoints are kept; when the replay
    returns, the graph is the rebuilt snapshot with the checkpoints merged in
    recorded order, and the history holds the replayed pairs and nothing of
    what was recorded before.  The rebuilt snapshot has the nodes and the
    edge weights of the snapshot.  In grafo1.py, which has no checkpoints,
    the graph is the rebuilt snapshot, the positions are the snapshot's and
    the anchor is the integer 0. *)
Theorem reset_restores_snapshot_and_replays :
  (forall (set_order : SetIter string) (self : Grafo.DraggableGraph)
          (acts : list Grafo.action),
     (fst (Grafo.reset_graph (Grafo.perform_all acts self)) = fst (Grafo.reset_graph self) /\
      Grafo.G (snd (Grafo.reset_graph (Grafo.perform_all acts self)))
      = Grafo.G (snd (Grafo.reset_graph self)) /\
      Grafo.pos (snd (Grafo.reset_graph (Grafo.perform_all acts self)))
      = Grafo.pos (snd (Grafo.reset_graph self)) /\
      Grafo.merged_nodes (snd (Grafo.reset_graph (Grafo.perform_all acts self)))
      = Grafo.merged_nodes (snd (Grafo.reset_graph self)) /\
      Grafo.initial_nodes (snd (Grafo.reset_graph (Grafo.perform_all acts self)))
      = Grafo.initial_nodes (snd (Grafo.reset_graph self))) /\
     Grafo.merged_node (snd (Grafo.reset_graph (Grafo.perform_all acts self))) = "0"%string /\
     Grafo.shrinked_nodes (snd (Grafo.reset_graph (Grafo.perform_all acts self)))
     = Grafo.shrinked_nodes self /\
     (fst (Grafo.reset_graph (Grafo.perform_all acts self)) = Return tt ->
      Grafo.G (snd (Grafo.reset_graph (Grafo.perform_all acts self)))
      = fold_left (fun g p => merge_graph g (fst p) (snd p)) (Grafo.shrinked_nodes self)
          (nx_rebuild (Grafo.original_G self)) /\
      Grafo.merged_nodes (snd (Grafo.reset_graph (Grafo.perform_all acts self)))
      = flat_map (fun p => [fst p; snd p]) (Grafo.shrinked_nodes self)) /\
     (nx_wf (Grafo.original_G self) ->
      nx_nodes (nx_rebuild (Grafo.original_G self)) = nx_nodes (Grafo.original_G self) /\
      forall u v,
        nx_edge (nx_rebuild (Grafo.original_G self)) u v
        = nx_edge (Grafo.original_G self) u v)) /\
  (forall (set_order : SetIter Grafo1.node) (self : Grafo1.DraggableGraph)
          (acts : list Grafo1.action),
     fst (Grafo1.reset_graph (Grafo1.perform_all acts self)) = Return tt /\
     Grafo1.G (snd (Grafo1.reset_graph (Grafo1.perform_all acts self)))
     = nx_rebuild (Grafo1.original_G self) /\
     Grafo1.pos (snd (Grafo1.reset_graph (Grafo1.perform_all acts self)))
     = Grafo1.original_pos self /\
     Grafo1.merged_node (snd (Grafo1.reset_graph (Grafo1.perform_all acts self)))
     = Grafo1.IntNode 0 /\
     (nx_wf (Grafo1.original_G self) ->
      nx_nodes (nx_rebuild (Grafo1.original_G self)) = nx_nodes (Grafo1.original_G self) /\
      forall u v,
        nx_edge (nx_rebuild (Grafo1.original_G self)) u v
        = nx_edge (Grafo1.original_G self) u v)).
Proof.
  split.
  - intros set_order self acts.
    pose proof (grafo_perform_all_frame acts self) as F. cbn zeta in F.
    destruct F as [F1 [F2 [F3 F4]]].
    pose proof (grafo_reset_graph_result (Grafo.perform_all acts self)) as R.
    cbn zeta in R. destruct R as [R1 [R2 [_ [_ R5]]]].
    split; [now apply grafo_reset_graph_agree|].
    split; [exact R1|]. split; [now rewrite R2|]. split.
    + intros Hret. destruct (R5 Hret) as [RG [RM _]].
      rewrite F1, F3 in RG. rewrite F3 in RM. split; assumption.
    + apply nx_rebuild_same.
  - intros set_order self acts.
    destruct (grafo1_perform_all_frame acts self) as [F1 F2].
    unfold Grafo1.reset_graph. cbn. rewrite F1, F2.
    repeat split. all: now apply nx_rebuild_same.
Qed.

(** The 3-node engine with the checkpoint ("1", "2"): a greedy step and a
    drag merge are forgotten by the reset, which leaves the nodes "0" and
    "1,2" joined by an edge of weight 1 + 5. *)
Lemma reset_restores_snapshot_and_replays_witness :
  Grafo.G (snd (Grafo.reset_graph (set_order := first_seen)
                  (Grafo.perform_all (set_order := first_seen)
                     [Grafo.GreedyStep; Grafo.DragMerge "0,2" "1"] checkpointed_engine)))
  = fold_left (fun g p => merge_graph (set_order := first_seen) g (fst p) (snd p))
      [("1", "2")]%string (nx_rebuild triangle) /\
  Grafo.merged_nodes
    (snd (Grafo.reset_graph (set_order := first_seen)
            (Grafo.perform_all (set_order := first_seen)
               [Grafo.GreedyStep; Grafo.DragMerge "0,2" "1"] checkpointed_engine)))
  = ["1"; "2"]%string /\
  nx_nodes (nx_rebuild triangle) = ["0"; "1"; "2"]%string.
Proof.
  destruct (proj1 reset_restores_snapshot_and_replays first_seen checkpointed_engine
              [Grafo.GreedyStep; Grafo.DragMerge "0,2" "1"])
    as [_ [_ [_ [Hret Hwf]]]].
  destruct Hret as [HG HM]; [vm_compute; reflexivity|].
  destruct Hwf as [Hn _]; [apply nx_wfb_sound; vm_compute; reflexivity|].
  split; [exact HG|]. split; [exact HM | exact Hn].
Defined.

(** ** The strongest neighbour *)

Lemma dict_get_perm {K A : Type} (dec : forall x y : K, {x = y} + {x <> y})
    (d d' : dict K A) (k : K) :
  NoDup (dict_keys d) -> Permutation d d' -> dict_get dec d k = dict_get dec d' k.
Proof.
  intros Hnd Hp.
  assert (Hnd' : NoDup (dict_keys d')).
  { eapply Permutation_NoDup; [|exact Hnd]. now apply Permutation_map. }
  destruct (dict_get dec d k) as [a|] eqn:E.
  - apply dict_get_In_pair in E. symmetry. apply dict_In_pair_get; [assumption|].
    eapply Permutation_in; eauto.
  - destruct (dict_get dec d' k) as [a'|] eqn:E'; [|reflexivity].
    apply dict_get_In_pair in E'.
    apply (Permutation_in _ (Permutation_sym Hp)) in E'.
    apply (dict_In_pair_get dec) in E'; [congruence | assumption].
Qed.

Lemma smallest_fold_least (l : list string) (init z : Z) :
  fold_outcome
    (fun small i => obind (py_int i) (fun v => Return (if (v <? small)%Z then v else small)))
    l init = Return z ->
  (z <= init)%Z /\
  (forall t v, In t l -> py_int t = Return v -> (z <= v)%Z) /\
  (z = init \/ exists t, In t l /\ py_int t = Return z).
Proof.
  revert init. induction l as [|t0 l IH]; intros init; cbn [fold_outcome].
  - intros [= <-]. split; [apply Z.le_refl|]. split; [intros t v []|now left].
  - destruct (py_int t0) as [v0|e] eqn:E0; cbn [obind]; [|discriminate].
    intros Hf. destruct (IH _ Hf) as [Hle [Hall Hex]].
    destruct (Z.ltb_spec v0 init) as [Hlt|Hge].
    + split; [lia|]. split.
      * intros t v [<-|Ht] Hv; [rewrite E0 in Hv; injection Hv as <-; exact Hle|].
        now apply (Hall t).
      * right. destruct Hex as [->|[t [Ht Hz]]]; [exists t0 | exists t];
          (split; [simpl; tauto | assumption]).
    + split; [exact Hle|]. split.
      * intros t v [<-|Ht] Hv; [rewrite E0 in Hv; injection Hv as <-; lia|].
        now apply (Hall t).
      * destruct Hex as [->|[t [Ht Hz]]]; [now left|].
        right. exists t. split; [now right | assumption].
Qed.

(** The smallest leaf index that [find_smallest_number] computes is the
    least of 9999999999999 and the integers that the tokens spell. *)
Lemma leaf_index_least (n : string) :
  parses n ->
  (leaf_index n <= 9999999999999)%Z /\
  (forall t v, In t (split_comma n) -> py_int t = Return v -> (leaf_index n <= v)%Z) /\
  (leaf_index n = 9999999999999%Z \/
   exists t, In t (split_comma n) /\ py_int t = Return (leaf_index n)).
Proof.
  intros [z Hz]. unfold leaf_index. rewrite Hz.
  exact (smallest_fold_least _ _ _ Hz).
Qed.

Section GrafoMax.

Variables (g : graph string) (target : string) (level : string -> nat).

Local Abbreviation wt := (weight_or_0 g target).

Lemma leaf_index_parsed n z :
  Grafo.smallest_of (split_comma n) = Return z -> leaf_index n = z.
Proof. unfold leaf_index. now intros ->. Qed.

Lemma find_smallest_number_parsed a b :
  parses a -> parses b ->
  Grafo.find_smallest_number a b = Return (leaf_index a, leaf_index b).
Proof.
  intros [za Ha] [zb Hb]. unfold Grafo.find_smallest_number.
  rewrite Ha, Hb. cbn. now rewrite (leaf_index_parsed a za), (leaf_index_parsed b zb).
Qed.

Lemma nx_weight_of_neighbor (nbrs : dict string Q) n :
  nx_adj g target = Some nbrs -> In n (dict_keys nbrs) ->
  nx_weight g target n = Return (wt n).
Proof.
  intros Ha Hin. unfold weight_or_0, nx_weight, nx_get_edge_data. rewrite Ha.
  destruct (dict_In_get node_eq_dec nbrs n Hin) as [w Hw]. unfold nx_get. now rewrite Hw.
Qed.

(** The loop, from a state in which [max_weight] is the weight of the
    neighbour [x] seen last on the top level and [max_edge_node] is [r]. *)
Lemma grafo_max_fold (l done : list string) (x r : string) :
  (forall n, In n (done ++ l) -> nx_weight g target n = Return (wt n)) ->
  (forall n, In n (done ++ l) -> parses n) ->
  (forall a b, In a (done ++ l) -> In b (done ++ l) -> levelled g target level a b) ->
  In x done -> In r done -> level x = level r ->
  (forall n, In n done -> level n <= level r) ->
  (forall n, In n done -> level n = level r -> (leaf_index r <= leaf_index n)%Z) ->
  exists x' r',
    fold_outcome (Grafo.max_edge_step g target) l (Some (wt x), Some r)
    = Return (Some (wt x'), Some r') /\
    In r' (done ++ l) /\
    (forall n, In n (done ++ l) -> level n <= level r') /\
    (forall n, In n (done ++ l) -> level n = level r' ->
       (leaf_index r' <= leaf_index n)%Z).
Proof.
  revert done x r. induction l as [|n l IH]; intros done x r Hw Hp Hlev Hx Hr Hxr Hmax Hmin.
  - exists x, r. rewrite app_nil_r. repeat split; assumption.
  - assert (Hn : In n (done ++ n :: l)) by (apply in_or_app; right; now left).
    assert (Hx' : In x (done ++ n :: l)) by (apply in_or_app; now left).
    assert (Hr' : In r (done ++ n :: l)) by (apply in_or_app; now left).
    assert (Hnd : In n (done ++ [n])) by (apply in_or_app; right; now left).
    cbn [fold_outcome]. unfold Grafo.max_edge_step at 1.
    rewrite (Hw n Hn). cbn [obind fst snd].
    destruct (Hlev n x Hn Hx') as [Hsame [Hhigh Hlow]].
    replace (done ++ n :: l) with ((done ++ [n]) ++ l) in *
      by (now rewrite <- app_assoc).
    destruct (lt_eq_lt_dec (level n) (level x)) as [[Hlt|Heq]|Hgt].
    + (* a lower level: neither test passes, nothing changes *)
      destruct (Hlow Hlt) as [Ea En]. rewrite Ea, En.
      apply IH; try assumption.
      * apply in_or_app. now left.
      * apply in_or_app. now left.
      * intros y Hy. apply in_app_or in Hy. destruct Hy as [Hy|[<-|[]]];
          [now apply Hmax | lia].
      * intros y Hy Hye. apply in_app_or in Hy. destruct Hy as [Hy|[<-|[]]];
          [now apply Hmin | lia].
    + (* the same level: a tie, the smaller leaf index wins *)
      destruct (Hsame Heq) as [Ea En]. rewrite Ea, En.
      rewrite (find_smallest_number_parsed n r (Hp n Hn) (Hp r Hr')).
      cbn [obind fst snd].
      destruct (Z.ltb_spec (leaf_index n) (leaf_index r)) as [Hl|Hge].
      * apply IH; try assumption; try reflexivity.
        -- intros y Hy. apply in_app_or in Hy. destruct Hy as [Hy|[<-|[]]];
             [specialize (Hmax y Hy); lia | lia].
        -- intros y Hy Hye. apply in_app_or in Hy. destruct Hy as [Hy|[<-|[]]].
           ++ assert (Hyr : level y = level r) by lia.
              specialize (Hmin y Hy Hyr). lia.
           ++ apply Z.le_refl.
      * apply IH; try assumption.
        -- apply in_or_app. now left.
        -- lia.
        -- intros y Hy. apply in_app_or in Hy. destruct Hy as [Hy|[<-|[]]];
             [now apply Hmax | lia].
        -- intros y Hy Hye. apply in_app_or in Hy. destruct Hy as [Hy|[<-|[]]];
             [now apply Hmin | assumption].
    + (* a higher level: the neighbour becomes the candidate *)
      rewrite (Hhigh Hgt).
      apply IH; try assumption; try reflexivity.
      * intros y Hy. apply in_app_or in Hy. destruct Hy as [Hy|[<-|[]]];
          [specialize (Hmax y Hy); lia | lia].
      * intros y Hy Hye. apply in_app_or in Hy. destruct Hy as [Hy|[<-|[]]].
        -- specialize (Hmax y Hy). lia.
        -- apply Z.le_refl.
Qed.

End GrafoMax.

Lemma grafo_find_max_spec (g : graph string) (target : string) (nbrs : dict string Q)
    (level : string -> nat) :
  nx_adj g target = Some nbrs -> nbrs <> [] ->
  (forall n, In n (dict_keys nbrs) -> parses n) ->
  (forall a b, In a (dict_keys nbrs) -> In b (dict_keys nbrs) ->
     levelled g target level a b) ->
  exists r,
    Grafo.find_max_edge_node_in g target = Return (Some r) /\
    In r (dict_keys nbrs) /\
    (forall n, In n (dict_keys nbrs) -> level n <= level r) /\
    (forall n, In n (dict_keys nbrs) -> level n = level r ->
       (leaf_index r <= leaf_index n)%Z) /\
    (forall n, In n (dict_keys nbrs) ->
       Grafo.above (weight_or_0 g target n) (Some (weight_or_0 g target r)) = false).
Proof.
  intros Ha Hne Hp Hlev.
  unfold Grafo.find_max_edge_node_in, nx_neighbors. rewrite Ha. cbn [obind].
  destruct (dict_keys nbrs) as [|n0 l] eqn:Ek.
  { destruct nbrs; [congruence | discriminate]. }
  assert (Hw : forall n, In n (n0 :: l) ->
            nx_weight g target n = Return (weight_or_0 g target n)).
  { intros n Hn. apply (nx_weight_of_neighbor g target nbrs); [assumption|].
    now rewrite Ek. }
  cbn [fold_outcome]. unfold Grafo.max_edge_step at 1.
  rewrite (Hw n0 (or_introl eq_refl)). cbn [obind fst snd Grafo.above].
  destruct (grafo_max_fold g target level l [n0] n0 n0)
    as [x' [r' [Hf [Hin [Hmax Hmin]]]]]; try assumption.
  - now left.
  - now left.
  - reflexivity.
  - intros n [<-|[]]. apply Nat.le_refl.
  - intros n [<-|[]] _. apply Z.le_refl.
  - exists r'. rewrite Hf. cbn [obind snd]. split; [reflexivity|].
    split; [exact Hin|]. split; [exact Hmax|]. split; [exact Hmin|].
    intros n Hn. destruct (Hlev n r' Hn Hin) as [Hsame [_ Hlow]].
    specialize (Hmax n Hn).
    destruct (Nat.eq_dec (level n) (level r')) as [He|Hne'].
    + apply (Hsame He).
    + apply Hlow. lia.
Qed.

Lemma grafo_find_max_order (g g' : graph string) (target : string)
    (nbrs nbrs' : dict string Q) (level : string -> nat) :
  nx_adj g target = Some nbrs -> nx_adj g' target = Some nbrs' ->
  NoDup (dict_keys nbrs) -> Permutation nbrs nbrs' -> nbrs <> [] ->
  (forall n, In n (dict_keys nbrs) -> parses n) ->
  (forall a b, In a (dict_keys nbrs) -> In b (dict_keys nbrs) ->
     levelled g target level a b) ->
  (forall a b, In a (dict_keys nbrs) -> In b (dict_keys nbrs) ->
     level a = level b -> leaf_index a = leaf_index b -> a = b) ->
  Grafo.find_max_edge_node_in g' target = Grafo.find_max_edge_node_in g target.
Proof.
  intros Ha Ha' Hnd Hperm Hne Hp Hlev Hinj.
  assert (Hkeys : forall n, In n (dict_keys nbrs') <-> In n (dict_keys nbrs)).
  { intros n. split; apply Permutation_in; unfold dict_keys;
      [apply Permutation_sym|]; now apply Permutation_map. }
  assert (Hwt : forall n, weight_or_0 g' target n = weight_or_0 g target n).
  { intros n. unfold weight_or_0, nx_get_edge_data. rewrite Ha, Ha'. unfold nx_get.
    now rewrite (dict_get_perm node_eq_dec nbrs nbrs' n Hnd Hperm). }
  destruct (grafo_find_max_spec g target nbrs level Ha Hne Hp Hlev)
    as [r [Hr [Hin [Hmax [Hmin _]]]]].
  destruct (grafo_find_max_spec g' target nbrs' level Ha')
    as [r' [Hr' [Hin' [Hmax' [Hmin' _]]]]].
  - intros E. subst nbrs'. apply Permutation_sym, Permutation_nil in Hperm. contradiction.
  - intros n Hn. apply Hp. now apply Hkeys.
  - intros a b Hain Hbin. unfold levelled. rewrite !Hwt. apply Hlev; now apply Hkeys.
  - rewrite Hr, Hr'. do 2 f_equal.
    apply Hkeys in Hin'.
    assert (Hl : level r = level r').
    { apply Nat.le_antisymm; [apply Hmax'; now apply Hkeys | now apply Hmax]. }
    apply Hinj; try assumption; [now symmetry|]. apply Z.le_antisymm.
    + apply Hmin'; [now apply Hkeys | assumption].
    + apply Hmin; [assumption | now symmetry].
Qed.

Section Grafo1Max.

Variables (g : graph Grafo1.node) (target : Grafo1.node).

Local Abbreviation wt1 := (weight_or_0 g target).

Lemma grafo1_max_fold (l before after : list Grafo1.node) (r : Grafo1.node) :
  (forall n, In n l -> nx_weight g target n = Return (wt1 n)) ->
  (forall n, In n before -> (wt1 n < wt1 r)%Q) ->
  (forall n, In n after -> (wt1 n <= wt1 r)%Q) ->
  exists before' r' after',
    fold_outcome (Grafo1.max_edge_step g target) l (Some (wt1 r), Some r)
    = Return (Some (wt1 r'), Some r') /\
    before ++ r :: after ++ l = before' ++ r' :: after' /\
    (forall n, In n before' -> (wt1 n < wt1 r')%Q) /\
    (forall n, In n after' -> (wt1 n <= wt1 r')%Q).
Proof.
  revert before after r. induction l as [|n l IH]; intros before after r Hw Hb Ha.
  - exists before, r, after. rewrite app_nil_r. repeat split; assumption.
  - cbn [fold_outcome]. unfold Grafo1.max_edge_step at 1.
    rewrite (Hw n (or_introl eq_refl)). cbn [obind fst snd].
    destruct (Qlt_le_dec (wt1 r) (wt1 n)) as [Hlt|Hle].
    + destruct (IH (before ++ r :: after) [] n) as [b' [r' [a' [Hf [He [Hb' Ha']]]]]].
      * intros x Hx. apply Hw. now right.
      * intros x Hx. apply in_app_or in Hx. destruct Hx as [Hx|[<-|Hx]].
        -- specialize (Hb x Hx). lra.
        -- assumption.
        -- specialize (Ha x Hx). lra.
      * intros x [].
      * exists b', r', a'. split; [exact Hf|]. split; [|split; assumption].
        rewrite <- He. simpl. now rewrite <- !app_assoc.
    + destruct (IH before (after ++ [n]) r) as [b' [r' [a' [Hf [He [Hb' Ha']]]]]].
      * intros x Hx. apply Hw. now right.
      * assumption.
      * intros x Hx. apply in_app_or in Hx. destruct Hx as [Hx|[<-|[]]];
          [now apply Ha | assumption].
      * exists b', r', a'. split; [exact Hf|]. split; [|split; assumption].
        rewrite <- He. now rewrite <- !app_assoc.
Qed.

Lemma grafo1_find_max_spec (nbrs : dict Grafo1.node Q) :
  nx_adj g target = Some nbrs -> nbrs <> [] ->
  exists before r after,
    Grafo1.find_max_edge_node_in g target = Return (Some r) /\
    dict_keys nbrs = before ++ r :: after /\
    (forall n, In n before -> (wt1 n < wt1 r)%Q) /\
    (forall n, In n after -> (wt1 n <= wt1 r)%Q).
Proof.
  intros Ha Hne.
  unfold Grafo1.find_max_edge_node_in, nx_neighbors. rewrite Ha. cbn [obind].
  destruct (dict_keys nbrs) as [|n0 l] eqn:Ek.
  { destruct nbrs; [congruence | discriminate]. }
  assert (Hw : forall n, In n (n0 :: l) -> nx_weight g target n = Return (wt1 n)).
  { intros n Hn. unfold weight_or_0, nx_weight, nx_get_edge_data. rewrite Ha.
    rewrite <- Ek in Hn. destruct (dict_In_get node_eq_dec nbrs n Hn) as [w Hq].
    unfold nx_get. now rewrite Hq. }
  cbn [fold_outcome]. unfold Grafo1.max_edge_step at 1.
  rewrite (Hw n0 (or_introl eq_refl)). cbn [obind fst snd].
  destruct (grafo1_max_fold l [] [] n0) as [b' [r' [a' [Hf [He [Hb' Ha']]]]]].
  - intros n Hn. apply Hw. now right.
  - intros n [].
  - intros n [].
  - exists b', r', a'. rewrite Hf. cbn [obind snd]. simpl in He.
    repeat split; assumption.
Qed.

End Grafo1Max.

(** C2, as the code has it.  In grafo.py, let the target have at least one
    neighbour, let the neighbour identifiers be comma-separated integers,
    and let the neighbour weights fall into levels that the two float tests
    of the loop tell apart: two neighbours of one level pass the tolerance
    test [abs(w - w') < 0.000001] against each other and not the greater
    test [w > w' + 0.000001]; a neighbour of a higher level passes the
    greater test against one of a lower level; a neighbour of a lower level
    passes neither test against one of a higher level.  Then
    [find_max_edge_node] returns a neighbour of the highest level whose
    smallest leaf index is least on that level, and no neighbour passes the
    greater test against it.  When, moreover, the neighbours of one level
    have different smallest leaf indices, the result is the same for every
    order of the neighbours.  The smallest leaf index of an identifier is the
    least of 9999999999999 and the integers its tokens spell.  In grafo1.py
    there is no tolerance and no tie-break: the result is the first
    neighbour in iteration order whose weight is greatest. *)
Theorem find_max_edge_node_on_levelled_weights :
  (forall (g : graph string) (target : string) (nbrs : dict string Q)
          (level : string -> nat),
     nx_adj g target = Some nbrs -> nbrs <> [] ->
     (forall n, In n (dict_keys nbrs) -> parses n) ->
     (forall a b, In a (dict_keys nbrs) -> In b (dict_keys nbrs) ->
        levelled g target level a b) ->
     exists r,
       Grafo.find_max_edge_node_in g target = Return (Some r) /\
       In r (dict_keys nbrs) /\
       (forall n, In n (dict_keys nbrs) -> level n <= level r) /\
       (forall n, In n (dict_keys nbrs) -> level n = level r ->
          (leaf_index r <= leaf_index n)%Z) /\
       (forall n, In n (dict_keys nbrs) ->
          Grafo.above (weight_or_0 g target n) (Some (weight_or_0 g target r)) = false)) /\
  (forall (g g' : graph string) (target : string) (nbrs nbrs' : dict string Q)
          (level : string -> nat),
     nx_adj g target = Some nbrs -> nx_adj g' target = Some nbrs' ->
     NoDup (dict_keys nbrs) -> Permutation nbrs nbrs' -> nbrs <> [] ->
     (forall n, In n (dict_keys nbrs) -> parses n) ->
     (forall a b, In a (dict_keys nbrs) -> In b (dict_keys nbrs) ->
        levelled g target level a b) ->
     (forall a b, In a (dict_keys nbrs) -> In b (dict_keys nbrs) ->
        level a = level b -> leaf_index a = leaf_index b -> a = b) ->
     Grafo.find_max_edge_node_in g' target = Grafo.find_max_edge_node_in g target) /\
  (forall n : string,
     parses n ->
     (leaf_index n <= 9999999999999)%Z /\
     (forall t v, In t (split_comma n) -> py_int t = Return v -> (leaf_index n <= v)%Z) /\
     (leaf_index n = 9999999999999%Z \/
      exists t, In t (split_comma n) /\ py_int t = Return (leaf_index n))) /\
  (forall (g : graph Grafo1.node) (target : Grafo1.node) (nbrs : dict Grafo1.node Q),
     nx_adj g target = Some nbrs -> nbrs <> [] ->
     exists before r after,
       Grafo1.find_max_edge_node_in g target = Return (Some r) /\
       dict_keys nbrs = before ++ r :: after /\
       (forall n, In n before -> (weight_or_0 g target n < weight_or_0 g target r)%Q) /\
       (forall n, In n after -> (weight_or_0 g target n <= weight_or_0 g target r)%Q)).
Proof.
  split; [|split; [|split]].
  - apply grafo_find_max_spec.
  - apply grafo_find_max_order.
  - apply leaf_index_least.
  - apply grafo1_find_max_spec.
Qed.

(** The neighbours "3" (weight 10), "1" (weight 10.0000005) and "2"
    (weight 3) of "0": the two heavy ones are a near tie, and the result is
    "1", the one of smaller leaf index, in both orders of the neighbours.
    Two neighbours of identical weight 5, "2" listed before "1": the result
    is "1" as well. *)
Lemma find_max_edge_node_on_levelled_weights_witness :
  Grafo.find_max_edge_node_in tie_and_below "0" = Return (Some "1"%string) /\
  Grafo.find_max_edge_node_in tie_and_below_reordered "0" = Return (Some "1"%string) /\
  Grafo.find_max_edge_node_in equal_weights "0" = Return (Some "1"%string) /\
  leaf_index "1" = 1%Z /\ leaf_index "2" = 2%Z /\ leaf_index "3" = 3%Z.
Proof.
  destruct find_max_edge_node_on_levelled_weights as [Hspec [Horder _]].
  assert (H0 : Grafo.find_max_edge_node_in equal_weights "0" = Return (Some "1"%string)).
  { destruct (Hspec equal_weights "0"%string [("2", 5); ("1", 5)]%string%Q (fun _ => 0)
                eq_refl ltac:(discriminate))
      as [r [Hr [Hin [_ [Hmin _]]]]].
    - intros n [<-|[<-|[]]]; eexists; reflexivity.
    - intros a b [<-|[<-|[]]] [<-|[<-|[]]]; unfold levelled;
        vm_compute; repeat split; intros; first [reflexivity | lia | congruence].
    - destruct Hin as [<-|[<-|[]]]; [|exact Hr].
      exfalso. specialize (Hmin "1"%string ltac:(simpl; tauto) eq_refl).
      vm_compute in Hmin. now apply Hmin. }
  assert (Hp : forall n, In n ["3"; "1"; "2"]%string -> parses n)
    by (intros n [<-|[<-|[<-|[]]]]; eexists; reflexivity).
  assert (Hlev : forall a b, In a ["3"; "1"; "2"]%string -> In b ["3"; "1"; "2"]%string ->
            levelled tie_and_below "0" top_two a b).
  { intros a b [<-|[<-|[<-|[]]]] [<-|[<-|[<-|[]]]]; unfold levelled;
      vm_compute; repeat split; intros; first [reflexivity | lia | congruence]. }
  assert (H1 : Grafo.find_max_edge_node_in tie_and_below "0" = Return (Some "1"%string)).
  { destruct (Hspec tie_and_below "0"%string
                [("3", 10); ("1", 100000005 # 10000000); ("2", 3)]%string%Q top_two
                eq_refl ltac:(discriminate) Hp Hlev)
      as [r [Hr [Hin [Hmax [Hmin _]]]]].
    destruct Hin as [<-|[<-|[<-|[]]]].
    - exfalso. specialize (Hmin "1"%string ltac:(simpl; tauto) eq_refl).
      vm_compute in Hmin. now apply Hmin.
    - exact Hr.
    - exfalso. specialize (Hmax "3"%string ltac:(simpl; tauto)).
      vm_compute in Hmax. lia. }
  split; [exact H1|]. split; [|split; [exact H0 | repeat split; reflexivity]].
  rewrite <- H1.
  apply (Horder tie_and_below tie_and_below_reordered "0"%string
           [("3", 10); ("1", 100000005 # 10000000); ("2", 3)]%string%Q
           [("2", 3); ("1", 100000005 # 10000000); ("3", 10)]%string%Q top_two);
    try assumption.
  - reflexivity.
  - reflexivity.
  - apply nodupb_sound. reflexivity.
  - exact (Permutation_rev [("3", 10); ("1", 100000005 # 10000000); ("2", 3)]%string%Q).
  - discriminate.
  - intros a b [<-|[<-|[<-|[]]]] [<-|[<-|[<-|[]]]] Hl Hi; try reflexivity;
      vm_compute in Hl, Hi; congruence.
Defined.

(** The claim fails on the code.  In grafo.py, with neighbour weights 10,
    10.0000008 and 10.0000016, the result is "1" or "2" according to the
    order of the neighbours of one and the same graph, and never "3", whose
    weight is the greatest and more than 1e-6 above that of "1".  With the
    weights 2.0 and [float('2.000001')], which is more than 1e-6 above 2.0,
    neither float test passes ([2.0 + 0.000001] is rounded to the heavier
    weight itself), and the result is the neighbour that comes first.  In
    grafo1.py, two neighbours of equal weight are not told apart by their
    leaf index: the first in iteration order is returned. *)
Lemma find_max_edge_node_depends_on_order :
  Grafo.find_max_edge_node_in near_ties "0" = Return (Some "1"%string) /\
  Grafo.find_max_edge_node_in near_ties_reordered "0" = Return (Some "2"%string) /\
  (forall u v, nx_edge near_ties u v = nx_edge near_ties_reordered u v) /\
  nx_nodes near_ties = nx_nodes near_ties_reordered /\
  (weight_or_0 near_ties "0"%string "1"%string + Grafo.epsilon
     < weight_or_0 near_ties "0"%string "3"%string)%Q /\
  (weight_or_0 near_ties "0"%string "2"%string
     < weight_or_0 near_ties "0"%string "3"%string)%Q /\
  Grafo.find_max_edge_node_in rounding_gap "0" = Return (Some "1"%string) /\
  Grafo.find_max_edge_node_in rounding_gap_reordered "0" = Return (Some "2"%string) /\
  (forall u v, nx_edge rounding_gap u v = nx_edge rounding_gap_reordered u v) /\
  (weight_or_0 rounding_gap "0"%string "1"%string + Grafo.epsilon
     < weight_or_0 rounding_gap "0"%string "2"%string)%Q /\
  Grafo1.find_max_edge_node_in equal_weights1 (Grafo1.IntNode 0)
  = Return (Some (Grafo1.IntNode 2)) /\
  Grafo1.find_max_edge_node_in equal_weights1_reordered (Grafo1.IntNode 0)
  = Return (Some (Grafo1.IntNode 1)) /\
  (forall u v, nx_edge equal_weights1 u v = nx_edge equal_weights1_reordered u v).
Proof.
  split; [vm_compute; reflexivity|]. split; [vm_compute; reflexivity|].
  split.
  { intros u v. unfold nx_edge, nx_adj, nx_get, near_ties, near_ties_reordered.
    cbn [dict_get node_eq_dec Grafo.str_node].
    repeat (match goal with
            | |- context [string_dec ?a ?b] => destruct (string_dec a b)
            end; cbn [dict_get]); subst; try reflexivity; congruence. }
  split; [reflexivity|]. split; [reflexivity|]. split; [reflexivity|].
  split; [vm_compute; reflexivity|]. split; [vm_compute; reflexivity|].
  split.
  { intros u v. unfold nx_edge, nx_adj, nx_get, rounding_gap, rounding_gap_reordered.
    cbn [dict_get node_eq_dec Grafo.str_node].
    repeat (match goal with
            | |- context [string_dec ?a ?b] => destruct (string_dec a b)
            end; cbn [dict_get]); subst; try reflexivity; congruence. }
  split; [reflexivity|].
  split; [vm_compute; reflexivity|]. split; [vm_compute; reflexivity|].
  intros u v. unfold nx_edge, nx_adj, nx_get, equal_weights1, equal_weights1_reordered.
  cbn [dict_get node_eq_dec Grafo1.int_or_str_node].
  repeat (match goal with
          | |- context [Grafo1.node_dec ?a ?b] => destruct (Grafo1.node_dec a b)
          end; cbn [dict_get]); subst; try reflexivity; congruence.
Qed.

(** ** The loader *)

Lemma py_int_raises (s : string) (e : exn) : py_int s = Raise e -> e = ValueError.
Proof.
  unfold py_int. destruct (match py_strip s with EmptyString => _ | String _ _ => _ end);
    [discriminate | now intros [= <-]].
Qed.

Lemma map_outcome_raises {A B : Type} (f : A -> outcome B) (l : list A) (x : A) :
  (forall y e, f y = Raise e -> e = ValueError) ->
  In x l -> f x = Raise ValueError -> map_outcome f l = Raise ValueError.
Proof.
  intros Hv. induction l as [|a l IH]; [contradiction|].
  intros Hin Hx. cbn [map_outcome].
  destruct (f a) as [b|e] eqn:Ea.
  - destruct Hin as [->|Hin]; [congruence|].
    cbn [obind]. now rewrite (IH Hin Hx).
  - cbn [obind]. now rewrite (Hv a e Ea).
Qed.

Lemma map_outcome_returns {A B : Type} (f : A -> outcome B) (l : list A) :
  (forall x, In x l -> exists y, f x = Return y) ->
  exists ys, map_outcome f l = Return ys /\ List.length ys = List.length l /\
    forall i x, nth_error l i = Some x ->
      exists y, nth_error ys i = Some y /\ f x = Return y.
Proof.
  induction l as [|a l IH]; intros Hall.
  - exists []. repeat split. intros [|i] x; discriminate.
  - destruct (Hall a (or_introl eq_refl)) as [b Hb].
    destruct IH as [ys [Hys [Hlen Hnth]]]; [intros x Hx; apply Hall; now right|].
    exists (b :: ys). cbn [map_outcome]. rewrite Hb, Hys. cbn [obind].
    split; [reflexivity|]. split; [simpl; now rewrite Hlen|].
    intros [|i] x; cbn [nth_error].
    + intros [= <-]. now exists b.
    + apply Hnth.
Qed.

Section LoaderFacts.

Variable py_float : string -> option Q.

Lemma float_of_token_raises tok e :
  float_of_token py_float tok = Raise e -> e = ValueError.
Proof.
  unfold float_of_token. destruct (py_float tok); [discriminate | now intros [= <-]].
Qed.

Lemma read_row_raises line e : read_row py_float line = Raise e -> e = ValueError.
Proof.
  unfold read_row. generalize (py_split (py_strip line)). intros l.
  induction l as [|tok l IH]; cbn [map_outcome]; [discriminate|].
  destruct (float_of_token py_float tok) as [q|e'] eqn:E; cbn [obind].
  - destruct (map_outcome (float_of_token py_float) l) as [ys|e'']; cbn [obind];
      [discriminate|]. intros [= <-]. now apply IH.
  - intros [= <-]. eapply float_of_token_raises; eauto.
Qed.

Lemma read_row_bad_token line tok :
  In tok (py_split (py_strip line)) -> py_float tok = None ->
  read_row py_float line = Raise ValueError.
Proof.
  intros Hin Hbad. unfold read_row.
  apply (map_outcome_raises _ _ tok); [apply float_of_token_raises | assumption |].
  unfold float_of_token. now rewrite Hbad.
Qed.

Lemma read_row_numeric line :
  (forall tok, In tok (py_split (py_strip line)) -> py_float tok <> None) ->
  exists row, read_row py_float line = Return row /\
    List.length row = List.length (py_split (py_strip line)).
Proof.
  intros Hall. unfold read_row.
  destruct (map_outcome_returns (float_of_token py_float) (py_split (py_strip line)))
    as [ys [Hys [Hlen _]]].
  - intros tok Hin. unfold float_of_token. specialize (Hall tok Hin).
    destruct (py_float tok) as [q|]; [now exists q | congruence].
  - exists ys. split; assumption.
Qed.

End LoaderFacts.

(** C7, as the code has it.  Loading fails with [ValueError] inside
    [read_graph_from_file], so that the main block stops before
    [plot_graph] opens a window, when the first line is not an integer or
    when some later line has a token that is no number.  The loader does not
    compare the length of a row with the declared node count: when the first
    line is an integer and every token is numeric it returns the rows as it
    read them, whatever their lengths. *)
Theorem loader_rejects_only_non_numeric_input :
  forall (py_float : string -> option Q) (file : string),
    (forall e, py_int (py_strip (hd EmptyString (py_lines file))) = Raise e ->
       read_graph_from_file py_float file = Raise ValueError) /\
    ((exists line tok,
         In line (tl (py_lines file)) /\ In tok (py_split (py_strip line)) /\
         py_float tok = None) ->
     read_graph_from_file py_float file = Raise ValueError) /\
    (read_graph_from_file py_float file = Raise ValueError ->
     (forall layout, Grafo.main py_float layout file = Raise ValueError) /\
     (forall layout, Grafo1.main py_float layout file = Raise ValueError)) /\
    (forall n,
        py_int (py_strip (hd EmptyString (py_lines file))) = Return n ->
        (forall line tok,
            In line (tl (py_lines file)) -> In tok (py_split (py_strip line)) ->
            py_float tok <> None) ->
        exists matrix,
          read_graph_from_file py_float file = Return (n, matrix) /\
          List.length matrix = List.length (tl (py_lines file)) /\
          forall i line, nth_error (tl (py_lines file)) i = Some line ->
            exists row, nth_error matrix i = Some row /\
              List.length row = List.length (py_split (py_strip line))).
Proof.
  intros py_float file. unfold read_graph_from_file.
  split; [|split; [|split]].
  - intros e He. rewrite He. cbn [obind]. now rewrite (py_int_raises _ e He).
  - intros [line [tok [Hl [Ht Hbad]]]].
    destruct (py_int (py_strip (hd EmptyString (py_lines file)))) as [n|e] eqn:En;
      cbn [obind].
    + rewrite (map_outcome_raises (read_row py_float) (tl (py_lines file)) line).
      * reflexivity.
      * apply read_row_raises.
      * assumption.
      * now apply (read_row_bad_token py_float line tok).
    + now rewrite (py_int_raises _ e En).
  - intros Hr. split; intros layout.
    + unfold Grafo.main, read_graph_from_file. now rewrite Hr.
    + unfold Grafo1.main, read_graph_from_file. now rewrite Hr.
  - intros n Hn Hall. rewrite Hn. cbn [obind].
    destruct (map_outcome_returns (read_row py_float) (tl (py_lines file)))
      as [matrix [Hm [Hlen Hnth]]].
    + intros line Hl. destruct (read_row_numeric py_float line) as [row [Hrow _]].
      * intros tok Ht. now apply (Hall line tok).
      * now exists row.
    + exists matrix. rewrite Hm. cbn [obind]. split; [reflexivity|].
      split; [assumption|].
      intros i line Hi. destruct (Hnth i line Hi) as [row [Hrow Hread]].
      exists row. split; [assumption|].
      destruct (read_row_numeric py_float line) as [row' [Hrow' Hlen']].
      * intros tok Ht. apply (Hall line tok); [|assumption].
        eapply nth_error_In; eauto.
      * congruence.
Qed.

(** A file with the token "x" and a file without a count line stop in the
    loader, in both scripts. *)
Lemma loader_rejects_only_non_numeric_input_witness :
  (read_graph_from_file decimal_float bad_token_file = Raise ValueError /\
   Grafo.main decimal_float line_layout bad_token_file = Raise ValueError /\
   Grafo1.main decimal_float line_layout bad_token_file = Raise ValueError) /\
  read_graph_from_file decimal_float no_count_file = Raise ValueError.
Proof.
  destruct (loader_rejects_only_non_numeric_input decimal_float bad_token_file)
    as [_ [Hbad [Hmain _]]].
  destruct (loader_rejects_only_non_numeric_input decimal_float no_count_file)
    as [Hcount _].
  assert (Hr : read_graph_from_file decimal_float bad_token_file = Raise ValueError).
  { apply Hbad. exists ("0 x" ++ newline)%string, "x"%string.
    split; [vm_compute; tauto|]. split; [vm_compute; tauto | reflexivity]. }
  split.
  - split; [exact Hr|]. destruct (Hmain Hr) as [H1 H2]. split; [apply H1 | apply H2].
  - apply (Hcount ValueError). reflexivity.
Defined.

(** The claim fails on the code: a file that declares 2 nodes and whose
    first row has 3 entries is loaded, and the main block goes on to build
    the engine behind the window; with a first row of 1 entry the loader
    returns as well, and it is [plot_graph] that raises [IndexError]. *)
Lemma loader_accepts_row_length_mismatch :
  read_graph_from_file decimal_float long_row_file
  = Return (2%Z, [[0; 1; 2]; [1; 0]]%Q) /\
  (exists engine, Grafo.main decimal_float line_layout long_row_file = Return engine) /\
  (exists engine, Grafo1.main decimal_float line_layout long_row_file = Return engine) /\
  read_graph_from_file decimal_float short_row_file
  = Return (2%Z, [[0]; [1; 0]]%Q) /\
  Grafo.main decimal_float line_layout short_row_file = Raise IndexError.
Proof.
  split; [vm_compute; reflexivity|].
  split; [eexists; vm_compute; reflexivity|].
  split; [eexists; vm_compute; reflexivity|].
  split; vm_compute; reflexivity.
Qed.

(** ** Greedy contraction of a complete graph *)

Section CompleteFacts.

Context {V : Type} `{NodeId V} {set_order : SetIter V}.

Implicit Types (g : graph V) (a b k u v x y : V).

Lemma merge_graph_nodes_In g a b x :
  nx_wf g -> ids_disjoint g -> In a (nx_nodes g) -> In b (nx_nodes g) ->
  (In x (nx_nodes (merge_graph g a b))
   <-> x = joined a b \/ (In x (nx_nodes g) /\ x <> a /\ x <> b)).
Proof.
  intros Hwf Hd Ha Hb.
  rewrite (merge_graph_nodes g a b Hwf Ha Hb (joined_fresh g a b Hd Ha)).
  rewrite in_app_iff, !filter_In. simpl.
  destruct (node_eq_dec b x); destruct (node_eq_dec a x); intuition congruence.
Qed.

Lemma merge_graph_loopless g a b :
  nx_wf g -> ids_disjoint g -> nx_loopless g ->
  In a (nx_nodes g) -> In b (nx_nodes g) ->
  nx_loopless (merge_graph g a b).
Proof.
  intros Hwf Hd Hl Ha Hb u.
  pose proof (joined_fresh g a b Hd Ha) as Hnew.
  rewrite (merge_graph_edge g a b Hwf Ha Hb Hnew).
  destruct (node_eq_dec u (joined a b)) as [->|Hu].
  - unfold merged_weight. destruct (in_dec node_eq_dec (joined a b) [a; b]); [reflexivity|].
    now rewrite !(nx_edge_absent_r g _ (joined a b) Hwf Hnew).
  - destruct (in_dec node_eq_dec u [a; b]); [reflexivity | apply Hl].
Qed.

Lemma merge_graph_complete g a b :
  nx_wf g -> ids_disjoint g -> nx_complete g ->
  In a (nx_nodes g) -> In b (nx_nodes g) ->
  nx_complete (merge_graph g a b).
Proof.
  intros Hwf Hd Hc Ha Hb u v Hu Hv Huv.
  pose proof (joined_fresh g a b Hd Ha) as Hnew.
  apply (merge_graph_nodes_In g a b u Hwf Hd Ha Hb) in Hu.
  apply (merge_graph_nodes_In g a b v Hwf Hd Ha Hb) in Hv.
  assert (Hmw : forall k, In k (nx_nodes g) -> k <> a -> k <> b ->
            merged_weight g a b k <> None).
  { intros k Hk Hka Hkb. unfold merged_weight.
    destruct (in_dec node_eq_dec k [a; b]) as [Hin|_].
    - simpl in Hin. intuition congruence.
    - pose proof (Hc a k Ha Hk (fun E => Hka (eq_sym E))) as He.
      destruct (nx_edge g a k); [|congruence].
      destruct (nx_edge g b k); discriminate. }
  rewrite (merge_graph_edge g a b Hwf Ha Hb Hnew).
  destruct (node_eq_dec u (joined a b)) as [->|Hun].
  - destruct Hv as [->|[Hv [Hva Hvb]]]; [congruence | now apply Hmw].
  - destruct Hu as [->|[Hu [Hua Hub]]]; [congruence|].
    destruct (node_eq_dec v (joined a b)) as [->|Hvn]; [now apply Hmw|].
    destruct Hv as [->|[Hv [Hva Hvb]]]; [congruence|].
    destruct (in_dec node_eq_dec u [a; b]) as [Hin|_];
      [simpl in Hin; intuition congruence|].
    destruct (in_dec node_eq_dec v [a; b]) as [Hin|_];
      [simpl in Hin; intuition congruence|].
    now apply Hc.
Qed.

Lemma merge_graph_pos_keys a b g (p : positions V) k :
  fst (merge_graph_pos a b (g, p)) = Return tt ->
  (In k (dict_keys (snd (snd (merge_graph_pos a b (g, p)))))
   <-> (k = joined a b \/ In k (dict_keys p)) /\ k <> a /\ k <> b).
Proof.
  unfold merge_graph_pos, nx_neighbors, pos_getitem, pos_delitem. cbn [fst snd].
  destruct (nx_adj g a) as [na|]; [|discriminate].
  destruct (nx_adj g b) as [nb|]; [|discriminate].
  destruct (dict_get node_eq_dec p a) as [pa|]; [|discriminate].
  destruct (dict_get node_eq_dec p b) as [pb|]; [|discriminate].
  destruct (dict_mem node_eq_dec _ a); [|discriminate].
  destruct (dict_mem node_eq_dec (dict_del node_eq_dec _ a) b); [|discriminate].
  intros _. cbn [snd]. rewrite !dict_keys_del_In, dict_keys_set_In. tauto.
Qed.

End CompleteFacts.

(** *** Identifiers made of integers *)

Lemma smallest_fold_returns (l : list string) (init : Z) :
  (forall t, In t l -> exists v, py_int t = Return v) ->
  exists z,
    fold_outcome
      (fun small i => obind (py_int i) (fun v => Return (if (v <? small)%Z then v else small)))
      l init = Return z.
Proof.
  revert init. induction l as [|t l IH]; intros init Hall.
  - now exists init.
  - cbn [fold_outcome]. destruct (Hall t (or_introl eq_refl)) as [v Hv].
    rewrite Hv. cbn [obind]. apply IH. intros t' Ht'. apply Hall. now right.
Qed.

Lemma smallest_fold_tokens (l : list string) (init z : Z) :
  fold_outcome
    (fun small i => obind (py_int i) (fun v => Return (if (v <? small)%Z then v else small)))
    l init = Return z ->
  forall t, In t l -> exists v, py_int t = Return v.
Proof.
  revert init. induction l as [|t l IH]; intros init Hf t' Ht'; [contradiction|].
  cbn [fold_outcome] in Hf. destruct (py_int t) as [v|e] eqn:Ev; [|discriminate].
  cbn [obind] in Hf. destruct Ht' as [<-|Ht']; [now exists v|].
  eapply IH; eauto.
Qed.

Lemma parses_tokens (n : string) :
  parses n <-> forall t, In t (split_comma n) -> exists v, py_int t = Return v.
Proof.
  unfold parses, Grafo.smallest_of. split.
  - intros [z Hz]. eapply smallest_fold_tokens; eauto.
  - apply smallest_fold_returns.
Qed.

Lemma parses_joined (a b : string) : parses a -> parses b -> parses (joined a b).
Proof.
  rewrite !parses_tokens. intros Ha Hb t.
  pose proof (joined_tokens a b) as E. cbn [node_str Grafo.str_node] in E.
  rewrite E, in_app_iff. intros [Ht|Ht]; auto.
Qed.

(** *** The greedy choice is a neighbour *)

Lemma grafo_max_fold_some (g : graph string) (target : string)
    (l done : list string) (m : Q) (r : string) :
  (forall n, In n l -> exists w, nx_weight g target n = Return w) ->
  (forall n, In n (done ++ l) -> parses n) ->
  In r done ->
  exists m' r',
    fold_outcome (Grafo.max_edge_step g target) l (Some m, Some r)
    = Return (Some m', Some r') /\ In r' (done ++ l).
Proof.
  revert done m r. induction l as [|n l IH]; intros done m r Hw Hp Hr.
  - exists m, r. rewrite app_nil_r. split; [reflexivity | assumption].
  - assert (Hn : In n (done ++ n :: l)) by (apply in_or_app; right; now left).
    assert (Hr' : In r (done ++ n :: l)) by (apply in_or_app; now left).
    cbn [fold_outcome]. unfold Grafo.max_edge_step at 1.
    destruct (Hw n (or_introl eq_refl)) as [w Hwn]. rewrite Hwn. cbn [obind fst snd].
    replace (done ++ n :: l) with ((done ++ [n]) ++ l) in *
      by (now rewrite <- app_assoc).
    assert (Hw' : forall x, In x l -> exists w, nx_weight g target x = Return w)
      by (intros x Hx; apply Hw; now right).
    destruct (Grafo.above w (Some m)).
    + apply IH; try assumption. apply in_or_app. right. now left.
    + destruct (Grafo.near w (Some m)).
      * rewrite (find_smallest_number_parsed n r (Hp n Hn) (Hp r Hr')).
        cbn [obind fst snd].
        destruct (leaf_index n <? leaf_index r)%Z; apply IH; try assumption;
          apply in_or_app; [right; now left | now left].
      * apply IH; try assumption. apply in_or_app. now left.
Qed.

Lemma grafo_find_max_some (g : graph string) (target : string) (nbrs : dict string Q) :
  nx_adj g target = Some nbrs -> nbrs <> [] ->
  (forall n, In n (dict_keys nbrs) -> parses n) ->
  exists r, Grafo.find_max_edge_node_in g target = Return (Some r) /\
            In r (dict_keys nbrs).
Proof.
  intros Ha Hne Hp.
  unfold Grafo.find_max_edge_node_in, nx_neighbors. rewrite Ha. cbn [obind].
  destruct (dict_keys nbrs) as [|n0 l] eqn:Ek.
  { destruct nbrs; [congruence | discriminate]. }
  assert (Hw : forall n, In n (n0 :: l) -> exists w, nx_weight g target n = Return w).
  { intros n Hn. exists (weight_or_0 g target n).
    apply (nx_weight_of_neighbor g target nbrs); [assumption | now rewrite Ek]. }
  cbn [fold_outcome]. unfold Grafo.max_edge_step at 1.
  destruct (Hw n0 (or_introl eq_refl)) as [w0 Hw0]. rewrite Hw0.
  cbn [obind fst snd Grafo.above].
  destruct (grafo_max_fold_some g target l [n0] w0 n0) as [m' [r' [Hf Hin]]].
  - intros n Hn. apply Hw. now right.
  - assumption.
  - now left.
  - exists r'. rewrite Hf. split; [reflexivity | exact Hin].
Qed.

Lemma nx_wf_neighbor_is_node {V : Type} `{NodeId V} (g : graph V) (u v : V)
    (nbrs : dict V Q) :
  nx_wf g -> nx_adj g u = Some nbrs -> In v (dict_keys nbrs) -> In v (nx_nodes g).
Proof.
  intros [_ Hwf] Hu Hv. destruct (Hwf u nbrs Hu) as [_ Hs].
  destruct (dict_In_get node_eq_dec nbrs v Hv) as [w Hw].
  destruct (Hs v w Hw) as [nb' [Hv' _]]. eapply nx_adj_In; eauto.
Qed.

Section GreedyStep.

Context {set_order : SetIter string}.

(** One greedy step on a complete graph with at least two nodes: the anchor
    absorbs one of the other nodes, and what holds of the engine holds
    again. *)
Lemma grafo_fuse_step (self : Grafo.DraggableGraph) :
  engine_ok self -> nx_complete (Grafo.G self) ->
  (exists v, In v (nx_nodes (Grafo.G self)) /\ v <> Grafo.merged_node self) ->
  exists y self',
    In y (nx_nodes (Grafo.G self)) /\ y <> Grafo.merged_node self /\
    Grafo.fuse_max_edge_to_merged self = (Return tt, self') /\
    Grafo.G self' = merge_graph (Grafo.G self) (Grafo.merged_node self) y /\
    Grafo.merged_node self' = joined (Grafo.merged_node self) y /\
    Grafo.merged_nodes self'
    = Grafo.merged_nodes self ++ [Grafo.merged_node self; y] /\
    Grafo.shrinked_nodes self' = Grafo.shrinked_nodes self /\
    Grafo.initial_nodes self' = Grafo.initial_nodes self /\
    Grafo.original_G self' = Grafo.original_G self /\
    Grafo.original_pos self' = Grafo.original_pos self /\
    engine_ok self' /\ nx_complete (Grafo.G self').
Proof.
  intros [Hwf [Hd [Hl [Hpos [Hparse Hanchor]]]]] Hc [v [Hv Hva]].
  set (a := Grafo.merged_node self) in *.
  destruct (dict_In_get node_eq_dec (Grafo.G self) a Hanchor) as [nbrs Hadj].
  assert (Hvn : In v (dict_keys nbrs)).
  { apply (nx_edge_keys (Grafo.G self) a nbrs v Hadj). apply Hc; congruence. }
  destruct (grafo_find_max_some (Grafo.G self) a nbrs Hadj) as [y [Hmax Hy]].
  { intros E. subst nbrs. contradiction. }
  { intros n Hn. apply Hparse.
    eapply nx_wf_neighbor_is_node; eauto. }
  assert (Hyn : In y (nx_nodes (Grafo.G self)))
    by (eapply nx_wf_neighbor_is_node; eauto).
  assert (Hya : y <> a).
  { intros ->. apply (nx_edge_keys (Grafo.G self) a nbrs a Hadj) in Hy.
    apply Hy. apply Hl. }
  assert (Hret : fst (Grafo.merge_nodes a y self) = Return tt).
  { rewrite grafo_merge_nodes_outcome. apply merge_graph_pos_succeeds; try assumption.
    - congruence.
    - now apply Hpos.
    - now apply Hpos. }
  exists y, (Grafo.set_merged_node (snd (Grafo.merge_nodes a y self)) (joined a y)).
  split; [assumption|]. split; [assumption|].
  assert (HG : Grafo.G (snd (Grafo.merge_nodes a y self))
               = merge_graph (Grafo.G self) a y) by apply grafo_merge_nodes_G.
  split.
  { unfold Grafo.fuse_max_edge_to_merged. fold a.
    assert (Hmem : dict_mem string_dec (Grafo.pos self) a = true).
    { apply dict_mem_In. now apply Hpos. }
    rewrite Hmem. cbn [negb]. unfold bind at 1. unfold Grafo.find_max_edge_node at 1.
    rewrite Hmax. unfold bind, modify.
    destruct (Grafo.merge_nodes a y self) as [[[]|e] s'] eqn:E; cbn [fst snd] in *;
      [reflexivity | discriminate]. }
  split; [exact HG|]. split; [reflexivity|].
  split; [apply grafo_merge_nodes_history|].
  split; [reflexivity|]. split; [reflexivity|]. split; [reflexivity|].
  split; [reflexivity|].
  split.
  - unfold engine_ok.
    cbn [Grafo.G Grafo.pos Grafo.merged_node Grafo.set_merged_node].
    rewrite HG.
    split; [now apply merge_graph_wf|].
    split; [now apply merge_graph_ids_disjoint|].
    split; [now apply merge_graph_loopless|].
    split; [|split].
    + intros k. rewrite grafo_merge_nodes_pos.
      rewrite (merge_graph_pos_keys a y (Grafo.G self) (Grafo.pos self) k)
        by (now rewrite <- grafo_merge_nodes_outcome).
      rewrite (merge_graph_nodes_In (Grafo.G self) a y k Hwf Hd Hanchor Hyn).
      rewrite Hpos. split.
      * intros [[->|Hk] [Hka Hky]]; [now left | right; tauto].
      * intros [->|[Hk [Hka Hky]]]; [|tauto].
        split; [now left|]. split; [apply joined_neq_l | apply joined_neq_r].
    + intros n Hn.
      apply (merge_graph_nodes_In (Grafo.G self) a y n Hwf Hd Hanchor Hyn) in Hn.
      destruct Hn as [->|[Hn _]]; [|now apply Hparse].
      apply parses_joined; now apply Hparse.
    + apply (merge_graph_nodes_In (Grafo.G self) a y _ Hwf Hd Hanchor Hyn). now left.
  - cbn [Grafo.G Grafo.set_merged_node]. rewrite HG. now apply merge_graph_complete.
Qed.

End GreedyStep.

Lemma nx_looplessb_sound {V : Type} `{NodeId V} (g : graph V) :
  nx_looplessb g = true -> nx_loopless g.
Proof.
  unfold nx_looplessb, nx_loopless, nx_edge. intros Hb u.
  destruct (nx_adj g u) as [nb|] eqn:Eu; [|reflexivity].
  apply dict_get_In_pair in Eu. rewrite forallb_forall in Hb.
  specialize (Hb _ Eu). cbn [fst snd] in Hb.
  destruct (in_dec node_eq_dec u (dict_keys nb)) as [|Hn]; [discriminate|].
  now apply dict_get_None.
Qed.

Lemma nx_completeb_sound {V : Type} `{NodeId V} (g : graph V) :
  nx_completeb g = true -> nx_complete g.
Proof.
  unfold nx_completeb, nx_complete. intros Hb u v Hu Hv Huv.
  rewrite forallb_forall in Hb. specialize (Hb u Hu).
  rewrite forallb_forall in Hb. specialize (Hb v Hv).
  destruct (node_eq_dec u v); [contradiction|].
  destruct (nx_edge g u v); [discriminate | discriminate].
Qed.

Lemma exists_other {V : Type} `{NodeId V} (l : list V) (a : V) :
  2 <= List.length l -> NoDup l -> exists v, In v l /\ v <> a.
Proof.
  destruct l as [|x [|y l]]; simpl; try lia.
  intros _ Hnd. destruct (node_eq_dec x a) as [->|Hx].
  - exists y. split; [tauto|]. intros ->. inversion Hnd; subst. simpl in *. tauto.
  - exists x. split; [now left | assumption].
Qed.

Section EnterKey.

Context {set_order : SetIter string}.

Lemma grafo_on_enter_unfold (self : Grafo.DraggableGraph) :
  Grafo.on_enter self
  = match Grafo.fuse_max_edge_to_merged self with
    | (Return _, s1) =>
        if nx_number_of_nodes (Grafo.G s1) =? 1 then
          match py_index_from_end (Grafo.merged_nodes s1) 3 with
          | Raise e => (Raise e, s1)
          | Return m3 =>
              match py_index_from_end (Grafo.merged_nodes s1) 1 with
              | Raise e => (Raise e, s1)
              | Return m1 =>
                  bind Grafo.shrink_last_merged (fun _ => Grafo.reset_graph)
                    (Grafo.set_last_merged_nodes s1 (Grafo.find_nodes s1 m3 m1))
              end
          end
        else (Return tt, s1)
    | (Raise e, s1) => (Raise e, s1)
    end.
Proof. reflexivity. Qed.

Lemma grafo_on_enter_greedy (self s1 : Grafo.DraggableGraph) :
  Grafo.fuse_max_edge_to_merged self = (Return tt, s1) ->
  nx_number_of_nodes (Grafo.G s1) <> 1 ->
  Grafo.on_enter self = (Return tt, s1).
Proof.
  intros Hf Hc. rewrite grafo_on_enter_unfold, Hf.
  apply Nat.eqb_neq in Hc. now rewrite Hc.
Qed.

Lemma grafo_on_enter_collapse (self s1 : Grafo.DraggableGraph) (m3 m1 n1 n2 : string) :
  Grafo.fuse_max_edge_to_merged self = (Return tt, s1) ->
  nx_number_of_nodes (Grafo.G s1) = 1 ->
  py_index_from_end (Grafo.merged_nodes s1) 3 = Return m3 ->
  py_index_from_end (Grafo.merged_nodes s1) 1 = Return m1 ->
  Grafo.find_nodes s1 m3 m1 = [n1; n2] ->
  Grafo.on_enter self
  = Grafo.reset_graph
      (Grafo.set_shrinked_nodes (Grafo.set_last_merged_nodes s1 [])
         (Grafo.shrinked_nodes s1 ++ [(n1, n2)])).
Proof.
  intros Hf Hc H3 H1 Hfn. rewrite grafo_on_enter_unfold, Hf, Hc, H3, H1.
  cbn [Nat.eqb]. unfold bind at 1. unfold Grafo.shrink_last_merged.
  cbn [Grafo.last_merged_nodes Grafo.set_last_merged_nodes]. rewrite Hfn. reflexivity.
Qed.

(** When the key handler reaches the checkpoint step with a history shorter
    than three entries, it raises and records nothing. *)
Lemma grafo_on_enter_short_history (self s1 : Grafo.DraggableGraph) :
  Grafo.fuse_max_edge_to_merged self = (Return tt, s1) ->
  nx_number_of_nodes (Grafo.G s1) = 1 ->
  List.length (Grafo.merged_nodes s1) < 3 ->
  Grafo.on_enter self = (Raise IndexError, s1).
Proof.
  intros Hf Hc Hlen. rewrite grafo_on_enter_unfold, Hf, Hc. cbn [Nat.eqb].
  unfold py_index_from_end.
  apply Nat.ltb_lt in Hlen. rewrite Hlen.
  destruct (nth_error _ _); reflexivity.
Qed.

End EnterKey.

(** ** Collapse and checkpoint *)

Section EnterRuns.

Context {set_order : SetIter string}.

Lemma grafo_enter_times_S (n : nat) (self s1 : Grafo.DraggableGraph) :
  Grafo.on_enter self = (Return tt, s1) ->
  Grafo.enter_times (S n) self = Grafo.enter_times n s1.
Proof.
  intros He. cbn [Grafo.enter_times]. unfold bind. now rewrite He.
Qed.

Lemma grafo_enter_times_1 (self : Grafo.DraggableGraph) :
  fst (Grafo.enter_times 1 self) = fst (Grafo.on_enter self) /\
  snd (Grafo.enter_times 1 self) = snd (Grafo.on_enter self).
Proof.
  cbn [Grafo.enter_times]. unfold bind, ret.
  destruct (Grafo.on_enter self) as [[[]|e] s]; split; reflexivity.
Qed.

Lemma grafo_reset_one_checkpoint (self : Grafo.DraggableGraph) (n1 n2 : string) :
  Grafo.shrinked_nodes self = [(n1, n2)] ->
  In n1 (nx_nodes (nx_rebuild (Grafo.original_G self))) ->
  In n2 (nx_nodes (nx_rebuild (Grafo.original_G self))) ->
  n1 <> n2 ->
  In n1 (dict_keys (Grafo.original_pos self)) ->
  In n2 (dict_keys (Grafo.original_pos self)) ->
  fst (Grafo.reset_graph self) = Return tt.
Proof.
  intros Hs H1 H2 Hne Hp1 Hp2. rewrite grafo_reset_graph_unfold, Hs.
  rewrite grafo_merge_each_cons.
  set (base := Grafo.set_merged_nodes _ _).
  assert (Hret : fst (Grafo.merge_nodes n1 n2 base) = Return tt).
  { rewrite grafo_merge_nodes_outcome. now apply merge_graph_pos_succeeds. }
  destruct (Grafo.merge_nodes n1 n2 base) as [[[]|e] s]; cbn [fst] in Hret;
    [reflexivity | discriminate].
Qed.

Lemma grafo_collapse_result (s2 s3 : Grafo.DraggableGraph) (m3 m1 n1 n2 : string) :
  Grafo.fuse_max_edge_to_merged s2 = (Return tt, s3) ->
  nx_number_of_nodes (Grafo.G s3) = 1 ->
  py_index_from_end (Grafo.merged_nodes s3) 3 = Return m3 ->
  py_index_from_end (Grafo.merged_nodes s3) 1 = Return m1 ->
  Grafo.find_nodes s3 m3 m1 = [n1; n2] ->
  Grafo.shrinked_nodes s3 = [] ->
  In n1 (nx_nodes (nx_rebuild (Grafo.original_G s3))) ->
  In n2 (nx_nodes (nx_rebuild (Grafo.original_G s3))) ->
  n1 <> n2 ->
  In n1 (dict_keys (Grafo.original_pos s3)) ->
  In n2 (dict_keys (Grafo.original_pos s3)) ->
  fst (Grafo.on_enter s2) = Return tt /\
  Grafo.shrinked_nodes (snd (Grafo.on_enter s2)) = [(n1, n2)] /\
  Grafo.G (snd (Grafo.on_enter s2))
  = merge_graph (nx_rebuild (Grafo.original_G s3)) n1 n2 /\
  Grafo.merged_node (snd (Grafo.on_enter s2)) = "0"%string.
Proof.
  intros Hf Hc H3 H1 Hfn Hs Hn1 Hn2 Hne Hp1 Hp2.
  rewrite (grafo_on_enter_collapse s2 s3 m3 m1 n1 n2 Hf Hc H3 H1 Hfn).
  set (st := Grafo.set_shrinked_nodes _ _).
  assert (Hst : Grafo.shrinked_nodes st = [(n1, n2)]) by (cbn; now rewrite Hs).
  pose proof (grafo_reset_graph_result st) as R. cbn zeta in R.
  destruct R as [R1 [R2 [_ [_ R5]]]].
  assert (Hret : fst (Grafo.reset_graph st) = Return tt)
    by (apply (grafo_reset_one_checkpoint st n1 n2); assumption).
  destruct (R5 Hret) as [RG _]. rewrite Hst in RG, R2.
  split; [exact Hret|]. split; [exact R2|]. split; [exact RG | exact R1].
Qed.

Section K4.

Variables (w01 w02 w03 w12 w13 w23 : Q) (p0 p1 p2 p3 : Q * Q).

Local Abbreviation E0 := (complete4_engine w01 w02 w03 w12 w13 w23 p0 p1 p2 p3).

Lemma complete4_nodes :
  nx_nodes (complete4 w01 w02 w03 w12 w13 w23) = ["0"; "1"; "2"; "3"]%string.
Proof. vm_compute. reflexivity. Qed.

Lemma complete4_engine_ok : engine_ok E0 /\ nx_complete (Grafo.G E0).
Proof.
  split; [unfold engine_ok|]; cbn [Grafo.G Grafo.pos Grafo.merged_node Grafo.init complete4_engine].
  - split; [apply nx_add_edges_from_wf, nx_add_nodes_from_wf, nx_wf_nil|].
    split; [apply ids_disjointb_sound; vm_compute; reflexivity|].
    split; [apply nx_looplessb_sound; vm_compute; reflexivity|].
    rewrite complete4_nodes. split; [|split].
    + intros k. simpl. tauto.
    + intros n [<-|[<-|[<-|[<-|[]]]]]; eexists; vm_compute; reflexivity.
    + now left.
  - apply nx_completeb_sound. vm_compute. reflexivity.
Qed.

Lemma grafo_step_nodes (self : Grafo.DraggableGraph) (y : string) :
  engine_ok self -> In y (nx_nodes (Grafo.G self)) ->
  nx_nodes (merge_graph (Grafo.G self) (Grafo.merged_node self) y)
  = filter (fun x => if string_dec y x then false else true)
      (filter (fun x => if string_dec (Grafo.merged_node self) x then false else true)
         (nx_nodes (Grafo.G self)))
    ++ [joined (Grafo.merged_node self) y].
Proof.
  intros [Hwf [Hd [_ [_ [_ Ha]]]]] Hy.
  apply (merge_graph_nodes (Grafo.G self) (Grafo.merged_node self) y Hwf Ha Hy).
  now apply joined_fresh.
Qed.

Ltac compute_rhs H :=
  match type of H with
  | _ = ?r => let r' := eval vm_compute in r in change r with r' in H
  end.

Lemma complete4_first_collapse :
  exists y1 y2 y3 n1 n2 s2 s3,
    (NoDup [y1; y2; y3] /\ incl [y1; y2; y3] ["1"; "2"; "3"]%string) /\
    Grafo.enter_times 2 E0 = (Return tt, s2) /\
    Grafo.fuse_max_edge_to_merged s2 = (Return tt, s3) /\
    nx_number_of_nodes (Grafo.G s3) = 1 /\
    Grafo.merged_nodes s3
    = ["0"%string; y1; joined "0"%string y1; y2; joined (joined "0"%string y1) y2; y3] /\
    Grafo.find_nodes s3 y2 y3 = [n1; n2] /\
    ((n1 = y2 /\ n2 = y3) \/ (n1 = y3 /\ n2 = y2)) /\
    fst (Grafo.enter_times 3 E0) = Return tt /\
    Grafo.shrinked_nodes (snd (Grafo.enter_times 3 E0)) = [(n1, n2)] /\
    Grafo.G (snd (Grafo.enter_times 3 E0))
    = merge_graph (nx_rebuild (Grafo.original_G E0)) n1 n2 /\
    nx_nodes (Grafo.G (snd (Grafo.enter_times 3 E0))) = ["0"%string; y1; joined n1 n2] /\
    Grafo.merged_node (snd (Grafo.enter_times 3 E0)) = "0"%string.
Proof.
  destruct complete4_engine_ok as [Hok0 Hc0].
  assert (Hn0 : nx_nodes (Grafo.G E0) = ["0"; "1"; "2"; "3"]%string)
    by exact complete4_nodes.
  (* first step *)
  destruct (grafo_fuse_step E0 Hok0 Hc0)
    as (y1 & s1 & Hy1 & Hy1a & Hf1 & HG1 & Ha1 & Hm1 & Hs1 & Hi1 & Ho1 & Hp1 & Hok1 & Hc1).
  { exists "1"%string. rewrite Hn0. split; [simpl; tauto | discriminate]. }
  pose proof (grafo_step_nodes E0 y1 Hok0 Hy1) as Hn1. rewrite <- HG1 in Hn1.
  change (Grafo.merged_node E0) with "0"%string in *.
  rewrite Hn0 in Hy1, Hn1.
  destruct Hy1 as [<-|[<-|[<-|[<-|[]]]]]; [exfalso; apply Hy1a; reflexivity| | |].
  all: compute_rhs Hn1.
  all: assert (He1 : Grafo.on_enter E0 = (Return tt, s1))
         by (apply grafo_on_enter_greedy; [exact Hf1|];
             unfold nx_number_of_nodes; rewrite Hn1; discriminate).
  (* second step *)
  all: destruct (grafo_fuse_step s1 Hok1 Hc1)
    as (y2 & s2 & Hy2 & Hy2a & Hf2 & HG2 & Ha2 & Hm2 & Hs2 & Hi2 & Ho2 & Hp2 & Hok2 & Hc2);
    [ rewrite Hn1, Ha1; eexists; split; [left; reflexivity | discriminate] |].
  all: pose proof (grafo_step_nodes s1 y2 Hok1 Hy2) as Hn2; rewrite <- HG2 in Hn2.
  all: rewrite Ha1 in *; rewrite Hn1 in Hy2, Hn2.
  all: destruct Hy2 as [<-|[<-|[<-|[]]]]; [| |exfalso; apply Hy2a; reflexivity].
  all: compute_rhs Hn2.
  all: assert (He2 : Grafo.on_enter s1 = (Return tt, s2))
         by (apply grafo_on_enter_greedy; [exact Hf2|];
             unfold nx_number_of_nodes; rewrite Hn2; discriminate).
  (* third step *)
  all: destruct (grafo_fuse_step s2 Hok2 Hc2)
    as (y3 & s3 & Hy3 & Hy3a & Hf3 & HG3 & Ha3 & Hm3 & Hs3 & Hi3 & Ho3 & Hp3 & Hok3 & Hc3);
    [ rewrite Hn2, Ha2; eexists; split; [left; reflexivity | discriminate] |].
  all: pose proof (grafo_step_nodes s2 y3 Hok2 Hy3) as Hn3; rewrite <- HG3 in Hn3.
  all: rewrite Ha2 in *; rewrite Hn2 in Hy3, Hn3.
  all: destruct Hy3 as [<-|[<-|[]]]; [|exfalso; apply Hy3a; reflexivity].
  all: compute_rhs Hn3.
  all: assert (Hh : Grafo.merged_nodes s3 = _) by (rewrite Hm3, Hm2, Hm1; reflexivity).
  all: cbn [app Grafo.merged_nodes Grafo.init complete4_engine] in Hh.
  all: match type of Hh with
       | _ = [_; _; _; ?y2; _; ?y3] =>
           pose proof (eq_refl (Grafo.find_nodes s3 y2 y3)) as Hfn
       end;
       unfold Grafo.find_nodes in Hfn at 2; rewrite Hi3, Hi2, Hi1 in Hfn;
       compute_rhs Hfn.
  all: assert (Hrn : nx_nodes (nx_rebuild (Grafo.original_G s3))
                     = ["0"; "1"; "2"; "3"]%string)
         by (rewrite Ho3, Ho2, Ho1; vm_compute; reflexivity).
  all: match type of Hfn with
       | Grafo.find_nodes _ ?y2 ?y3 = [?n1; ?n2] =>
           destruct (grafo_collapse_result s2 s3 y2 y3 n1 n2 Hf3)
             as (Cr & Cs & CG & Ca);
           [ unfold nx_number_of_nodes; rewrite Hn3; reflexivity
           | rewrite Hh; reflexivity
           | rewrite Hh; reflexivity
           | exact Hfn
           | rewrite Hs3, Hs2, Hs1; reflexivity
           | rewrite Hrn; simpl; tauto
           | rewrite Hrn; simpl; tauto
           | discriminate
           | rewrite Hp3, Hp2, Hp1; simpl; tauto
           | rewrite Hp3, Hp2, Hp1; simpl; tauto
           | match type of Hh with
             | _ = [_; ?y1; _; _; _; _] => exists y1, y2, y3, n1, n2, s2, s3
             end ]
       end.
  all: rewrite (grafo_enter_times_S 2 _ s1 He1), (grafo_enter_times_S 1 _ s2 He2).
  all: rewrite (grafo_enter_times_S 1 _ s1 He1).
  all: destruct (grafo_enter_times_1 s2) as [Ef Es]; rewrite Ef, Es.
  all: split; [split; [repeat constructor; simpl; intuition discriminate
                      | intros x Hx; simpl in Hx |- *; tauto]|].
  all: split; [destruct (grafo_enter_times_1 s1) as [Ef1 Es1];
               apply injective_projections; [rewrite Ef1 | rewrite Es1];
               rewrite He2; reflexivity|].
  all: split; [exact Hf3|].
  all: split; [unfold nx_number_of_nodes; rewrite Hn3; reflexivity|].
  all: split; [exact Hh|]. all: split; [exact Hfn|].
  all: split; [first [left; split; reflexivity | right; split; reflexivity]|].
  all: split; [exact Cr|]. all: split; [exact Cs|].
  all: split; [rewrite CG, Ho3, Ho2, Ho1; reflexivity|].
  all: split; [|exact Ca].
  all: rewrite CG.
  all: rewrite merge_graph_nodes;
       [ rewrite Hrn; vm_compute; reflexivity
       | apply nx_rebuild_wf
       | rewrite Hrn; simpl; tauto
       | rewrite Hrn; simpl; tauto
       | rewrite Hrn; vm_compute; intuition discriminate ].
Qed.

End K4.
End EnterRuns.




(** ** The graph invariants hold in every state the scripts can reach *)

Lemma fold_outcome_inv {A X : Type} (P : A -> Prop) (f : A -> X -> outcome A)
    (l : list X) (a a' : A) :
  (forall b x b', In x l -> P b -> f b x = Return b' -> P b') ->
  P a -> fold_outcome f l a = Return a' -> P a'.
Proof.
  revert a. induction l as [|x l IH]; intros a Hstep Ha; cbn [fold_outcome].
  - now intros [= <-].
  - destruct (f a x) as [b|e] eqn:E; cbn [obind]; [|discriminate].
    apply IH.
    + intros c y c' Hy. apply Hstep. now right.
    + apply (Hstep a x b); [now left | assumption | assumption].
Qed.

Lemma string_of_uint_one_token (d : Decimal.uint) :
  split_comma (NilEmpty.string_of_uint d) = [NilEmpty.string_of_uint d].
Proof.
  induction d; cbn [NilEmpty.string_of_uint]; [reflexivity| | | | | | | | | |];
    cbn [split_comma]; rewrite IHd; reflexivity.
Qed.

Lemma py_str_nat_inj (i j : nat) : py_str_nat i = py_str_nat j -> i = j.
Proof.
  unfold py_str_nat. intros E. apply (f_equal NilEmpty.uint_of_string) in E.
  rewrite !NilEmpty.usu in E. injection E as E.
  now apply DecimalNat.Unsigned.to_uint_inj.
Qed.

Lemma py_str_int_inj (x y : Z) : py_str_int x = py_str_int y -> x = y.
Proof.
  unfold py_str_int. intros E. apply (f_equal NilEmpty.int_of_string) in E.
  rewrite !NilEmpty.isi in E. injection E as E.
  now apply DecimalZ.to_int_inj.
Qed.

Lemma py_str_int_one_token (z : Z) : split_comma (py_str_int z) = [py_str_int z].
Proof.
  unfold py_str_int, NilEmpty.string_of_int.
  destruct (Z.to_int z) as [d|d].
  - apply string_of_uint_one_token.
  - cbn [split_comma]. now rewrite string_of_uint_one_token.
Qed.

Section ReachableFacts.

Context {V : Type} `{NodeId V} {set_order : SetIter V}.

Lemma merge_graph_missing (g : graph V) (a b : V) :
  nx_has_node g a = false \/ nx_has_node g b = false -> merge_graph g a b = g.
Proof.
  intros Hm. pose proof (merge_graph_pos_graph a b (g, [])) as E.
  rewrite (merge_graph_pos_missing a b g [] Hm) in E. now symmetry.
Qed.

Lemma merge_graph_keeps_invariants (g : graph V) (a b : V) :
  nx_wf g /\ ids_disjoint g ->
  nx_wf (merge_graph g a b) /\ ids_disjoint (merge_graph g a b).
Proof.
  intros [Hwf Hd].
  destruct (nx_has_node g a) eqn:Ea;
    [|rewrite merge_graph_missing by (now left); now split].
  destruct (nx_has_node g b) eqn:Eb;
    [|rewrite merge_graph_missing by (now right); now split].
  apply nx_has_node_In in Ea, Eb. split.
  - now apply merge_graph_wf.
  - now apply merge_graph_ids_disjoint.
Qed.

(** The loops of [plot_graph], for any labelling of the matrix indices. *)
Lemma matrix_loops_invariants (label : nat -> V) (n : nat) (matrix : list (list Q))
    (g : graph V) :
  NoDup (map label (seq 0 n)) ->
  fold_outcome
    (fun g i =>
       fold_outcome
         (fun g j =>
            obind (matrix_entry matrix i j) (fun w =>
            if Qeq_bool w 0 then Return g
            else Return (nx_add_edge g (label i) (label j) w)))
         (seq (i + 1) (n - (i + 1))) g)
    (seq 0 n)
    (nx_add_nodes_from [] (map label (seq 0 n))) = Return g ->
  nx_wf g /\ nx_nodes g = map label (seq 0 n).
Proof.
  intros Hnd.
  apply (fold_outcome_inv (fun g => nx_wf g /\ nx_nodes g = map label (seq 0 n))).
  - intros b i b' Hi Hb.
    apply (fold_outcome_inv (fun g => nx_wf g /\ nx_nodes g = map label (seq 0 n)));
      [|exact Hb].
    intros c j c' Hj [Hwf Hn].
    destruct (matrix_entry matrix i j) as [w|e]; cbn [obind]; [|discriminate].
    destruct (Qeq_bool w 0); intros [= <-]; [now split|].
    split; [now apply nx_add_edge_wf|].
    rewrite nx_nodes_add_edge_old; [assumption | |]; rewrite Hn; apply in_map.
    + assumption.
    + apply in_seq in Hi, Hj. apply in_seq. lia.
  - split; [apply nx_add_nodes_from_wf, nx_wf_nil|].
    now rewrite nx_nodes_add_nodes_from.
Qed.

End ReachableFacts.

Section GrafoReachable.

Context {set_order : SetIter string}.

Lemma grafo_matrix_graph_invariants (n : nat) (matrix : list (list Q)) (g : graph string) :
  Grafo.matrix_graph n matrix = Return g ->
  nx_wf g /\ ids_disjoint g /\ nx_nodes g = map py_str_nat (seq 0 n).
Proof.
  intros Hg.
  assert (Hnd : NoDup (map py_str_nat (seq 0 n))).
  { apply Finite.Injective_map_NoDup; [|apply seq_NoDup].
    intros i j. apply py_str_nat_inj. }
  destruct (matrix_loops_invariants py_str_nat n matrix g Hnd Hg) as [Hwf Hn].
  split; [assumption|]. split; [|assumption].
  intros u v t Hu Hv Huv Htu Htv. rewrite Hn in Hu, Hv.
  apply in_map_iff in Hu, Hv. destruct Hu as [i [<- _]]. destruct Hv as [j [<- _]].
  cbn [node_str Grafo.str_node] in Htu, Htv. unfold py_str_nat in *.
  rewrite string_of_uint_one_token in Htu, Htv.
  destruct Htu as [<-|[]]. destruct Htv as [E|[]]. congruence.
Qed.

Lemma grafo_perform_keeps_invariants (act : Grafo.action) (self : Grafo.DraggableGraph) :
  nx_wf (Grafo.G self) /\ ids_disjoint (Grafo.G self) ->
  nx_wf (Grafo.G (snd (Grafo.perform act self))) /\
  ids_disjoint (Grafo.G (snd (Grafo.perform act self))).
Proof.
  intros Hinv. destruct act as [a b|].
  - assert (E : Grafo.G (snd (Grafo.perform (Grafo.DragMerge a b) self))
                = merge_graph (Grafo.G self) a b).
    { rewrite <- grafo_merge_nodes_G. unfold Grafo.perform, Grafo.drag_merge, bind.
      destruct (Grafo.merge_nodes a b self) as [[[]|e] t]; reflexivity. }
    rewrite E. now apply merge_graph_keeps_invariants.
  - unfold Grafo.perform, Grafo.fuse_max_edge_to_merged.
    destruct (negb (dict_mem string_dec (Grafo.pos self) (Grafo.merged_node self)));
      [exact Hinv|].
    unfold bind, Grafo.find_max_edge_node.
    destruct (Grafo.find_max_edge_node_in (Grafo.G self) (Grafo.merged_node self))
      as [[n|]|e]; cbn [snd]; try exact Hinv.
    assert (E : Grafo.G
                  (snd (let (o, s') := Grafo.merge_nodes (Grafo.merged_node self) n self in
                        match o with
                        | Return a =>
                            modify
                              (fun s =>
                                 Grafo.set_merged_node s
                                   (Grafo.merged_node self ++ "," ++ n)%string) s'
                        | Raise e => (Raise e, s')
                        end))
                = merge_graph (Grafo.G self) (Grafo.merged_node self) n).
    { rewrite <- grafo_merge_nodes_G.
      destruct (Grafo.merge_nodes (Grafo.merged_node self) n self) as [[[]|e] t];
        reflexivity. }
    rewrite E. now apply merge_graph_keeps_invariants.
Qed.

Lemma grafo_perform_all_keeps_invariants (acts : list Grafo.action)
    (self : Grafo.DraggableGraph) :
  nx_wf (Grafo.G self) /\ ids_disjoint (Grafo.G self) ->
  nx_wf (Grafo.G (Grafo.perform_all acts self)) /\
  ids_disjoint (Grafo.G (Grafo.perform_all acts self)).
Proof.
  revert self. induction acts as [|act acts IH]; intros self Hinv; [exact Hinv|].
  cbn [Grafo.perform_all]. apply IH. now apply grafo_perform_keeps_invariants.
Qed.

End GrafoReachable.

Section Grafo1Reachable.

Context {set_order : SetIter Grafo1.node}.

Lemma grafo1_matrix_graph_invariants (n : nat) (matrix : list (list Q))
    (g : graph Grafo1.node) :
  Grafo1.matrix_graph n matrix = Return g ->
  nx_wf g /\ ids_disjoint g /\
  nx_nodes g = map (fun i => Grafo1.IntNode (Z.of_nat i)) (seq 0 n).
Proof.
  intros Hg.
  assert (Hnd : NoDup (map (fun i => Grafo1.IntNode (Z.of_nat i)) (seq 0 n))).
  { apply Finite.Injective_map_NoDup; [|apply seq_NoDup].
    intros i j [= E]. now apply Nat2Z.inj. }
  destruct (matrix_loops_invariants (fun i => Grafo1.IntNode (Z.of_nat i))
              n matrix g Hnd Hg) as [Hwf Hn].
  split; [assumption|]. split; [|assumption].
  intros u v t Hu Hv Huv Htu Htv. rewrite Hn in Hu, Hv.
  apply in_map_iff in Hu, Hv. destruct Hu as [i [<- _]]. destruct Hv as [j [<- _]].
  cbn [node_str Grafo1.int_or_str_node] in Htu, Htv.
  rewrite py_str_int_one_token in Htu, Htv.
  destruct Htu as [<-|[]]. destruct Htv as [E|[]].
  apply py_str_int_inj in E. congruence.
Qed.

Lemma grafo1_perform_keeps_invariants (act : Grafo1.action) (self : Grafo1.DraggableGraph) :
  nx_wf (Grafo1.G self) /\ ids_disjoint (Grafo1.G self) ->
  nx_wf (Grafo1.G (snd (Grafo1.perform act self))) /\
  ids_disjoint (Grafo1.G (snd (Grafo1.perform act self))).
Proof.
  intros Hinv. destruct act as [a b|].
  - cbn [Grafo1.perform]. rewrite grafo1_merge_nodes_G.
    now apply merge_graph_keeps_invariants.
  - unfold Grafo1.perform, Grafo1.fuse_max_edge_to_merged.
    destruct (negb (dict_mem Grafo1.node_dec (Grafo1.pos self) (Grafo1.merged_node self)));
      [exact Hinv|].
    unfold bind, Grafo1.find_max_edge_node.
    destruct (Grafo1.find_max_edge_node_in (Grafo1.G self) (Grafo1.merged_node self))
      as [[n|]|e]; cbn [snd]; try exact Hinv.
    pose proof (grafo1_merge_nodes_G self (Grafo1.merged_node self) n) as E.
    destruct (Grafo1.merge_nodes (Grafo1.merged_node self) n self) as [[[]|e] t];
      cbn [snd] in E |- *; unfold modify; cbn [snd Grafo1.G Grafo1.set_merged_node];
      rewrite E; now apply merge_graph_keeps_invariants.
Qed.

Lemma grafo1_perform_all_keeps_invariants (acts : list Grafo1.action)
    (self : Grafo1.DraggableGraph) :
  nx_wf (Grafo1.G self) /\ ids_disjoint (Grafo1.G self) ->
  nx_wf (Grafo1.G (Grafo1.perform_all acts self)) /\
  ids_disjoint (Grafo1.G (Grafo1.perform_all acts self)).
Proof.
  revert self. induction acts as [|act acts IH]; intros self Hinv; [exact Hinv|].
  cbn [Grafo1.perform_all]. apply IH. now apply grafo1_perform_keeps_invariants.
Qed.

End Grafo1Reachable.

(** X1 (grafo.py).  The engine that [plot_graph] builds has the nodes
    "0", ..., "n-1", each once, and after any sequence of drag merges and
    greedy steps, for every iteration order of the neighbour sets, its graph
    still satisfies the networkx class invariant (each node once, every edge
    stored in both directions with one weight) and no two of its nodes share
    a comma-separated leaf index.  These are the two invariants under which
    the weight conservation and the node count of a merge are proved. *)
Theorem grafo_reachable_graphs_are_well_formed (set_order : SetIter string)
    (layout : graph string -> positions string) (n : Z) (matrix : list (list Q))
    (self : Grafo.DraggableGraph) (acts : list Grafo.action) :
  Grafo.plot_graph layout n matrix = Return self ->
  nx_nodes (Grafo.G self) = map py_str_nat (seq 0 (Z.to_nat n)) /\
  nx_wf (Grafo.G (Grafo.perform_all acts self)) /\
  ids_disjoint (Grafo.G (Grafo.perform_all acts self)).
Proof.
  unfold Grafo.plot_graph. intros Hplot.
  destruct (Grafo.matrix_graph (Z.to_nat n) matrix) as [g|e] eqn:Hg;
    cbn [obind] in Hplot; [|discriminate].
  injection Hplot as <-. cbn [Grafo.G Grafo.init].
  destruct (grafo_matrix_graph_invariants _ _ _ Hg) as [Hwf [Hd Hn]].
  split; [exact Hn|].
  apply grafo_perform_all_keeps_invariants. cbn [Grafo.G Grafo.init]. now split.
Qed.

Lemma grafo_reachable_graphs_are_well_formed_witness :
  nx_nodes (Grafo.G triangle_engine) = map py_str_nat (seq 0 (Z.to_nat 3)) /\
  nx_wf (Grafo.G (Grafo.perform_all (set_order := first_seen)
                    [Grafo.GreedyStep; Grafo.DragMerge "1" "3"; Grafo.GreedyStep]
                    triangle_engine)) /\
  ids_disjoint (Grafo.G (Grafo.perform_all (set_order := first_seen)
                    [Grafo.GreedyStep; Grafo.DragMerge "1" "3"; Grafo.GreedyStep]
                    triangle_engine)).
Proof.
  apply (grafo_reachable_graphs_are_well_formed first_seen line_layout 3 example_matrix
           triangle_engine [Grafo.GreedyStep; Grafo.DragMerge "1" "3"; Grafo.GreedyStep]).
  vm_compute. reflexivity.
Defined.

(** X2 (grafo1.py).  The engine that [plot_graph] builds has the integer
    nodes 0, ..., n-1, each once, and after any sequence of merges and greedy
    steps, for every iteration order of the neighbour sets, its graph still
    satisfies the networkx class invariant and no two of its nodes share a
    comma-separated leaf index. *)
Theorem grafo1_reachable_graphs_are_well_formed (set_order : SetIter Grafo1.node)
    (layout : graph Grafo1.node -> positions Grafo1.node) (n : Z)
    (matrix : list (list Q)) (self : Grafo1.DraggableGraph)
    (acts : list Grafo1.action) :
  Grafo1.plot_graph layout n matrix = Return self ->
  nx_nodes (Grafo1.G self)
  = map (fun i => Grafo1.IntNode (Z.of_nat i)) (seq 0 (Z.to_nat n)) /\
  nx_wf (Grafo1.G (Grafo1.perform_all acts self)) /\
  ids_disjoint (Grafo1.G (Grafo1.perform_all acts self)).
Proof.
  unfold Grafo1.plot_graph. intros Hplot.
  destruct (Grafo1.matrix_graph (Z.to_nat n) matrix) as [g|e] eqn:Hg;
    cbn [obind] in Hplot; [|discriminate].
  injection Hplot as <-. cbn [Grafo1.G Grafo1.init].
  destruct (grafo1_matrix_graph_invariants _ _ _ Hg) as [Hwf [Hd Hn]].
  split; [exact Hn|].
  apply grafo1_perform_all_keeps_invariants. cbn [Grafo1.G Grafo1.init]. now split.
Qed.

Lemma grafo1_reachable_graphs_are_well_formed_witness :
  nx_nodes (Grafo1.G triangle1_engine)
  = map (fun i => Grafo1.IntNode (Z.of_nat i)) (seq 0 (Z.to_nat 3)) /\
  nx_wf (Grafo1.G (Grafo1.perform_all (set_order := last_seen)
                     [Grafo1.GreedyStep; Grafo1.GreedyStep] triangle1_engine)) /\
  ids_disjoint (Grafo1.G (Grafo1.perform_all (set_order := last_seen)
                     [Grafo1.GreedyStep; Grafo1.GreedyStep] triangle1_engine)).
Proof.
  apply (grafo1_reachable_graphs_are_well_formed last_seen line_layout 3 example_matrix
           triangle1_engine [Grafo1.GreedyStep; Grafo1.GreedyStep]).
  vm_compute. reflexivity.
Defined.

(** * The engine as a whole *)

(** ** Sums over leaves *)

Lemma leaf_sum_app f l1 l2 : (leaf_sum f (l1 ++ l2) == leaf_sum f l1 + leaf_sum f l2)%Q.
Proof.
  induction l1 as [|t l1 IH]; cbn [leaf_sum app].
  - now rewrite Qplus_0_l.
  - rewrite IH. now rewrite Qplus_assoc.
Qed.

Lemma leaf_sum_ext f f' l :
  (forall t, In t l -> (f t == f' t)%Q) -> (leaf_sum f l == leaf_sum f' l)%Q.
Proof.
  induction l as [|t l IH]; intros Hf; cbn [leaf_sum]; [reflexivity|].
  rewrite (Hf t (or_introl eq_refl)), IH; [reflexivity|].
  intros t' Ht'. apply Hf. now right.
Qed.

Lemma leaf_sum_plus f f' l :
  (leaf_sum (fun t => f t + f' t) l == leaf_sum f l + leaf_sum f' l)%Q.
Proof.
  induction l as [|t l IH]; cbn [leaf_sum]; [now rewrite Qplus_0_l|].
  rewrite IH. ring.
Qed.

(** ** Copies of a graph *)

Section CopyFacts.

Context {V : Type} `{NodeId V}.

Implicit Types (g o : graph V).

Lemma nx_adjacency_entries_In g u v w :
  In (u, v, w) (nx_adjacency_entries g) <-> exists nb, In (u, nb) g /\ In (v, w) nb.
Proof.
  unfold nx_adjacency_entries. rewrite in_flat_map. split.
  - intros [[u' nb] [Hin Hm]]. cbn [fst snd] in Hm. apply in_map_iff in Hm.
    destruct Hm as [[v' w'] [E Hf]]. cbn [fst snd] in E. injection E as -> -> ->. eauto.
  - intros [nb [Hu Hv]]. exists (u, nb). split; [assumption|]. cbn [fst snd].
    apply in_map_iff. exists (v, w). split; [reflexivity | assumption].
Qed.

(** [G.copy()] has the nodes of [G] in their order and its weighted edges. *)
Lemma nx_copy_same o : nx_wf o -> same_graph (nx_copy o) o.
Proof.
  intros Hwf. pose proof Hwf as Hwf'. apply nx_wf_edge in Hwf'.
  destruct Hwf' as [Hnd [Hk Hs]].
  assert (Hsound : forall e, In e (nx_adjacency_entries o) ->
            nx_edge o (fst (fst e)) (snd (fst e)) = Some (snd e)).
  { intros [[u v] w] Hin. cbn [fst snd]. apply nx_adjacency_entries_In in Hin.
    destruct Hin as [nb [Hu Hv]]. unfold nx_edge, nx_adj.
    rewrite (dict_In_pair_get node_eq_dec o u nb Hnd Hu).
    apply dict_In_pair_get; [now apply (Hk u), dict_In_pair_get | assumption]. }
  unfold nx_copy. split.
  - rewrite nx_nodes_add_edges_from.
    + now rewrite nx_nodes_add_nodes_from.
    + intros e He. rewrite nx_nodes_add_nodes_from by assumption. simpl.
      pose proof (Hsound e He) as He'. split.
      * eapply nx_edge_In; eauto.
      * apply Hs in He'. eapply nx_edge_In; eauto.
  - intros u v.
    set (g0 := nx_add_nodes_from [] (nx_nodes o)).
    assert (Hg0 : forall x y q, nx_edge g0 x y = Some q -> nx_edge o x y = Some q).
    { intros x y q. unfold g0. rewrite nx_edge_add_nodes_from. discriminate. }
    pose proof (nx_add_edges_from_sound o (nx_adjacency_entries o) g0 Hs Hsound Hg0) as Hsnd.
    destruct (nx_edge o u v) as [w|] eqn:Eo.
    + assert (Hdef : nx_edge (nx_add_edges_from g0 (nx_adjacency_entries o)) u v <> None).
      { unfold nx_edge, nx_adj in Eo.
        destruct (dict_get node_eq_dec o u) as [nbu|] eqn:Eu; [|discriminate].
        apply dict_get_In_pair in Eu, Eo.
        assert (Hin : In (u, v, w) (nx_adjacency_entries o))
          by (apply nx_adjacency_entries_In; eauto).
        apply (nx_add_edges_from_complete _ g0) in Hin. tauto. }
      destruct (nx_edge (nx_add_edges_from g0 (nx_adjacency_entries o)) u v) as [q|] eqn:Er;
        [|congruence].
      apply Hsnd in Er. congruence.
    + destruct (nx_edge (nx_add_edges_from g0 (nx_adjacency_entries o)) u v) as [q|] eqn:Er;
        [|reflexivity].
      apply Hsnd in Er. congruence.
Qed.

Lemma nx_copy_wf o : nx_wf (nx_copy o).
Proof.
  unfold nx_copy. apply nx_add_edges_from_wf, nx_add_nodes_from_wf, nx_wf_nil.
Qed.

Lemma same_graph_trans g g' g'' : same_graph g g' -> same_graph g' g'' -> same_graph g g''.
Proof.
  intros [Hn He] [Hn' He']. split; [congruence | intros u v; now rewrite He].
Qed.

Lemma same_graph_weight g g' u v :
  same_graph g g' -> weight_or_0 g u v = weight_or_0 g' u v.
Proof.
  intros [_ He]. unfold weight_or_0. now rewrite !nx_get_edge_data_edge, He.
Qed.

Lemma same_graph_ok g g' : same_graph g g' -> nx_wf g -> graph_ok g' -> graph_ok g.
Proof.
  intros [Hn He] Hwf [_ [Hd Hl]]. split; [assumption|]. split.
  - intros u v t. rewrite Hn. apply Hd.
  - intros u. rewrite He. apply Hl.
Qed.

Lemma nx_rebuild_same_graph o : nx_wf o -> same_graph (nx_rebuild o) o.
Proof. intros Hwf. destruct (nx_rebuild_same o Hwf). now split. Qed.

Lemma weight_or_0_sym g u v : nx_wf g -> weight_or_0 g u v = weight_or_0 g v u.
Proof.
  intros Hwf. apply nx_wf_edge in Hwf. destruct Hwf as [_ [_ Hs]].
  unfold weight_or_0. rewrite !nx_get_edge_data_edge.
  destruct (nx_edge g u v) as [w|] eqn:E1.
  - now rewrite (Hs _ _ _ E1).
  - destruct (nx_edge g v u) as [w|] eqn:E2; [|reflexivity].
    apply Hs in E2. congruence.
Qed.

End CopyFacts.

(** ** What a merge keeps, whether it returns or raises *)

Section CoreFacts.

Context {V : Type} `{NodeId V} {set_order : SetIter V}.

Lemma merge_graph_ok (g : graph V) a b : graph_ok g -> graph_ok (merge_graph g a b).
Proof.
  intros [Hwf [Hd Hl]].
  destruct (nx_has_node g a) eqn:Ea;
    [|rewrite merge_graph_missing by (now left); exact (conj Hwf (conj Hd Hl))].
  destruct (nx_has_node g b) eqn:Eb;
    [|rewrite merge_graph_missing by (now right); exact (conj Hwf (conj Hd Hl))].
  apply nx_has_node_In in Ea, Eb. split; [|split].
  - now apply merge_graph_wf.
  - now apply merge_graph_ids_disjoint.
  - now apply merge_graph_loopless.
Qed.

Lemma merge_graph_pos_drawable a b (g : graph V) (p : positions V) :
  graph_ok g -> drawable g p ->
  drawable (fst (snd (merge_graph_pos a b (g, p)))) (snd (snd (merge_graph_pos a b (g, p)))).
Proof.
  intros [Hwf [Hd Hl]] Hdr.
  destruct (nx_has_node g a) eqn:Ea;
    [|rewrite merge_graph_pos_missing by (now left); exact Hdr].
  destruct (nx_has_node g b) eqn:Eb;
    [|rewrite merge_graph_pos_missing by (now right); exact Hdr].
  apply nx_has_node_In in Ea, Eb.
  intros k. rewrite merge_graph_pos_graph. cbn [fst].
  rewrite (merge_graph_nodes_In g a b k Hwf Hd Ea Eb).
  intros Hk.
  assert (Hk' : (k = joined a b \/ In k (dict_keys p)) /\ k <> a /\ k <> b).
  { destruct Hk as [->|[Hk [Hka Hkb]]].
    - split; [now left|]. split; [apply joined_neq_l | apply joined_neq_r].
    - split; [right; now apply Hdr | tauto]. }
  clear Hk.
  unfold merge_graph_pos, nx_neighbors, pos_getitem, pos_delitem. cbn [fst snd].
  destruct (dict_In_get node_eq_dec g a Ea) as [na Ena]. unfold nx_adj. rewrite Ena.
  destruct (dict_In_get node_eq_dec g b Eb) as [nb Enb]. rewrite Enb.
  destruct (dict_In_get node_eq_dec p a (Hdr a Ea)) as [pa Epa]. rewrite Epa.
  destruct (dict_In_get node_eq_dec p b (Hdr b Eb)) as [pb Epb]. rewrite Epb.
  set (p1 := dict_set node_eq_dec p (joined a b) (midpoint pa pb)).
  assert (H1 : dict_mem node_eq_dec p1 a = true).
  { apply dict_mem_In. unfold p1. apply dict_keys_set_In. right. now apply Hdr. }
  rewrite H1.
  destruct (dict_mem node_eq_dec (dict_del node_eq_dec p1 a) b); cbn [snd];
    rewrite ?dict_keys_del_In; unfold p1; rewrite dict_keys_set_In; tauto.
Qed.

End CoreFacts.

(** ** Leaves and the weight between them *)

Section CutFacts.

Context {set_order : SetIter string}.

Variable g0 : graph string.

Lemma grafo_joined_tokens (a b : string) :
  split_comma (joined a b) = split_comma a ++ split_comma b.
Proof. exact (joined_tokens a b). Qed.

Lemma merge_graph_cut_inv g a b :
  graph_ok g -> cut_inv g0 g -> cut_inv g0 (merge_graph g a b).
Proof.
  intros [Hwf [Hd Hl]] Hc.
  destruct (nx_has_node g a) eqn:Ea;
    [|rewrite merge_graph_missing by (now left); exact Hc].
  destruct (nx_has_node g b) eqn:Eb;
    [|rewrite merge_graph_missing by (now right); exact Hc].
  apply nx_has_node_In in Ea, Eb.
  pose proof (joined_fresh g a b Hd Ea) as Hnew.
  assert (Hold : forall k, In k (nx_nodes (merge_graph g a b)) -> k <> joined a b ->
            In k (nx_nodes g) /\ k <> a /\ k <> b).
  { intros k Hk Hkn. apply (merge_graph_nodes_In g a b k Hwf Hd Ea Eb) in Hk.
    destruct Hk as [->|Hk]; [contradiction | exact Hk]. }
  intros u v Hu Hv Huv.
  destruct (string_dec u (joined a b)) as [->|Hun].
  - destruct (Hold v Hv (fun E => Huv (eq_sym E))) as [Hvg [Hva Hvb]].
    destruct (merge_graph_weight g a b v Hwf Hd Ea Eb Hva Hvb) as [_ [_ [Hw _]]].
    rewrite Hw. unfold cut_weight. rewrite grafo_joined_tokens, leaf_sum_app.
    rewrite (Hc a v Ea Hvg (fun E => Hva (eq_sym E))).
    rewrite (Hc b v Eb Hvg (fun E => Hvb (eq_sym E))). reflexivity.
  - destruct (Hold u Hu Hun) as [Hug [Hua Hub]].
    destruct (string_dec v (joined a b)) as [->|Hvn].
    + destruct (merge_graph_weight g a b u Hwf Hd Ea Eb Hua Hub) as [_ [_ [_ Hw]]].
      rewrite Hw. unfold cut_weight. rewrite grafo_joined_tokens.
      rewrite (leaf_sum_ext _
                 (fun s => leaf_sum (fun t => weight_or_0 g0 s t) (split_comma a)
                           + leaf_sum (fun t => weight_or_0 g0 s t) (split_comma b))%Q)
        by (intros t _; apply leaf_sum_app).
      rewrite leaf_sum_plus.
      rewrite (weight_or_0_sym g a u Hwf), (weight_or_0_sym g b u Hwf).
      rewrite (Hc u a Hug Ea Hua), (Hc u b Hug Eb Hub). reflexivity.
    + destruct (Hold v Hv Hvn) as [Hvg [Hva Hvb]].
      rewrite <- (Hc u v Hug Hvg Huv).
      unfold weight_or_0. rewrite !nx_get_edge_data_edge.
      rewrite (merge_graph_edge g a b Hwf Ea Eb Hnew).
      cbn [node_eq_dec Grafo.str_node].
      destruct (string_dec u (joined a b)); [contradiction|].
      destruct (string_dec v (joined a b)); [contradiction|].
      destruct (in_dec string_dec u [a; b]) as [Hi|_];
        [destruct Hi as [<-|[<-|[]]]; contradiction|].
      destruct (in_dec string_dec v [a; b]) as [Hi|_];
        [destruct Hi as [<-|[<-|[]]]; contradiction|].
      reflexivity.
Qed.

Lemma merge_graph_leaves_cover g a b :
  graph_ok g -> leaves_cover g0 g -> leaves_cover g0 (merge_graph g a b).
Proof.
  intros [Hwf [Hd Hl]] [Hin Hall].
  destruct (nx_has_node g a) eqn:Ea;
    [|rewrite merge_graph_missing by (now left); now split].
  destruct (nx_has_node g b) eqn:Eb;
    [|rewrite merge_graph_missing by (now right); now split].
  apply nx_has_node_In in Ea, Eb. split.
  - intros x t Hx Ht. apply (merge_graph_nodes_In g a b x Hwf Hd Ea Eb) in Hx.
    destruct Hx as [->|[Hx _]]; [|now apply (Hin x)].
    rewrite grafo_joined_tokens in Ht. apply in_app_or in Ht.
    destruct Ht as [Ht|Ht]; [now apply (Hin a) | now apply (Hin b)].
  - intros t Ht. destruct (Hall t Ht) as [x [Hx Hxt]].
    destruct (string_dec x a) as [->|Hxa]; [|destruct (string_dec x b) as [->|Hxb]].
    + exists (joined a b). split.
      * apply (merge_graph_nodes_In g a b _ Hwf Hd Ea Eb). now left.
      * rewrite grafo_joined_tokens. apply in_or_app. now left.
    + exists (joined a b). split.
      * apply (merge_graph_nodes_In g a b _ Hwf Hd Ea Eb). now left.
      * rewrite grafo_joined_tokens. apply in_or_app. now right.
    + exists x. split; [|assumption].
      apply (merge_graph_nodes_In g a b _ Hwf Hd Ea Eb). right. tauto.
Qed.

Hypothesis g0_leaves : forall x, In x (nx_nodes g0) -> split_comma x = [x].

Lemma cut_inv_start : cut_inv g0 g0.
Proof.
  intros u v Hu Hv _. unfold cut_weight.
  rewrite (g0_leaves u Hu), (g0_leaves v Hv). cbn [leaf_sum]. ring.
Qed.

Lemma leaves_cover_start : leaves_cover g0 g0.
Proof.
  split.
  - intros x t Hx Ht. rewrite (g0_leaves x Hx) in Ht. destruct Ht as [<-|[]]. exact Hx.
  - intros t Ht. exists t. split; [assumption|]. rewrite (g0_leaves t Ht). now left.
Qed.

Lemma cut_inv_same g g' : same_graph g' g -> cut_inv g0 g -> cut_inv g0 g'.
Proof.
  intros Hs Hc u v Hu Hv Huv. rewrite (same_graph_weight g' g u v Hs).
  destruct Hs as [Hn _]. rewrite Hn in Hu, Hv. now apply Hc.
Qed.

Lemma leaves_cover_same g g' : same_graph g' g -> leaves_cover g0 g -> leaves_cover g0 g'.
Proof. intros [Hn _] Hc. unfold leaves_cover. now rewrite Hn. Qed.

Hypothesis g0_ok : graph_ok g0.

(** The invariant of the engine is kept by a merge, by moving a node and by
    rebuilding the graph from the snapshot. *)
Lemma engine_inv_merge g p o op a b :
  engine_inv g0 g p o op ->
  engine_inv g0 (fst (snd (merge_graph_pos a b (g, p))))
    (snd (snd (merge_graph_pos a b (g, p)))) o op.
Proof.
  intros [Hok [Hdr [Hc [Hlv Ho]]]].
  split; [|split; [|split; [|split]]]; try exact Ho.
  - rewrite merge_graph_pos_graph. now apply merge_graph_ok.
  - now apply merge_graph_pos_drawable.
  - rewrite merge_graph_pos_graph. now apply merge_graph_cut_inv.
  - rewrite merge_graph_pos_graph. now apply merge_graph_leaves_cover.
Qed.

Lemma engine_inv_move g p o op k xy :
  engine_inv g0 g p o op -> engine_inv g0 g (dict_set string_dec p k xy) o op.
Proof.
  intros [Hok [Hdr Hrest]]. split; [assumption|]. split; [|assumption].
  intros x Hx. apply dict_keys_set_In. right. now apply Hdr.
Qed.

Lemma engine_inv_reset g p o op :
  engine_inv g0 g p o op -> engine_inv g0 (nx_rebuild o) op o op.
Proof.
  intros [_ [_ [_ [_ [Hwf [Hs Hdr]]]]]].
  pose proof (nx_rebuild_same_graph o Hwf) as Hr.
  pose proof (same_graph_trans _ _ _ Hr Hs) as Hr0.
  split; [|split; [|split; [|split]]].
  - apply (same_graph_ok _ g0 Hr0); [apply nx_rebuild_wf | exact g0_ok].
  - intros k Hk. destruct Hr as [Hn _]. rewrite Hn in Hk. now apply Hdr.
  - apply (cut_inv_same g0 _ Hr0), cut_inv_start.
  - apply (leaves_cover_same g0 _ Hr0), leaves_cover_start.
  - exact (conj Hwf (conj Hs Hdr)).
Qed.

End CutFacts.

(** ** The loops of [plot_graph] *)

Lemma fold_outcome_app {A X : Type} (f : A -> X -> outcome A) (l1 l2 : list X) (a : A) :
  fold_outcome f (l1 ++ l2) a = obind (fold_outcome f l1 a) (fold_outcome f l2).
Proof.
  revert a. induction l1 as [|x l1 IH]; intros a; cbn [fold_outcome app obind]; [reflexivity|].
  destruct (f a x) as [b|e]; cbn [obind]; [apply IH | reflexivity].
Qed.

Lemma fold_outcome_map {A X Y : Type} (f : A -> Y -> outcome A) (h : X -> Y)
    (l : list X) (a : A) :
  fold_outcome f (map h l) a = fold_outcome (fun a x => f a (h x)) l a.
Proof.
  revert a. induction l as [|x l IH]; intros a; cbn [fold_outcome map]; [reflexivity|].
  destruct (f a (h x)) as [b|e]; cbn [obind]; [apply IH | reflexivity].
Qed.

Lemma fold_outcome_nested {A : Type} (f : A -> nat * nat -> outcome A)
    (js : nat -> list nat) (l : list nat) (a : A) :
  fold_outcome (fun a i => fold_outcome (fun a j => f a (i, j)) (js i) a) l a
  = fold_outcome f (flat_map (fun i => map (fun j => (i, j)) (js i)) l) a.
Proof.
  revert a. induction l as [|i l IH]; intros a; cbn [fold_outcome flat_map]; [reflexivity|].
  rewrite fold_outcome_app, fold_outcome_map.
  destruct (fold_outcome (fun a j => f a (i, j)) (js i) a) as [b|e]; cbn [obind];
    [apply IH | reflexivity].
Qed.

Lemma fold_outcome_returns {A X : Type} (f : A -> X -> outcome A) (l : list X) (a : A) :
  (forall x b, In x l -> exists b', f b x = Return b') ->
  exists a', fold_outcome f l a = Return a'.
Proof.
  revert a. induction l as [|x l IH]; intros a Hf; cbn [fold_outcome]; [eauto|].
  destruct (Hf x a (or_introl eq_refl)) as [b Hb]. rewrite Hb. cbn [obind].
  apply IH. intros y c Hy. apply Hf. now right.
Qed.

Lemma fold_outcome_raises {A X : Type} (f : A -> X -> outcome A) (l : list X) (a : A) e :
  fold_outcome f l a = Raise e -> exists x b, In x l /\ f b x = Raise e.
Proof.
  revert a. induction l as [|x l IH]; intros a; cbn [fold_outcome]; [discriminate|].
  destruct (f a x) as [b|e'] eqn:E; cbn [obind].
  - intros Hr. destruct (IH b Hr) as [y [c [Hy Hc]]]. exists y, c. split; [now right | assumption].
  - intros [= ->]. exists x, a. split; [now left | assumption].
Qed.

Lemma upper_pairs_In (n i j : nat) : In (i, j) (upper_pairs n) <-> i < j < n.
Proof.
  unfold upper_pairs. rewrite in_flat_map. split.
  - intros [i' [Hi Hj]]. apply in_map_iff in Hj. destruct Hj as [j' [[= -> ->] Hj]].
    apply in_seq in Hi, Hj. lia.
  - intros Hij. exists i. split; [apply in_seq; lia|].
    apply in_map_iff. exists j. split; [reflexivity | apply in_seq; lia].
Qed.

Lemma NoDup_flat_map_pairs (js : nat -> list nat) (l : list nat) :
  NoDup l -> (forall i, NoDup (js i)) ->
  NoDup (flat_map (fun i => map (fun j => (i, j)) (js i)) l).
Proof.
  intros Hl Hjs. induction Hl as [|i l Hi Hl IH]; cbn [flat_map]; [constructor|].
  apply NoDup_app.
  - apply Finite.Injective_map_NoDup; [|apply Hjs]. intros x y [= E]. exact E.
  - exact IH.
  - intros [i' j'] H1 H2. apply in_map_iff in H1. destruct H1 as [j [[= -> ->] _]].
    apply in_flat_map in H2. destruct H2 as [i'' [Hi'' H2]].
    apply in_map_iff in H2. destruct H2 as [j'' [[= -> ->] _]]. contradiction.
Qed.

Lemma upper_pairs_NoDup (n : nat) : NoDup (upper_pairs n).
Proof. apply NoDup_flat_map_pairs; [apply seq_NoDup | intros i; apply seq_NoDup]. Qed.

Lemma matrix_entry_row (matrix : list (list Q)) (i j : nat) :
  (exists w, matrix_entry matrix i j = Return w)
  <-> exists row, nth_error matrix i = Some row /\ j < List.length row.
Proof.
  unfold matrix_entry, py_index. split.
  - intros [w Hw]. destruct (nth_error matrix i) as [row|]; cbn [obind] in Hw; [|discriminate].
    exists row. split; [reflexivity|]. apply nth_error_Some.
    destruct (nth_error row j); [discriminate | discriminate].
  - intros [row [-> Hj]]. cbn [obind]. apply nth_error_Some in Hj.
    destruct (nth_error row j) as [w|]; [eauto | contradiction].
Qed.

Lemma matrix_entry_raises (matrix : list (list Q)) (i j : nat) e :
  matrix_entry matrix i j = Raise e -> e = IndexError.
Proof.
  unfold matrix_entry, py_index.
  destruct (nth_error matrix i) as [row|]; cbn [obind]; [|congruence].
  destruct (nth_error row j); congruence.
Qed.

Section MatrixGraph.

Context {V : Type} `{NodeId V}.

Variable label : nat -> V.
Hypothesis label_inj : forall i j, label i = label j -> i = j.
Variable matrix : list (list Q).

Lemma nx_edge_add_edge_joins (g : graph V) (i j : nat) (w : Q) (x y : V) :
  i <> j ->
  (joins label x y i j -> nx_edge (nx_add_edge g (label i) (label j) w) x y = Some w) /\
  (~ joins label x y i j -> nx_edge (nx_add_edge g (label i) (label j) w) x y = nx_edge g x y).
Proof.
  intros Hij. rewrite nx_edge_add_edge. unfold joins.
  assert (Hl : label i <> label j) by (intros E; apply Hij, label_inj, E).
  destruct (node_eq_dec x (label i)) as [Exi|Nxi];
    destruct (node_eq_dec y (label j)) as [Eyj|Nyj];
    destruct (node_eq_dec x (label j)) as [Exj|Nxj];
    destruct (node_eq_dec y (label i)) as [Eyi|Nyi];
    split; intros HJ; try reflexivity; try congruence; try tauto.
Qed.

Lemma joins_same (x y : V) (i j i' j' : nat) :
  i < j -> i' < j' -> joins label x y i j -> joins label x y i' j' -> (i, j) = (i', j').
Proof.
  unfold joins. intros Hij Hij' [[-> ->]|[-> ->]] [[E1 E2]|[E1 E2]];
    apply label_inj in E1, E2; subst; first [reflexivity | lia].
Qed.

Lemma entries_fold (n : nat) (rest done : list (nat * nat)) (g g' : graph V) :
  entries_inv label matrix n done g ->
  NoDup (done ++ rest) ->
  (forall i j, In (i, j) (done ++ rest) -> i < j < n) ->
  fold_outcome (add_entry label matrix) rest g = Return g' ->
  entries_inv label matrix n (done ++ rest) g' /\
  forall i j, In (i, j) rest -> exists w, matrix_entry matrix i j = Return w.
Proof.
  revert done g. induction rest as [|[i j] rest IH]; intros done g Hinv Hnd Hlt.
  - cbn [fold_outcome]. intros [= <-]. rewrite app_nil_r. split; [assumption|]. intros i j [].
  - cbn [fold_outcome]. unfold add_entry at 1. cbn [fst snd].
    destruct (matrix_entry matrix i j) as [w|e] eqn:Ew; cbn [obind]; [|discriminate].
    assert (Hij : i < j < n) by (apply Hlt, in_or_app; right; now left).
    assert (Hfresh : ~ In (i, j) done).
    { intros Hin. apply NoDup_remove_2 in Hnd. apply Hnd, in_or_app. now left. }
    assert (Hdone : forall i' j', In (i', j') done -> i' < j')
      by (intros i' j' Hin; apply (Hlt i' j'), in_or_app; now left).
    replace (done ++ (i, j) :: rest) with ((done ++ [(i, j)]) ++ rest) in *
      by (now rewrite <- app_assoc).
    destruct Hinv as [Hn He].
    assert (Hstep : entries_inv label matrix n (done ++ [(i, j)])
              (if Qeq_bool w 0 then g else nx_add_edge g (label i) (label j) w)).
    { destruct (Qeq_bool w 0) eqn:Ez.
      - split; [assumption|]. intros x y q. rewrite He. split.
        + intros [i' [j' [Hin Hr]]]. exists i', j'. split; [apply in_or_app; now left | exact Hr].
        + intros [i' [j' [Hin [Hj [Hq Hnz]]]]]. apply in_app_or in Hin.
          destruct Hin as [Hin|[[= <- <-]|[]]]; [now exists i', j'|].
          rewrite Ew in Hq. injection Hq as <-. congruence.
      - split.
        + rewrite nx_nodes_add_edge_old; [assumption | |]; rewrite Hn; apply in_map, in_seq; lia.
        + intros x y q.
          destruct (nx_edge_add_edge_joins g i j w x y ltac:(lia)) as [Hyes Hno]. split.
          * intros Hq.
            assert (Hdec : joins label x y i j \/ ~ joins label x y i j).
            { unfold joins.
              destruct (node_eq_dec x (label i)); destruct (node_eq_dec y (label j));
                destruct (node_eq_dec x (label j)); destruct (node_eq_dec y (label i)); tauto. }
            destruct Hdec as [Hj|Hj].
            -- rewrite (Hyes Hj) in Hq. injection Hq as <-.
               exists i, j. split; [apply in_or_app; right; now left|]. now repeat split.
            -- rewrite (Hno Hj) in Hq. apply He in Hq.
               destruct Hq as [i' [j' [Hin Hr]]]. exists i', j'.
               split; [apply in_or_app; now left | exact Hr].
          * intros [i' [j' [Hin [Hj [Hq Hnz]]]]]. apply in_app_or in Hin.
            destruct Hin as [Hin|[[= <- <-]|[]]].
            -- rewrite Hno.
               ++ apply He. now exists i', j'.
               ++ intros Hj'. apply Hfresh.
                  rewrite (joins_same x y i j i' j'); [assumption | lia | | assumption | assumption].
                  now apply Hdone.
            -- rewrite (Hyes Hj). congruence. }
    intros Hfold.
    assert (Hfold' : fold_outcome (add_entry label matrix) rest
                       (if Qeq_bool w 0 then g else nx_add_edge g (label i) (label j) w)
                     = Return g')
      by (destruct (Qeq_bool w 0); exact Hfold).
    destruct (IH _ _ Hstep Hnd Hlt Hfold') as [Hres Hrest].
    split; [exact Hres|].
    intros i' j' [[= <- <-]|Hin]; [eauto | now apply Hrest].
Qed.

Lemma entries_start (n : nat) :
  entries_inv label matrix n [] (nx_add_nodes_from [] (map label (seq 0 n))).
Proof.
  split.
  - rewrite nx_nodes_add_nodes_from; [reflexivity|]. cbn [nx_nodes dict_keys map app].
    apply Finite.Injective_map_NoDup; [exact label_inj | apply seq_NoDup].
  - intros x y w. rewrite nx_edge_add_nodes_from. split; [discriminate|].
    intros [i [j [[] _]]].
Qed.

(** What the loops of [plot_graph] leave, when they return. *)
Lemma matrix_loops_spec (n : nat) (g : graph V) :
  fold_outcome (add_entry label matrix) (upper_pairs n) (nx_add_nodes_from [] (map label (seq 0 n)))
  = Return g ->
  nx_nodes g = map label (seq 0 n) /\
  (forall i j, i < j < n ->
     exists w, matrix_entry matrix i j = Return w /\
       nx_edge g (label i) (label j) = (if Qeq_bool w 0 then None else Some w) /\
       nx_edge g (label j) (label i) = (if Qeq_bool w 0 then None else Some w)) /\
  (forall x y w, nx_edge g x y = Some w ->
     exists i j, i < j < n /\ joins label x y i j /\ matrix_entry matrix i j = Return w) /\
  nx_loopless g.
Proof.
  intros Hfold.
  destruct (entries_fold n (upper_pairs n) [] _ g (entries_start n)) as [[Hn He] Hall];
    try assumption.
  - apply upper_pairs_NoDup.
  - intros i j. apply upper_pairs_In.
  - cbn [app] in He.
    assert (Hback : forall x y w, nx_edge g x y = Some w ->
              exists i j, i < j < n /\ joins label x y i j /\ matrix_entry matrix i j = Return w).
    { intros x y w Hq. apply He in Hq. destruct Hq as [i [j [Hin [Hj [Hq _]]]]].
      exists i, j. split; [now apply upper_pairs_In | now split]. }
    split; [assumption|]. split; [|split; [exact Hback|]].
    + intros i j Hij. destruct (Hall i j) as [w Hw]; [now apply upper_pairs_In|].
      exists w. split; [assumption|].
      assert (Hboth : forall x y, joins label x y i j ->
                nx_edge g x y = if Qeq_bool w 0 then None else Some w).
      { intros x y Hj. destruct (Qeq_bool w 0) eqn:Ez.
        - destruct (nx_edge g x y) as [q|] eqn:Eq; [|reflexivity].
          apply He in Eq. destruct Eq as [i' [j' [Hin [Hj' [Hq Hnz]]]]].
          apply upper_pairs_In in Hin.
          assert (E : (i, j) = (i', j')) by (apply (joins_same x y); [lia | lia | assumption | assumption]).
          injection E as <- <-. rewrite Hw in Hq. injection Hq as <-. congruence.
        - apply He. exists i, j. split; [now apply upper_pairs_In|]. now repeat split. }
      split; apply Hboth; [left | right]; now split.
    + intros u. destruct (nx_edge g u u) as [w|] eqn:Eu; [|reflexivity].
      apply Hback in Eu. destruct Eu as [i [j [Hij [[[-> E]|[-> E]] _]]]];
        apply label_inj in E; lia.
Qed.

Lemma matrix_loops_return (n : nat) :
  (exists g, fold_outcome (add_entry label matrix) (upper_pairs n)
               (nx_add_nodes_from [] (map label (seq 0 n))) = Return g)
  <-> forall i, i + 1 < n -> exists row, nth_error matrix i = Some row /\ n <= List.length row.
Proof.
  split.
  - intros [g Hg] i Hi.
    destruct (matrix_loops_spec n g Hg) as [_ [Hent _]].
    destruct (Hent i (n - 1) ltac:(lia)) as [w [Hw _]].
    assert (Hex : exists w, matrix_entry matrix i (n - 1) = Return w) by eauto.
    apply matrix_entry_row in Hex. destruct Hex as [row [Hrow Hlen]].
    exists row. split; [assumption | lia].
  - intros Hrows. apply fold_outcome_returns. intros [i j] b Hin.
    apply upper_pairs_In in Hin. unfold add_entry. cbn [fst snd].
    assert (Hex : exists w, matrix_entry matrix i j = Return w).
    { apply matrix_entry_row. destruct (Hrows i ltac:(lia)) as [row [Hrow Hlen]].
      exists row. split; [assumption | lia]. }
    destruct Hex as [w ->]. cbn [obind]. destruct (Qeq_bool w 0); eauto.
Qed.

Lemma matrix_loops_raise (n : nat) (g : graph V) e :
  fold_outcome (add_entry label matrix) (upper_pairs n) g = Raise e -> e = IndexError.
Proof.
  intros Hr. apply fold_outcome_raises in Hr. destruct Hr as [[i j] [b [_ Hb]]].
  unfold add_entry in Hb. cbn [fst snd] in Hb.
  destruct (matrix_entry matrix i j) as [w|e'] eqn:Ew; cbn [obind] in Hb.
  - destruct (Qeq_bool w 0); discriminate.
  - injection Hb as <-. eapply matrix_entry_raises; eauto.
Qed.

End MatrixGraph.

Lemma grafo_matrix_graph_flat (n : nat) (matrix : list (list Q)) :
  Grafo.matrix_graph n matrix
  = fold_outcome (add_entry py_str_nat matrix) (upper_pairs n)
      (nx_add_nodes_from [] (map py_str_nat (seq 0 n))).
Proof.
  unfold Grafo.matrix_graph, upper_pairs.
  rewrite <- (fold_outcome_nested (add_entry py_str_nat matrix)). reflexivity.
Qed.

Lemma grafo1_matrix_graph_flat (n : nat) (matrix : list (list Q)) :
  Grafo1.matrix_graph n matrix
  = fold_outcome (add_entry (fun i => Grafo1.IntNode (Z.of_nat i)) matrix) (upper_pairs n)
      (nx_add_nodes_from [] (map (fun i => Grafo1.IntNode (Z.of_nat i)) (seq 0 n))).
Proof.
  unfold Grafo1.matrix_graph, upper_pairs.
  rewrite <- (fold_outcome_nested (add_entry (fun i => Grafo1.IntNode (Z.of_nat i)) matrix)).
  reflexivity.
Qed.

(** ** [int(str(i))] *)

Lemma py_lstrip_no_space (s : string) : no_space s = true -> py_lstrip s = s.
Proof.
  destruct s as [|c s]; cbn [no_space py_lstrip]; [reflexivity|].
  destruct (is_space c); [discriminate | reflexivity].
Qed.

Lemma py_rstrip_no_space (s : string) : no_space s = true -> py_rstrip s = s.
Proof.
  induction s as [|c s IH]; cbn [no_space py_rstrip]; [reflexivity|].
  destruct (is_space c); cbn [negb andb]; [discriminate|].
  intros Hs. now rewrite IH.
Qed.

Lemma py_strip_no_space (s : string) : no_space s = true -> py_strip s = s.
Proof.
  intros Hs. unfold py_strip. rewrite (py_lstrip_no_space s Hs). now apply py_rstrip_no_space.
Qed.

Lemma string_of_uint_no_space (d : Decimal.uint) :
  no_space (NilEmpty.string_of_uint d) = true.
Proof.
  induction d; cbn [NilEmpty.string_of_uint no_space]; [reflexivity| | | | | | | | | |];
    rewrite IHd; reflexivity.
Qed.

Lemma py_digits_uint (d : Decimal.uint) (a : nat) (b : bool) :
  py_digits (NilEmpty.string_of_uint d) (Z.of_nat a) b
  = match d with
    | Decimal.Nil => if b then Some (Z.of_nat a) else None
    | _ => Some (Z.of_nat (Nat.of_uint_acc d a))
    end.
Proof.
  assert (Hnil : forall d' a',
            match d' with
            | Decimal.Nil => if true then Some (Z.of_nat a') else None
            | _ => Some (Z.of_nat (Nat.of_uint_acc d' a'))
            end = Some (Z.of_nat (Nat.of_uint_acc d' a')))
    by (intros [] a'; reflexivity).
  revert a b. induction d; intros a b; [reflexivity| | | | | | | | | |];
    cbn [NilEmpty.string_of_uint py_digits Nat.of_uint_acc];
    match goal with
    | |- context [is_digit ?c] =>
        change (is_digit c) with true; cbv iota;
        let v := eval vm_compute in (digit_val c) in change (digit_val c) with v
    end;
    match goal with
    | |- py_digits _ ?z true = Some (Z.of_nat (Nat.of_uint_acc _ ?n)) =>
        replace z with (Z.of_nat n)
          by (rewrite ?Nat2Z.inj_succ, Nat.tail_mul_spec, Nat2Z.inj_mul; simpl Z.of_nat; lia)
    end;
    rewrite IHd; apply Hnil.
Qed.

Lemma to_uint_not_nil (i : nat) : Nat.to_uint i <> Decimal.Nil.
Proof.
  intros E. pose proof (DecimalNat.Unsigned.of_to i) as Hi. rewrite E in Hi.
  cbn in Hi. subst i. discriminate.
Qed.

Lemma py_int_str_nat (i : nat) : py_int (py_str_nat i) = Return (Z.of_nat i).
Proof.
  unfold py_int, py_str_nat.
  rewrite (py_strip_no_space _ (string_of_uint_no_space _)).
  pose proof (py_digits_uint (Nat.to_uint i) 0 false) as Hd.
  pose proof (to_uint_not_nil i) as Hn.
  pose proof (DecimalNat.Unsigned.of_to i) as Hi. unfold Nat.of_uint in Hi.
  change (Z.of_nat 0) with 0%Z in Hd.
  destruct (Nat.to_uint i) as [|d|d|d|d|d|d|d|d|d|d]; [contradiction| | | | | | | | | |];
    rewrite Hi in Hd;
    cbn [NilEmpty.string_of_uint] in *;
    match goal with
    | |- context [Ascii.eqb ?c (ascii_of_nat 43)] =>
        change (Ascii.eqb c (ascii_of_nat 43)) with false;
        change (Ascii.eqb c (ascii_of_nat 45)) with false
    end; cbv iota; rewrite Hd; reflexivity.
Qed.

Lemma py_str_nat_one_token (i : nat) : split_comma (py_str_nat i) = [py_str_nat i].
Proof. apply string_of_uint_one_token. Qed.

Lemma parses_str_nat (i : nat) : parses (py_str_nat i).
Proof.
  apply parses_tokens. intros t Ht. rewrite py_str_nat_one_token in Ht.
  destruct Ht as [<-|[]]. exists (Z.of_nat i). apply py_int_str_nat.
Qed.

(** ** What every handler of grafo.py keeps *)

Section GrafoHandlers.

Context {set_order : SetIter string}.

(** A property of the graph, the positions and the snapshot that a merge, a
    move of a node and a rebuild from the snapshot keep. *)
Variable P : graph string -> positions string -> graph string -> positions string -> Prop.

Hypothesis P_merge : forall g p o op a b,
  P g p o op ->
  P (fst (snd (merge_graph_pos a b (g, p)))) (snd (snd (merge_graph_pos a b (g, p)))) o op.

Hypothesis P_move : forall g p o op k xy,
  P g p o op -> P g (dict_set string_dec p k xy) o op.

Hypothesis P_reset : forall g p o op, P g p o op -> P (nx_rebuild o) op o op.

Lemma grafo_merge_nodes_holds a b self :
  grafo_holds P self -> grafo_holds P (snd (Grafo.merge_nodes a b self)).
Proof. intros Hs. unfold grafo_holds, Grafo.merge_nodes. cbn. now apply P_merge. Qed.

Lemma grafo_drag_merge_holds a b self :
  grafo_holds P self -> grafo_holds P (snd (Grafo.drag_merge a b self)).
Proof.
  intros Hs. pose proof (grafo_merge_nodes_holds a b self Hs) as Hm.
  unfold Grafo.drag_merge, bind, modify.
  destruct (Grafo.merge_nodes a b self) as [[[]|e] s']; exact Hm.
Qed.

Lemma grafo_fuse_holds self :
  grafo_holds P self -> grafo_holds P (snd (Grafo.fuse_max_edge_to_merged self)).
Proof.
  intros Hs. unfold Grafo.fuse_max_edge_to_merged.
  destruct (negb (dict_mem string_dec (Grafo.pos self) (Grafo.merged_node self)));
    [exact Hs|].
  unfold bind, Grafo.find_max_edge_node.
  destruct (Grafo.find_max_edge_node_in (Grafo.G self) (Grafo.merged_node self))
    as [[n|]|e]; cbn [snd]; try exact Hs.
  pose proof (grafo_merge_nodes_holds (Grafo.merged_node self) n self Hs) as Hm.
  unfold modify.
  destruct (Grafo.merge_nodes (Grafo.merged_node self) n self) as [[[]|e] s']; exact Hm.
Qed.

Lemma grafo_perform_holds act self :
  grafo_holds P self -> grafo_holds P (snd (Grafo.perform act self)).
Proof.
  intros Hs. destruct act as [a b|]; cbn [Grafo.perform].
  - now apply grafo_drag_merge_holds.
  - now apply grafo_fuse_holds.
Qed.

Lemma grafo_perform_all_holds acts self :
  grafo_holds P self -> grafo_holds P (Grafo.perform_all acts self).
Proof.
  revert self. induction acts as [|act acts IH]; intros self Hs; [exact Hs|].
  cbn [Grafo.perform_all]. apply IH. now apply grafo_perform_holds.
Qed.

Lemma grafo_merge_each_holds l self :
  grafo_holds P self -> grafo_holds P (snd (Grafo.merge_each l self)).
Proof.
  revert self. induction l as [|[a b] l IH]; intros self Hs; [exact Hs|].
  rewrite grafo_merge_each_cons.
  pose proof (grafo_merge_nodes_holds a b self Hs) as Hm.
  destruct (Grafo.merge_nodes a b self) as [[[]|e] s']; cbn [snd] in *;
    [now apply IH | exact Hm].
Qed.

Lemma grafo_reset_graph_holds self :
  grafo_holds P self -> grafo_holds P (snd (Grafo.reset_graph self)).
Proof.
  intros Hs. rewrite grafo_reset_graph_unfold.
  match goal with
  | |- context [Grafo.merge_each ?l ?s] =>
      assert (Hm : grafo_holds P (snd (Grafo.merge_each l s)))
        by (apply grafo_merge_each_holds; unfold grafo_holds; cbn;
            exact (P_reset _ _ _ _ Hs));
      destruct (Grafo.merge_each l s) as [[[]|e] s']
  end; exact Hm.
Qed.

Lemma grafo_on_enter_holds self :
  grafo_holds P self -> grafo_holds P (snd (Grafo.on_enter self)).
Proof.
  intros Hs. rewrite grafo_on_enter_unfold.
  pose proof (grafo_fuse_holds self Hs) as Hf.
  destruct (Grafo.fuse_max_edge_to_merged self) as [[[]|e] s1]; cbn [snd] in *;
    [|exact Hf].
  destruct (nx_number_of_nodes (Grafo.G s1) =? 1); [|exact Hf].
  destruct (py_index_from_end (Grafo.merged_nodes s1) 3) as [m3|e]; [|exact Hf].
  destruct (py_index_from_end (Grafo.merged_nodes s1) 1) as [m1|e]; [|exact Hf].
  unfold bind, Grafo.shrink_last_merged.
  cbn [Grafo.last_merged_nodes Grafo.set_last_merged_nodes].
  destruct (Grafo.find_nodes s1 m3 m1) as [|n1 [|n2 [|n3 l]]]; cbn [snd]; try exact Hf.
  apply grafo_reset_graph_holds. exact Hf.
Qed.

Lemma grafo_on_backspace_holds fuel self :
  grafo_holds P self -> grafo_holds P (snd (Grafo.on_backspace fuel self)).
Proof.
  revert self. induction fuel as [|fuel IH]; intros self Hs; cbn [Grafo.on_backspace];
    destruct (2 <? nx_number_of_nodes (Grafo.G self)); try exact Hs.
  unfold bind. pose proof (grafo_fuse_holds self Hs) as Hf.
  destruct (Grafo.fuse_max_edge_to_merged self) as [[[]|e] s1]; cbn [snd] in *;
    [now apply IH | exact Hf].
Qed.

Lemma grafo_on_key_press_holds fuel k self :
  grafo_holds P self -> grafo_holds P (snd (Grafo.on_key_press fuel k self)).
Proof.
  intros Hs. destruct k; cbn [Grafo.on_key_press].
  - now apply grafo_on_enter_holds.
  - now apply grafo_on_backspace_holds.
  - exact Hs.
Qed.

Lemma grafo_on_press_holds event self :
  grafo_holds P self -> grafo_holds P (Grafo.on_press event self).
Proof.
  intros Hs. unfold Grafo.on_press. destruct event as [xy|]; [|exact Hs].
  destruct (find _ (Grafo.pos self)); exact Hs.
Qed.

Lemma grafo_on_motion_holds event self :
  grafo_holds P self -> grafo_holds P (Grafo.on_motion event self).
Proof.
  intros Hs. unfold Grafo.on_motion.
  destruct (Grafo.selected_node self) as [sel|]; [|exact Hs].
  destruct event as [xy|]; [|exact Hs].
  unfold grafo_holds. cbn. now apply P_move.
Qed.

Lemma grafo_on_release_holds event self :
  grafo_holds P self -> grafo_holds P (snd (Grafo.on_release event self)).
Proof.
  intros Hs. unfold Grafo.on_release.
  destruct (Grafo.selected_node self) as [sel|]; [|exact Hs].
  destruct event as [xy|].
  - destruct (find _ (Grafo.pos self)) as [e|]; [|exact Hs].
    pose proof (grafo_drag_merge_holds sel (fst e) self Hs) as Hm.
    destruct (Grafo.drag_merge sel (fst e) self) as [[[]|ex] s']; exact Hm.
  - destruct (existsb _ (Grafo.pos self)); exact Hs.
Qed.

Lemma grafo_handle_holds fuel ev self :
  grafo_holds P self -> grafo_holds P (Grafo.handle fuel ev self).
Proof.
  intros Hs. destruct ev; cbn [Grafo.handle].
  - now apply grafo_on_press_holds.
  - now apply grafo_on_motion_holds.
  - now apply grafo_on_release_holds.
  - now apply grafo_on_key_press_holds.
Qed.

Lemma grafo_handle_all_holds fuel evs self :
  grafo_holds P self -> grafo_holds P (Grafo.handle_all fuel evs self).
Proof.
  revert self. induction evs as [|ev evs IH]; intros self Hs; [exact Hs|].
  cbn [Grafo.handle_all]. apply IH. now apply grafo_handle_holds.
Qed.

End GrafoHandlers.

(** ** What every handler of grafo1.py keeps *)

Section Grafo1Handlers.

Context {set_order : SetIter Grafo1.node}.

Variable P : graph Grafo1.node -> positions Grafo1.node ->
             graph Grafo1.node -> positions Grafo1.node -> Prop.

Hypothesis P_merge : forall g p o op a b,
  P g p o op ->
  P (fst (snd (merge_graph_pos a b (g, p)))) (snd (snd (merge_graph_pos a b (g, p)))) o op.

Hypothesis P_move : forall g p o op k xy,
  P g p o op -> P g (dict_set Grafo1.node_dec p k xy) o op.

Hypothesis P_reset : forall g p o op, P g p o op -> P (nx_rebuild o) op o op.

Lemma grafo1_merge_nodes_holds a b self :
  grafo1_holds P self -> grafo1_holds P (snd (Grafo1.merge_nodes a b self)).
Proof. intros Hs. unfold grafo1_holds, Grafo1.merge_nodes. cbn. now apply P_merge. Qed.

Lemma grafo1_fuse_holds self :
  grafo1_holds P self -> grafo1_holds P (snd (Grafo1.fuse_max_edge_to_merged self)).
Proof.
  intros Hs. unfold Grafo1.fuse_max_edge_to_merged.
  destruct (negb (dict_mem Grafo1.node_dec (Grafo1.pos self) (Grafo1.merged_node self)));
    [exact Hs|].
  unfold bind, Grafo1.find_max_edge_node.
  destruct (Grafo1.find_max_edge_node_in (Grafo1.G self) (Grafo1.merged_node self))
    as [[n|]|e]; cbn [snd]; try exact Hs.
  pose proof (grafo1_merge_nodes_holds (Grafo1.merged_node self) n self Hs) as Hm.
  unfold modify.
  destruct (Grafo1.merge_nodes (Grafo1.merged_node self) n self) as [[[]|e] s']; exact Hm.
Qed.

Lemma grafo1_perform_holds act self :
  grafo1_holds P self -> grafo1_holds P (snd (Grafo1.perform act self)).
Proof.
  intros Hs. destruct act as [a b|]; cbn [Grafo1.perform].
  - now apply grafo1_merge_nodes_holds.
  - now apply grafo1_fuse_holds.
Qed.

Lemma grafo1_perform_all_holds acts self :
  grafo1_holds P self -> grafo1_holds P (Grafo1.perform_all acts self).
Proof.
  revert self. induction acts as [|act acts IH]; intros self Hs; [exact Hs|].
  cbn [Grafo1.perform_all]. apply IH. now apply grafo1_perform_holds.
Qed.

Lemma grafo1_reset_graph_holds self :
  grafo1_holds P self -> grafo1_holds P (snd (Grafo1.reset_graph self)).
Proof. intros Hs. unfold grafo1_holds, Grafo1.reset_graph. cbn. exact (P_reset _ _ _ _ Hs). Qed.

Lemma grafo1_on_key_press_holds k self :
  grafo1_holds P self -> grafo1_holds P (snd (Grafo1.on_key_press k self)).
Proof.
  intros Hs. destruct k; cbn [Grafo1.on_key_press].
  - now apply grafo1_fuse_holds.
  - now apply grafo1_reset_graph_holds.
  - exact Hs.
Qed.

Lemma grafo1_on_press_holds event self :
  grafo1_holds P self -> grafo1_holds P (Grafo1.on_press event self).
Proof.
  intros Hs. unfold Grafo1.on_press. destruct event as [xy|]; [|exact Hs].
  destruct (find _ (Grafo1.pos self)); exact Hs.
Qed.

Lemma grafo1_on_motion_holds event self :
  grafo1_holds P self -> grafo1_holds P (Grafo1.on_motion event self).
Proof.
  intros Hs. unfold Grafo1.on_motion.
  destruct (Grafo1.selected_node self) as [sel|]; [|exact Hs].
  destruct event as [xy|]; [|exact Hs].
  unfold grafo1_holds. cbn. now apply P_move.
Qed.

Lemma grafo1_on_release_holds event self :
  grafo1_holds P self -> grafo1_holds P (snd (Grafo1.on_release event self)).
Proof.
  intros Hs. unfold Grafo1.on_release.
  destruct (Grafo1.selected_node self) as [sel|]; [|exact Hs].
  destruct event as [xy|].
  - destruct (find _ (Grafo1.pos self)) as [e|]; [|exact Hs].
    pose proof (grafo1_merge_nodes_holds sel (fst e) self Hs) as Hm.
    destruct (Grafo1.merge_nodes sel (fst e) self) as [[[]|ex] s']; exact Hm.
  - destruct (existsb _ (Grafo1.pos self)); exact Hs.
Qed.

Lemma grafo1_handle_holds ev self :
  grafo1_holds P self -> grafo1_holds P (Grafo1.handle ev self).
Proof.
  intros Hs. destruct ev; cbn [Grafo1.handle].
  - now apply grafo1_on_press_holds.
  - now apply grafo1_on_motion_holds.
  - now apply grafo1_on_release_holds.
  - now apply grafo1_on_key_press_holds.
Qed.

Lemma grafo1_handle_all_holds evs self :
  grafo1_holds P self -> grafo1_holds P (Grafo1.handle_all evs self).
Proof.
  revert self. induction evs as [|ev evs IH]; intros self Hs; [exact Hs|].
  cbn [Grafo1.handle_all]. apply IH. now apply grafo1_handle_holds.
Qed.

End Grafo1Handlers.

Section Engine1Facts.

Context {set_order : SetIter Grafo1.node}.

Variable g0 : graph Grafo1.node.
Hypothesis g0_ok : graph_ok g0.

Lemma engine1_inv_merge g p o op a b :
  engine1_inv g0 g p o op ->
  engine1_inv g0 (fst (snd (merge_graph_pos a b (g, p))))
    (snd (snd (merge_graph_pos a b (g, p)))) o op.
Proof.
  intros [Hok [Hdr Ho]]. split; [|split]; try exact Ho.
  - rewrite merge_graph_pos_graph. now apply merge_graph_ok.
  - now apply merge_graph_pos_drawable.
Qed.

Lemma engine1_inv_move g p o op k xy :
  engine1_inv g0 g p o op -> engine1_inv g0 g (dict_set Grafo1.node_dec p k xy) o op.
Proof.
  intros [Hok [Hdr Hrest]]. split; [assumption|]. split; [|assumption].
  intros x Hx. apply (dict_keys_set_In Grafo1.node_dec). right. now apply Hdr.
Qed.

Lemma engine1_inv_reset g p o op :
  engine1_inv g0 g p o op -> engine1_inv g0 (nx_rebuild o) op o op.
Proof.
  intros [_ [_ [Hwf [Hs Hdr]]]].
  pose proof (nx_rebuild_same_graph o Hwf) as Hr.
  pose proof (same_graph_trans _ _ _ Hr Hs) as Hr0.
  split; [|split].
  - apply (same_graph_ok _ g0 Hr0); [apply nx_rebuild_wf | exact g0_ok].
  - intros k Hk. destruct Hr as [Hn _]. rewrite Hn in Hk. now apply Hdr.
  - exact (conj Hwf (conj Hs Hdr)).
Qed.

End Engine1Facts.

(** ** The graph that [plot_graph] builds *)

Lemma grafo_plot_graph_start (layout : graph string -> positions string) (n : Z)
    (matrix : list (list Q)) (self : Grafo.DraggableGraph) :
  Grafo.plot_graph layout n matrix = Return self ->
  exists g, Grafo.matrix_graph (Z.to_nat n) matrix = Return g /\
            self = Grafo.init g (layout g) g (layout g).
Proof.
  unfold Grafo.plot_graph.
  destruct (Grafo.matrix_graph (Z.to_nat n) matrix) as [g|e]; cbn [obind]; [|discriminate].
  intros [= <-]. now exists g.
Qed.

Lemma grafo1_plot_graph_start (layout : graph Grafo1.node -> positions Grafo1.node) (n : Z)
    (matrix : list (list Q)) (self : Grafo1.DraggableGraph) :
  Grafo1.plot_graph layout n matrix = Return self ->
  exists g, Grafo1.matrix_graph (Z.to_nat n) matrix = Return g /\
            self = Grafo1.init g (layout g) g (layout g).
Proof.
  unfold Grafo1.plot_graph.
  destruct (Grafo1.matrix_graph (Z.to_nat n) matrix) as [g|e]; cbn [obind]; [|discriminate].
  intros [= <-]. now exists g.
Qed.

Lemma int_node_inj (i j : nat) :
  Grafo1.IntNode (Z.of_nat i) = Grafo1.IntNode (Z.of_nat j) -> i = j.
Proof. intros [= E]. now apply Nat2Z.inj. Qed.

(** X3.  [plot_graph] reads the matrix above the diagonal only: when it
    returns, the graph has the nodes 0, ..., n-1 ([str]s in grafo.py, [int]s
    in grafo1.py), the nodes i < j are joined, in both directions, by an edge
    of weight [matrix[i][j]] when that entry is not 0 and by no edge when it
    is, every edge of the graph is one of these, and no node is joined to
    itself.  The diagonal and the entries below it are never read. *)
Theorem plot_graph_reads_the_upper_triangle :
  (forall (layout : graph string -> positions string) (n : Z) (matrix : list (list Q))
          (self : Grafo.DraggableGraph),
     Grafo.plot_graph layout n matrix = Return self ->
     nx_nodes (Grafo.G self) = map py_str_nat (seq 0 (Z.to_nat n)) /\
     (forall i j, i < j < Z.to_nat n ->
        exists w, matrix_entry matrix i j = Return w /\
          nx_edge (Grafo.G self) (py_str_nat i) (py_str_nat j)
          = (if Qeq_bool w 0 then None else Some w) /\
          nx_edge (Grafo.G self) (py_str_nat j) (py_str_nat i)
          = (if Qeq_bool w 0 then None else Some w)) /\
     (forall x y w, nx_edge (Grafo.G self) x y = Some w ->
        exists i j, i < j < Z.to_nat n /\ joins py_str_nat x y i j /\
                    matrix_entry matrix i j = Return w) /\
     nx_loopless (Grafo.G self)) /\
  (forall (layout : graph Grafo1.node -> positions Grafo1.node) (n : Z)
          (matrix : list (list Q)) (self : Grafo1.DraggableGraph),
     Grafo1.plot_graph layout n matrix = Return self ->
     nx_nodes (Grafo1.G self)
     = map (fun i => Grafo1.IntNode (Z.of_nat i)) (seq 0 (Z.to_nat n)) /\
     (forall i j, i < j < Z.to_nat n ->
        exists w, matrix_entry matrix i j = Return w /\
          nx_edge (Grafo1.G self) (Grafo1.IntNode (Z.of_nat i)) (Grafo1.IntNode (Z.of_nat j))
          = (if Qeq_bool w 0 then None else Some w) /\
          nx_edge (Grafo1.G self) (Grafo1.IntNode (Z.of_nat j)) (Grafo1.IntNode (Z.of_nat i))
          = (if Qeq_bool w 0 then None else Some w)) /\
     (forall x y w, nx_edge (Grafo1.G self) x y = Some w ->
        exists i j, i < j < Z.to_nat n /\
                    joins (fun i => Grafo1.IntNode (Z.of_nat i)) x y i j /\
                    matrix_entry matrix i j = Return w) /\
     nx_loopless (Grafo1.G self)).
Proof.
  split.
  - intros layout n matrix self Hplot.
    destruct (grafo_plot_graph_start layout n matrix self Hplot) as [g [Hg ->]].
    cbn [Grafo.G Grafo.init]. rewrite grafo_matrix_graph_flat in Hg.
    exact (matrix_loops_spec py_str_nat py_str_nat_inj matrix (Z.to_nat n) g Hg).
  - intros layout n matrix self Hplot.
    destruct (grafo1_plot_graph_start layout n matrix self Hplot) as [g [Hg ->]].
    cbn [Grafo1.G Grafo1.init]. rewrite grafo1_matrix_graph_flat in Hg.
    exact (matrix_loops_spec _ int_node_inj matrix (Z.to_nat n) g Hg).
Qed.

Lemma plot_graph_reads_the_upper_triangle_witness :
  nx_edge (Grafo.G triangle_engine) "0"%string "2"%string = Some 5%Q /\
  nx_edge (Grafo1.G triangle1_engine) (Grafo1.IntNode 2) (Grafo1.IntNode 1) = Some 2%Q.
Proof.
  destruct plot_graph_reads_the_upper_triangle as [H0 H1]. split.
  - destruct (H0 line_layout 3%Z example_matrix triangle_engine eq_refl)
      as [_ [He _]].
    destruct (He 0 2 ltac:(cbn; lia)) as [w [Hw [E _]]].
    vm_compute in Hw. injection Hw as <-. exact E.
  - destruct (H1 line_layout 3%Z example_matrix triangle1_engine eq_refl)
      as [_ [He _]].
    destruct (He 1 2 ltac:(cbn; lia)) as [w [Hw [_ E]]].
    vm_compute in Hw. injection Hw as <-. exact E.
Defined.

(** X4.  [plot_graph] returns exactly when every row but the last of the
    first n rows is there and has at least n entries; otherwise it raises
    [IndexError] and no engine is built.  The last of the n rows is never
    read, so a matrix that lacks it, or whose last row is short, is
    accepted.  The layout algorithm is taken to return, as everywhere. *)
Theorem plot_graph_needs_the_rows_above_the_last :
  (forall (layout : graph string -> positions string) (n : Z) (matrix : list (list Q)),
     ((exists self, Grafo.plot_graph layout n matrix = Return self) <->
      (forall i, i + 1 < Z.to_nat n ->
         exists row, nth_error matrix i = Some row /\ Z.to_nat n <= List.length row)) /\
     (forall e, Grafo.plot_graph layout n matrix = Raise e -> e = IndexError)) /\
  (forall (layout : graph Grafo1.node -> positions Grafo1.node) (n : Z)
          (matrix : list (list Q)),
     ((exists self, Grafo1.plot_graph layout n matrix = Return self) <->
      (forall i, i + 1 < Z.to_nat n ->
         exists row, nth_error matrix i = Some row /\ Z.to_nat n <= List.length row)) /\
     (forall e, Grafo1.plot_graph layout n matrix = Raise e -> e = IndexError)).
Proof.
  split; intros layout n matrix.
  - unfold Grafo.plot_graph. rewrite grafo_matrix_graph_flat.
    rewrite <- (matrix_loops_return py_str_nat py_str_nat_inj matrix (Z.to_nat n)).
    split; [split|].
    + intros [self Hs].
      destruct (fold_outcome _ (upper_pairs _) _) as [g|e]; cbn [obind] in Hs;
        [now exists g | discriminate].
    + intros [g ->]. cbn [obind]. eauto.
    + intros e He.
      destruct (fold_outcome _ (upper_pairs _) _) as [g|e'] eqn:E; cbn [obind] in He;
        [discriminate|].
      injection He as <-. exact (matrix_loops_raise py_str_nat matrix _ _ _ E).
  - unfold Grafo1.plot_graph. rewrite grafo1_matrix_graph_flat.
    rewrite <- (matrix_loops_return _ int_node_inj matrix (Z.to_nat n)).
    split; [split|].
    + intros [self Hs].
      destruct (fold_outcome _ (upper_pairs _) _) as [g|e]; cbn [obind] in Hs;
        [now exists g | discriminate].
    + intros [g ->]. cbn [obind]. eauto.
    + intros e He.
      destruct (fold_outcome _ (upper_pairs _) _) as [g|e'] eqn:E; cbn [obind] in He;
        [discriminate|].
      injection He as <-.
      exact (matrix_loops_raise (fun i => Grafo1.IntNode (Z.of_nat i)) matrix _ _ _ E).
Qed.

(** ** The invariants of the engine, whatever the user does *)

Lemma grafo_plot_graph_inv (layout : graph string -> positions string) (n : Z)
    (matrix : list (list Q)) (self : Grafo.DraggableGraph) :
  Grafo.plot_graph layout n matrix = Return self ->
  drawable (Grafo.G self) (layout (Grafo.G self)) ->
  graph_ok (Grafo.G self) /\
  (forall x, In x (nx_nodes (Grafo.G self)) -> split_comma x = [x]) /\
  (forall x, In x (nx_nodes (Grafo.G self)) -> parses x) /\
  grafo_holds (engine_inv (Grafo.G self)) self.
Proof.
  intros Hplot Hdr.
  destruct (grafo_plot_graph_start layout n matrix self Hplot) as [g [Hg ->]].
  cbn [Grafo.G Grafo.init] in *.
  destruct (grafo_matrix_graph_invariants (Z.to_nat n) matrix g Hg) as [Hwf [Hd Hn]].
  pose proof Hg as Hg'. rewrite grafo_matrix_graph_flat in Hg'.
  destruct (matrix_loops_spec py_str_nat py_str_nat_inj matrix (Z.to_nat n) g Hg')
    as [_ [_ [_ Hl]]].
  assert (Hok : graph_ok g) by exact (conj Hwf (conj Hd Hl)).
  assert (Hleaf : forall x, In x (nx_nodes g) -> split_comma x = [x]).
  { intros x Hx. rewrite Hn in Hx. apply in_map_iff in Hx. destruct Hx as [i [<- _]].
    apply py_str_nat_one_token. }
  assert (Hparse : forall x, In x (nx_nodes g) -> parses x).
  { intros x Hx. rewrite Hn in Hx. apply in_map_iff in Hx. destruct Hx as [i [<- _]].
    apply parses_str_nat. }
  split; [exact Hok|]. split; [exact Hleaf|]. split; [exact Hparse|].
  unfold grafo_holds, engine_inv. cbn [Grafo.G Grafo.pos Grafo.original_G Grafo.original_pos Grafo.init].
  pose proof (nx_copy_same g Hwf) as Hcopy.
  split; [exact Hok|]. split; [exact Hdr|].
  split; [now apply cut_inv_start|]. split; [now apply leaves_cover_start|].
  split; [apply nx_copy_wf|]. split; [exact Hcopy|].
  intros k Hk. destruct Hcopy as [Hcn _]. rewrite Hcn in Hk. now apply Hdr.
Qed.

Lemma grafo_handle_all_inv (set_order : SetIter string)
    (layout : graph string -> positions string) (n : Z)
    (matrix : list (list Q)) (self : Grafo.DraggableGraph)
    (fuel : nat) (evs : list Grafo.ui_event) :
  Grafo.plot_graph layout n matrix = Return self ->
  drawable (Grafo.G self) (layout (Grafo.G self)) ->
  grafo_holds (engine_inv (Grafo.G self)) (Grafo.handle_all fuel evs self).
Proof.
  intros Hplot Hdr.
  destruct (grafo_plot_graph_inv layout n matrix self Hplot Hdr) as [Hok [Hleaf [_ Hinv]]].
  apply grafo_handle_all_holds; try assumption.
  - intros g p o op a b. apply engine_inv_merge.
  - intros g p o op k xy. apply engine_inv_move.
  - intros g p o op. now apply engine_inv_reset.
Qed.

(** X5 (grafo.py).  Whatever the user does (mouse presses, moves and
    releases, key presses, in any order, with handlers that raise in
    between), the graph of an engine started by [plot_graph] keeps the
    networkx class invariant, has no self-loop, has no leaf in two of its
    nodes, has a position for every node (what [draw_graph] needs), and the
    leaves of its nodes are the loaded nodes, all of them.  The layout is
    assumed to give every node a position, as [kamada_kawai_layout] does. *)
Theorem grafo_events_keep_the_graph_well_formed (set_order : SetIter string)
    (layout : graph string -> positions string) (n : Z)
    (matrix : list (list Q)) (self : Grafo.DraggableGraph)
    (fuel : nat) (evs : list Grafo.ui_event) :
  Grafo.plot_graph layout n matrix = Return self ->
  (forall k, In k (nx_nodes (Grafo.G self)) -> In k (dict_keys (layout (Grafo.G self)))) ->
  nx_wf (Grafo.G (Grafo.handle_all fuel evs self)) /\
  ids_disjoint (Grafo.G (Grafo.handle_all fuel evs self)) /\
  nx_loopless (Grafo.G (Grafo.handle_all fuel evs self)) /\
  (forall k, In k (nx_nodes (Grafo.G (Grafo.handle_all fuel evs self))) ->
     In k (dict_keys (Grafo.pos (Grafo.handle_all fuel evs self)))) /\
  (forall x t, In x (nx_nodes (Grafo.G (Grafo.handle_all fuel evs self))) ->
     In t (split_comma x) -> In t (nx_nodes (Grafo.G self))) /\
  (forall t, In t (nx_nodes (Grafo.G self)) ->
     exists x, In x (nx_nodes (Grafo.G (Grafo.handle_all fuel evs self))) /\
               In t (split_comma x)).
Proof.
  intros Hplot Hdr.
  destruct (grafo_handle_all_inv set_order layout n matrix self fuel evs Hplot Hdr)
    as [[Hwf [Hd Hl]] [Hdraw [_ [[Hin Hall] _]]]].
  repeat (split; [assumption|]). assumption.
Qed.

Lemma grafo_events_keep_the_graph_well_formed_witness :
  nx_wf (Grafo.G (Grafo.handle_all (set_order := first_seen) 5
                    [Grafo.MousePress (Some (0, 0)%Q); Grafo.KeyPress Grafo.Enter;
                     Grafo.MouseMotion (Some (3, 3)%Q); Grafo.MouseRelease (Some (1, 0)%Q)]
                    triangle_engine)) /\
  nx_nodes (Grafo.G (Grafo.handle_all (set_order := first_seen) 5
                    [Grafo.MousePress (Some (0, 0)%Q); Grafo.KeyPress Grafo.Enter;
                     Grafo.MouseMotion (Some (3, 3)%Q); Grafo.MouseRelease (Some (1, 0)%Q)]
                    triangle_engine))
  = ["1"; "0,2"]%string /\
  dict_keys (Grafo.pos (Grafo.handle_all (set_order := first_seen) 5
                    [Grafo.MousePress (Some (0, 0)%Q); Grafo.KeyPress Grafo.Enter;
                     Grafo.MouseMotion (Some (3, 3)%Q); Grafo.MouseRelease (Some (1, 0)%Q)]
                    triangle_engine))
  = ["1"; "0,2"; "0"]%string.
Proof.
  split; [|split; vm_compute; reflexivity].
  assert (Hdr : forall k, In k (nx_nodes (Grafo.G triangle_engine)) ->
                  In k (dict_keys (line_layout (Grafo.G triangle_engine))))
    by (intros k Hk; exact Hk).
  exact (proj1 (grafo_events_keep_the_graph_well_formed first_seen line_layout 3%Z
                  example_matrix triangle_engine 5
                  [Grafo.MousePress (Some (0, 0)%Q); Grafo.KeyPress Grafo.Enter;
                   Grafo.MouseMotion (Some (3, 3)%Q); Grafo.MouseRelease (Some (1, 0)%Q)]
                  eq_refl Hdr)).
Defined.



Lemma grafo1_plot_graph_inv (layout : graph Grafo1.node -> positions Grafo1.node) (n : Z)
    (matrix : list (list Q)) (self : Grafo1.DraggableGraph) :
  Grafo1.plot_graph layout n matrix = Return self ->
  graph_ok (Grafo1.G self) /\
  grafo1_holds (snapshot_of (Grafo1.G self) (Grafo1.pos self)) self /\
  (drawable (Grafo1.G self) (layout (Grafo1.G self)) ->
   grafo1_holds (engine1_inv (Grafo1.G self)) self).
Proof.
  intros Hplot.
  destruct (grafo1_plot_graph_start layout n matrix self Hplot) as [g [Hg ->]].
  cbn [Grafo1.G Grafo1.pos Grafo1.init] in *.
  destruct (grafo1_matrix_graph_invariants (Z.to_nat n) matrix g Hg) as [Hwf [Hd Hn]].
  pose proof Hg as Hg'. rewrite grafo1_matrix_graph_flat in Hg'.
  destruct (matrix_loops_spec _ int_node_inj matrix (Z.to_nat n) g Hg')
    as [_ [_ [_ Hl]]].
  assert (Hok : graph_ok g) by exact (conj Hwf (conj Hd Hl)).
  pose proof (nx_copy_same g Hwf) as Hcopy.
  split; [exact Hok|]. split.
  - unfold grafo1_holds, snapshot_of. cbn. split; [apply nx_copy_wf|]. now split.
  - intros Hdr. unfold grafo1_holds, engine1_inv.
    cbn [Grafo1.G Grafo1.pos Grafo1.original_G Grafo1.original_pos Grafo1.init].
    split; [exact Hok|]. split; [exact Hdr|].
    split; [apply nx_copy_wf|]. split; [exact Hcopy|].
    intros k Hk. destruct Hcopy as [Hcn _]. rewrite Hcn in Hk. now apply Hdr.
Qed.

(** X7 (grafo1.py).  Whatever the user does (mouse presses, moves and
    releases, the enter and escape keys, in any order, with handlers that
    raise in between), the graph of an engine started by [plot_graph] keeps
    the networkx class invariant, has no self-loop, has no leaf in two of
    its nodes, and has a position for every node.  The layout is assumed to
    give every node a position. *)
Theorem grafo1_events_keep_the_graph_well_formed (set_order : SetIter Grafo1.node)
    (layout : graph Grafo1.node -> positions Grafo1.node) (n : Z)
    (matrix : list (list Q)) (self : Grafo1.DraggableGraph)
    (evs : list Grafo1.ui_event) :
  Grafo1.plot_graph layout n matrix = Return self ->
  (forall k, In k (nx_nodes (Grafo1.G self)) -> In k (dict_keys (layout (Grafo1.G self)))) ->
  nx_wf (Grafo1.G (Grafo1.handle_all evs self)) /\
  ids_disjoint (Grafo1.G (Grafo1.handle_all evs self)) /\
  nx_loopless (Grafo1.G (Grafo1.handle_all evs self)) /\
  (forall k, In k (nx_nodes (Grafo1.G (Grafo1.handle_all evs self))) ->
     In k (dict_keys (Grafo1.pos (Grafo1.handle_all evs self)))).
Proof.
  intros Hplot Hdr.
  destruct (grafo1_plot_graph_inv layout n matrix self Hplot) as [Hok [_ Hinv]].
  assert (H : grafo1_holds (engine1_inv (Grafo1.G self)) (Grafo1.handle_all evs self)).
  { apply grafo1_handle_all_holds; [| | |now apply Hinv].
    - intros g p o op a b. apply engine1_inv_merge.
    - intros g p o op k xy. apply engine1_inv_move.
    - intros g p o op. now apply engine1_inv_reset. }
  destruct H as [[Hwf [Hd Hl]] [Hdraw _]].
  exact (conj Hwf (conj Hd (conj Hl Hdraw))).
Qed.

Lemma grafo1_events_keep_the_graph_well_formed_witness :
  nx_wf (Grafo1.G (Grafo1.handle_all (set_order := first_seen)
                     [Grafo1.MousePress (Some (0, 0)%Q); Grafo1.KeyPress Grafo1.Enter;
                      Grafo1.MouseMotion (Some (3, 3)%Q);
                      Grafo1.MouseRelease (Some (1, 0)%Q)]
                     triangle1_engine)) /\
  dict_keys (Grafo1.pos (Grafo1.handle_all (set_order := first_seen)
                     [Grafo1.MousePress (Some (0, 0)%Q); Grafo1.KeyPress Grafo1.Enter;
                      Grafo1.MouseMotion (Some (3, 3)%Q);
                      Grafo1.MouseRelease (Some (1, 0)%Q)]
                     triangle1_engine))
  = [Grafo1.IntNode 1; Grafo1.StrNode "0,2"; Grafo1.IntNode 0].
Proof.
  split; [|vm_compute; reflexivity].
  assert (Hdr : forall k, In k (nx_nodes (Grafo1.G triangle1_engine)) ->
                  In k (dict_keys (line_layout (Grafo1.G triangle1_engine))))
    by (intros k Hk; exact Hk).
  exact (proj1 (grafo1_events_keep_the_graph_well_formed first_seen line_layout 3%Z
                  example_matrix triangle1_engine
                  [Grafo1.MousePress (Some (0, 0)%Q); Grafo1.KeyPress Grafo1.Enter;
                   Grafo1.MouseMotion (Some (3, 3)%Q); Grafo1.MouseRelease (Some (1, 0)%Q)]
                  eq_refl Hdr)).
Defined.

(** X8 (grafo1.py).  The escape key undoes everything: after any sequence
    of events on an engine started by [plot_graph], [on_key_press] with
    [escape] returns and leaves a graph with the loaded nodes in their
    order and the loaded weighted edges, the positions of the layout, and
    the anchor 0. *)
Theorem grafo1_escape_restores_the_loaded_graph (set_order : SetIter Grafo1.node)
    (layout : graph Grafo1.node -> positions Grafo1.node) (n : Z)
    (matrix : list (list Q)) (self : Grafo1.DraggableGraph)
    (evs : list Grafo1.ui_event) :
  Grafo1.plot_graph layout n matrix = Return self ->
  fst (Grafo1.on_key_press Grafo1.Escape (Grafo1.handle_all evs self)) = Return tt /\
  nx_nodes (Grafo1.G (snd (Grafo1.on_key_press Grafo1.Escape (Grafo1.handle_all evs self))))
  = nx_nodes (Grafo1.G self) /\
  (forall u v,
     nx_edge (Grafo1.G (snd (Grafo1.on_key_press Grafo1.Escape (Grafo1.handle_all evs self))))
       u v
     = nx_edge (Grafo1.G self) u v) /\
  Grafo1.pos (snd (Grafo1.on_key_press Grafo1.Escape (Grafo1.handle_all evs self)))
  = Grafo1.pos self /\
  Grafo1.merged_node (snd (Grafo1.on_key_press Grafo1.Escape (Grafo1.handle_all evs self)))
  = Grafo1.IntNode 0.
Proof.
  intros Hplot.
  destruct (grafo1_plot_graph_inv layout n matrix self Hplot) as [_ [Hsnap _]].
  assert (H : grafo1_holds (snapshot_of (Grafo1.G self) (Grafo1.pos self))
                (Grafo1.handle_all evs self)).
  { apply grafo1_handle_all_holds; [| | |exact Hsnap]; unfold snapshot_of; tauto. }
  destruct H as [Hwf [Hs Hop]].
  cbn [Grafo1.on_key_press]. unfold Grafo1.reset_graph.
  cbn [fst snd Grafo1.G Grafo1.pos Grafo1.merged_node Grafo1.set_merged_node Grafo1.set_G_pos].
  pose proof (same_graph_trans _ _ _ (nx_rebuild_same_graph _ Hwf) Hs) as [Hn He].
  split; [reflexivity|]. split; [exact Hn|]. split; [exact He|]. split; [exact Hop | reflexivity].
Qed.

Lemma grafo1_escape_restores_the_loaded_graph_witness :
  nx_nodes
    (Grafo1.G (snd (Grafo1.on_key_press (set_order := first_seen) Grafo1.Escape
                      (Grafo1.handle_all (set_order := first_seen)
                         [Grafo1.KeyPress Grafo1.Enter; Grafo1.KeyPress Grafo1.Enter]
                         triangle1_engine))))
  = [Grafo1.IntNode 0; Grafo1.IntNode 1; Grafo1.IntNode 2] /\
  nx_nodes
    (Grafo1.G (Grafo1.handle_all (set_order := first_seen)
                 [Grafo1.KeyPress Grafo1.Enter; Grafo1.KeyPress Grafo1.Enter]
                 triangle1_engine))
  = [Grafo1.StrNode "0,2,1"].
Proof.
  split; [|vm_compute; reflexivity].
  destruct (grafo1_escape_restores_the_loaded_graph first_seen line_layout 3%Z
              example_matrix triangle1_engine
              [Grafo1.KeyPress Grafo1.Enter; Grafo1.KeyPress Grafo1.Enter] eq_refl)
    as [_ [Hn _]].
  exact Hn.
Defined.

(** ** When nodes are only merged *)

Section SyncFacts.

Context {set_order : SetIter string}.

Lemma engine_sync_merge g p o op a b :
  engine_sync g p o op ->
  engine_sync (fst (snd (merge_graph_pos a b (g, p))))
    (snd (snd (merge_graph_pos a b (g, p)))) o op.
Proof.
  intros [Hok [Hpos Hparse]]. pose proof Hok as [Hwf [Hd Hl]].
  destruct (nx_has_node g a) eqn:Ea;
    [|rewrite merge_graph_pos_missing by (now left); exact (conj Hok (conj Hpos Hparse))].
  destruct (nx_has_node g b) eqn:Eb;
    [|rewrite merge_graph_pos_missing by (now right); exact (conj Hok (conj Hpos Hparse))].
  apply nx_has_node_In in Ea, Eb.
  split; [|split].
  - rewrite merge_graph_pos_graph. now apply merge_graph_ok.
  - intros k. rewrite merge_graph_pos_graph. cbn [fst].
    rewrite (merge_graph_nodes_In g a b k Hwf Hd Ea Eb).
    unfold merge_graph_pos, nx_neighbors, pos_getitem, pos_delitem. cbn [fst snd].
    destruct (dict_In_get node_eq_dec g a Ea) as [na Ena]. unfold nx_adj. rewrite Ena.
    destruct (dict_In_get node_eq_dec g b Eb) as [nb Enb]. rewrite Enb.
    destruct (dict_In_get node_eq_dec p a (proj2 (Hpos a) Ea)) as [pa Epa]. rewrite Epa.
    destruct (dict_In_get node_eq_dec p b (proj2 (Hpos b) Eb)) as [pb Epb]. rewrite Epb.
    set (p1 := dict_set node_eq_dec p (joined a b) (midpoint pa pb)).
    assert (H1 : dict_mem node_eq_dec p1 a = true).
    { apply dict_mem_In. unfold p1. apply dict_keys_set_In. right. now apply Hpos. }
    rewrite H1.
    pose proof (joined_neq_l a b) as Hna. pose proof (joined_neq_r a b) as Hnb.
    destruct (dict_mem node_eq_dec (dict_del node_eq_dec p1 a) b) eqn:E2; cbn [snd].
    + rewrite !dict_keys_del_In. unfold p1. rewrite dict_keys_set_In, Hpos.
      split; [intros [Hkb [Hka [->|Hk]]]; [now left | right; tauto]|].
      intros [->|[Hk [Hka Hkb]]]; [|tauto]. split; [assumption|]. split; [assumption|now left].
    + apply dict_mem_false in E2. rewrite dict_keys_del_In in E2.
      assert (Eab : b = a).
      { destruct (node_eq_dec b a) as [E|N]; [exact E|]. exfalso. apply E2.
        split; [exact N|]. unfold p1. apply dict_keys_set_In. right. now apply Hpos. }
      subst b. rewrite dict_keys_del_In. unfold p1. rewrite dict_keys_set_In, Hpos.
      split; [intros [Hka [->|Hk]]; [now left | right; tauto]|].
      intros [->|[Hk [Hka _]]]; [|tauto]. split; [assumption | now left].
  - intros x. rewrite merge_graph_pos_graph. cbn [fst].
    rewrite (merge_graph_nodes_In g a b x Hwf Hd Ea Eb).
    intros [->|[Hx _]]; [|now apply Hparse].
    apply parses_joined; now apply Hparse.
Qed.

(** In such a state the greedy step returns. *)
Lemma grafo_fuse_returns self :
  grafo_holds engine_sync self -> fst (Grafo.fuse_max_edge_to_merged self) = Return tt.
Proof.
  intros [[Hwf [Hd Hl]] [Hpos Hparse]].
  unfold Grafo.fuse_max_edge_to_merged.
  destruct (dict_mem string_dec (Grafo.pos self) (Grafo.merged_node self)) eqn:Em;
    cbn [negb]; [|reflexivity].
  apply dict_mem_In in Em. apply Hpos in Em.
  destruct (dict_In_get node_eq_dec (Grafo.G self) _ Em) as [nbrs Hadj].
  unfold bind, Grafo.find_max_edge_node.
  destruct nbrs as [|[y w] nbrs'] eqn:En.
  - unfold Grafo.find_max_edge_node_in, nx_neighbors, nx_adj. rewrite Hadj. reflexivity.
  - destruct (grafo_find_max_some (Grafo.G self) (Grafo.merged_node self) _ Hadj)
      as [r [Hmax Hr]]; [discriminate | |].
    { intros x Hx. apply Hparse. eapply nx_wf_neighbor_is_node; eauto. }
    rewrite Hmax.
    assert (Hrn : In r (nx_nodes (Grafo.G self)))
      by (eapply nx_wf_neighbor_is_node; eauto).
    assert (Hra : r <> Grafo.merged_node self).
    { intros ->. apply (nx_edge_keys (Grafo.G self) _ _ _ Hadj) in Hr. apply Hr, Hl. }
    assert (Hret : fst (Grafo.merge_nodes (Grafo.merged_node self) r self) = Return tt).
    { rewrite grafo_merge_nodes_outcome. apply merge_graph_pos_succeeds; try assumption.
      - congruence.
      - now apply Hpos.
      - now apply Hpos. }
    unfold modify.
    destruct (Grafo.merge_nodes (Grafo.merged_node self) r self) as [[[]|e] s'];
      cbn [fst] in *; [reflexivity | discriminate].
Qed.

End SyncFacts.

Lemma grafo_plot_graph_sync (layout : graph string -> positions string) (n : Z)
    (matrix : list (list Q)) (self : Grafo.DraggableGraph) :
  Grafo.plot_graph layout n matrix = Return self ->
  (forall k, In k (dict_keys (layout (Grafo.G self))) <-> In k (nx_nodes (Grafo.G self))) ->
  grafo_holds engine_sync self.
Proof.
  intros Hplot Hpos.
  assert (Hdr : drawable (Grafo.G self) (layout (Grafo.G self)))
    by (intros k Hk; now apply Hpos).
  destruct (grafo_plot_graph_inv layout n matrix self Hplot Hdr) as [Hok [_ [Hparse _]]].
  destruct (grafo_plot_graph_start layout n matrix self Hplot) as [g [Hg ->]].
  unfold grafo_holds, engine_sync. cbn [Grafo.G Grafo.pos Grafo.init] in *.
  exact (conj Hok (conj Hpos Hparse)).
Qed.

(** X9 (grafo.py).  As long as the user only merges nodes (drops of one node
    on another, with whatever arguments [merge_nodes] gets, and greedy
    steps), the engine started by [plot_graph] stays in step: the positions
    are those of the nodes of the graph, every identifier is made of
    integers, the greedy step returns without an exception, and so does a
    merge of any two different nodes of the graph.  The layout is assumed to
    position exactly the nodes. *)
Theorem grafo_merging_never_raises (set_order : SetIter string)
    (layout : graph string -> positions string) (n : Z)
    (matrix : list (list Q)) (self : Grafo.DraggableGraph) (acts : list Grafo.action) :
  Grafo.plot_graph layout n matrix = Return self ->
  (forall k, In k (dict_keys (layout (Grafo.G self))) <-> In k (nx_nodes (Grafo.G self))) ->
  (forall k, In k (dict_keys (Grafo.pos (Grafo.perform_all acts self)))
             <-> In k (nx_nodes (Grafo.G (Grafo.perform_all acts self)))) /\
  (forall x, In x (nx_nodes (Grafo.G (Grafo.perform_all acts self))) -> parses x) /\
  fst (Grafo.fuse_max_edge_to_merged (Grafo.perform_all acts self)) = Return tt /\
  (forall a b, In a (nx_nodes (Grafo.G (Grafo.perform_all acts self))) ->
     In b (nx_nodes (Grafo.G (Grafo.perform_all acts self))) -> a <> b ->
     fst (Grafo.merge_nodes a b (Grafo.perform_all acts self)) = Return tt).
Proof.
  intros Hplot Hpos.
  assert (H : grafo_holds engine_sync (Grafo.perform_all acts self)).
  { apply grafo_perform_all_holds; [|now apply (grafo_plot_graph_sync layout n matrix)].
    intros g p o op a b. apply engine_sync_merge. }
  pose proof H as [Hok [Hp Hparse]].
  split; [exact Hp|]. split; [exact Hparse|]. split; [now apply grafo_fuse_returns|].
  intros a b Ha Hb Hab. rewrite grafo_merge_nodes_outcome.
  apply merge_graph_pos_succeeds; try assumption; now apply Hp.
Qed.

Lemma grafo_merging_never_raises_witness :
  fst (Grafo.fuse_max_edge_to_merged (set_order := first_seen)
         (Grafo.perform_all (set_order := first_seen)
            [Grafo.DragMerge "1" "1"; Grafo.DragMerge "0" "7"; Grafo.GreedyStep]
            triangle_engine))
  = Return tt /\
  nx_nodes (Grafo.G (Grafo.perform_all (set_order := first_seen)
            [Grafo.DragMerge "1" "1"; Grafo.DragMerge "0" "7"; Grafo.GreedyStep]
            triangle_engine))
  = ["1,1"; "0,2"]%string.
Proof.
  split; [|vm_compute; reflexivity].
  assert (Hpos : forall k, In k (dict_keys (line_layout (Grafo.G triangle_engine)))
                           <-> In k (nx_nodes (Grafo.G triangle_engine)))
    by (intros k; split; intros Hk; exact Hk).
  destruct (grafo_merging_never_raises first_seen line_layout 3%Z example_matrix
              triangle_engine
              [Grafo.DragMerge "1" "1"; Grafo.DragMerge "0" "7"; Grafo.GreedyStep]
              eq_refl Hpos)
    as [_ [_ [Hret _]]].
  exact Hret.
Defined.

(** ** The backspace key *)

Section Backspace.

Context {set_order : SetIter string}.

Lemma grafo_on_backspace_done fuel self :
  nx_number_of_nodes (Grafo.G self) <= 2 ->
  Grafo.on_backspace fuel self = (Return tt, self).
Proof.
  intros Hc. assert (E : (2 <? nx_number_of_nodes (Grafo.G self)) = false)
    by (apply Nat.ltb_ge; exact Hc).
  destruct fuel; cbn [Grafo.on_backspace]; now rewrite E.
Qed.

Lemma grafo_on_backspace_step fuel self s1 :
  2 < nx_number_of_nodes (Grafo.G self) ->
  Grafo.fuse_max_edge_to_merged self = (Return tt, s1) ->
  Grafo.on_backspace (S fuel) self = Grafo.on_backspace fuel s1.
Proof.
  intros Hc Hf. apply Nat.ltb_lt in Hc. cbn [Grafo.on_backspace]. rewrite Hc.
  unfold bind. now rewrite Hf.
Qed.

(** On a complete graph every round of the loop merges a neighbour into the
    anchor, and the loop ends with two nodes. *)
Lemma grafo_backspace_steps (k fuel : nat) (self : Grafo.DraggableGraph) :
  engine_ok self -> nx_complete (Grafo.G self) ->
  nx_number_of_nodes (Grafo.G self) = 2 + k -> k <= fuel ->
  exists s',
    Grafo.on_backspace fuel self = (Return tt, s') /\
    nx_number_of_nodes (Grafo.G s') = 2 /\
    engine_ok s' /\
    List.length (Grafo.merged_nodes s') = List.length (Grafo.merged_nodes self) + 2 * k.
Proof.
  revert fuel self. induction k as [|k IH]; intros fuel self Hok Hc Hn Hfuel.
  - exists self. rewrite grafo_on_backspace_done by lia.
    split; [reflexivity|]. split; [exact Hn|]. split; [exact Hok | lia].
  - destruct fuel as [|fuel]; [lia|].
    pose proof Hok as [Hwf [Hd [Hl [Hpos [Hparse Hanchor]]]]].
    destruct (grafo_fuse_step self Hok Hc) as [y [s1 [Hy [Hya [Hf [HG [_ [Hh [_ [_ [_ [_ [Hok1 Hc1]]]]]]]]]]]]].
    { apply exists_other; [unfold nx_number_of_nodes in Hn; lia | apply Hwf]. }
    assert (Hn1 : nx_number_of_nodes (Grafo.G s1) = 2 + k).
    { pose proof (merge_graph_count (Grafo.G self) (Grafo.merged_node self) y
                    Hwf Hd Hanchor Hy (fun E => Hya (eq_sym E))) as Hcount.
      rewrite HG. lia. }
    destruct (IH fuel s1 Hok1 Hc1 Hn1 ltac:(lia)) as [s' [Hb [Hn' [Hok' Hlen]]]].
    exists s'. rewrite (grafo_on_backspace_step fuel self s1) by (assumption || lia).
    split; [exact Hb|]. split; [exact Hn'|]. split; [exact Hok'|].
    rewrite Hlen, Hh, length_app. simpl. lia.
Qed.

(** A greedy step on an anchor that has no position or no neighbour returns
    and changes nothing. *)
Lemma grafo_fuse_stuck (self : Grafo.DraggableGraph) :
  dict_mem string_dec (Grafo.pos self) (Grafo.merged_node self) = false \/
  nx_neighbors (Grafo.G self) (Grafo.merged_node self) = Return [] ->
  Grafo.fuse_max_edge_to_merged self = (Return tt, self).
Proof.
  intros Hs. unfold Grafo.fuse_max_edge_to_merged.
  destruct (dict_mem string_dec (Grafo.pos self) (Grafo.merged_node self)) eqn:Em;
    cbn [negb]; [|reflexivity].
  destruct Hs as [Hs|Hs]; [discriminate|].
  unfold bind, Grafo.find_max_edge_node, Grafo.find_max_edge_node_in. now rewrite Hs.
Qed.

End Backspace.



(** X11 (grafo.py).  The loop of the backspace key never ends when the graph
    has more than two nodes and the anchor has no position or no neighbour:
    every round is a greedy step that changes nothing, so the loop is still
    running, in the state it started from, after any number of rounds. *)
Theorem grafo_backspace_never_ends_on_a_stuck_anchor (set_order : SetIter string)
    (self : Grafo.DraggableGraph) (fuel : nat) :
  2 < nx_number_of_nodes (Grafo.G self) ->
  dict_mem string_dec (Grafo.pos self) (Grafo.merged_node self) = false \/
  nx_neighbors (Grafo.G self) (Grafo.merged_node self) = Return [] ->
  Grafo.on_key_press fuel Grafo.Backspace self = (Raise OutOfFuel, self).
Proof.
  intros Hc Hs. cbn [Grafo.on_key_press]. apply Nat.ltb_lt in Hc.
  induction fuel as [|fuel IH]; cbn [Grafo.on_backspace]; rewrite Hc; [reflexivity|].
  unfold bind. rewrite (grafo_fuse_stuck self Hs). exact IH.
Qed.

Lemma grafo_backspace_never_ends_on_a_stuck_anchor_witness :
  Grafo.on_key_press (set_order := first_seen) 1000 Grafo.Backspace lonely_engine
  = (Raise OutOfFuel, lonely_engine).
Proof.
  apply (grafo_backspace_never_ends_on_a_stuck_anchor first_seen lonely_engine 1000).
  - cbn. lia.
  - right. reflexivity.
Defined.

(** ** The mouse *)

Lemma find_none_iff {A : Type} (f : A -> bool) (l : list A) :
  (forall x, In x l -> f x = false) -> find f l = None.
Proof.
  intros Hf. destruct (find f l) as [x|] eqn:E; [|reflexivity].
  apply find_some in E. destruct E as [Hin Hx]. rewrite (Hf x Hin) in Hx. discriminate.
Qed.

(** X12.  A click (a press and a release at the same point) on a point that
    is within the radius of at most one node merges nothing: whatever node
    was selected before, the engine is left as it was, with no node
    selected.  In both scripts. *)
Theorem click_on_a_lone_node_changes_nothing :
  (forall (set_order : SetIter string) (self : Grafo.DraggableGraph) (xy : Q * Q),
     (forall e1 e2, In e1 (Grafo.pos self) -> In e2 (Grafo.pos self) ->
        within_radius (snd e1) xy = true -> within_radius (snd e2) xy = true ->
        fst e1 = fst e2) ->
     Grafo.on_release (Some xy) (Grafo.on_press (Some xy) self)
     = (Handled, Grafo.set_selected_node self None)) /\
  (forall (set_order : SetIter Grafo1.node) (self : Grafo1.DraggableGraph) (xy : Q * Q),
     (forall e1 e2, In e1 (Grafo1.pos self) -> In e2 (Grafo1.pos self) ->
        within_radius (snd e1) xy = true -> within_radius (snd e2) xy = true ->
        fst e1 = fst e2) ->
     Grafo1.on_release (Some xy) (Grafo1.on_press (Some xy) self)
     = (Handled, Grafo1.set_selected_node self None)).
Proof.
  split; intros set_order self xy Hone.
  - unfold Grafo.on_press.
    destruct (find (fun e => within_radius (snd e) xy) (Grafo.pos self)) as [e|] eqn:Ef.
    + apply find_some in Ef. destruct Ef as [Hin He].
      unfold Grafo.on_release.
      cbn [Grafo.selected_node Grafo.pos Grafo.set_selected_node].
      rewrite find_none_iff; [reflexivity|].
      intros e' Hin'. destruct (within_radius (snd e') xy) eqn:He';
        [|apply andb_false_r].
      rewrite (Hone e' e Hin' Hin He' He).
      destruct (string_dec (fst e) (fst e)); [reflexivity | contradiction].
    + unfold Grafo.on_release. destruct (Grafo.selected_node self) as [sel|]; [|reflexivity].
      rewrite find_none_iff; [reflexivity|].
      intros e' Hin'. rewrite (find_none _ _ Ef e' Hin'). apply andb_false_r.
  - unfold Grafo1.on_press.
    destruct (find (fun e => within_radius (snd e) xy) (Grafo1.pos self)) as [e|] eqn:Ef.
    + apply find_some in Ef. destruct Ef as [Hin He].
      unfold Grafo1.on_release.
      cbn [Grafo1.selected_node Grafo1.pos Grafo1.set_selected_node].
      rewrite find_none_iff; [reflexivity|].
      intros e' Hin'. destruct (within_radius (snd e') xy) eqn:He';
        [|apply andb_false_r].
      rewrite (Hone e' e Hin' Hin He' He).
      destruct (Grafo1.node_dec (fst e) (fst e)); [reflexivity | contradiction].
    + unfold Grafo1.on_release. destruct (Grafo1.selected_node self) as [sel|]; [|reflexivity].
      rewrite find_none_iff; [reflexivity|].
      intros e' Hin'. rewrite (find_none _ _ Ef e' Hin'). apply andb_false_r.
Qed.

Lemma click_on_a_lone_node_changes_nothing_witness :
  Grafo.on_release (set_order := first_seen) (Some (1, 0)%Q)
    (Grafo.on_press (Some (1, 0)%Q) triangle_engine)
  = (Handled, Grafo.set_selected_node triangle_engine None) /\
  Grafo.selected_node (Grafo.on_press (Some (1, 0)%Q) triangle_engine) = Some "1"%string.
Proof.
  split; [|reflexivity].
  apply (proj1 click_on_a_lone_node_changes_nothing first_seen triangle_engine (1, 0)%Q).
  intros e1 e2 H1 H2.
  assert (Hc : forall e, In e (Grafo.pos triangle_engine) ->
            within_radius (snd e) (1, 0)%Q = true -> fst e = "1"%string).
  { intros e [<-|[<-|[<-|[]]]] He; vm_compute in He; first [discriminate | reflexivity]. }
  intros He1 He2. now rewrite (Hc e1 H1 He1), (Hc e2 H2 He2).
Defined.

(** X13.  Dropping the selected node on another one merges the two: when the
    selected node and the first other node of [self.pos] within the radius
    of the pointer are both nodes of the graph and the selected node has a
    position, [on_release] returns, the graph is the merged graph, the
    selection is cleared, and in grafo.py the pair is recorded as the last
    merged nodes and at the end of the history. *)
Theorem drop_on_a_node_merges :
  (forall (set_order : SetIter string) (self : Grafo.DraggableGraph) (xy : Q * Q)
          (sel : string) (e : string * (Q * Q)),
     Grafo.selected_node self = Some sel ->
     find (fun e => (if string_dec (fst e) sel then false else true)
                    && within_radius (snd e) xy) (Grafo.pos self) = Some e ->
     In sel (nx_nodes (Grafo.G self)) -> In (fst e) (nx_nodes (Grafo.G self)) ->
     In sel (dict_keys (Grafo.pos self)) ->
     fst (Grafo.on_release (Some xy) self) = Handled /\
     Grafo.G (snd (Grafo.on_release (Some xy) self))
     = merge_graph (Grafo.G self) sel (fst e) /\
     Grafo.selected_node (snd (Grafo.on_release (Some xy) self)) = None /\
     Grafo.last_merged_nodes (snd (Grafo.on_release (Some xy) self)) = [sel; fst e] /\
     Grafo.merged_nodes (snd (Grafo.on_release (Some xy) self))
     = Grafo.merged_nodes self ++ [sel; fst e]) /\
  (forall (set_order : SetIter Grafo1.node) (self : Grafo1.DraggableGraph) (xy : Q * Q)
          (sel : Grafo1.node) (e : Grafo1.node * (Q * Q)),
     Grafo1.selected_node self = Some sel ->
     find (fun e => (if Grafo1.node_dec (fst e) sel then false else true)
                    && within_radius (snd e) xy) (Grafo1.pos self) = Some e ->
     In sel (nx_nodes (Grafo1.G self)) -> In (fst e) (nx_nodes (Grafo1.G self)) ->
     In sel (dict_keys (Grafo1.pos self)) ->
     fst (Grafo1.on_release (Some xy) self) = Handled /\
     Grafo1.G (snd (Grafo1.on_release (Some xy) self))
     = merge_graph (Grafo1.G self) sel (fst e) /\
     Grafo1.selected_node (snd (Grafo1.on_release (Some xy) self)) = None).
Proof.
  split; intros set_order self xy sel e Hsel Hfind Hs He Hsp.
  - pose proof (find_some _ _ Hfind) as [Hin Hf].
    apply andb_prop in Hf. destruct Hf as [Hne _].
    destruct (string_dec (fst e) sel) as [|Hne']; [discriminate|].
    assert (Hret : fst (Grafo.merge_nodes sel (fst e) self) = Return tt).
    { rewrite grafo_merge_nodes_outcome. apply merge_graph_pos_succeeds; try assumption.
      - congruence.
      - apply in_map. exact Hin. }
    pose proof (grafo_merge_nodes_G self sel (fst e)) as HG.
    pose proof (grafo_merge_nodes_history self sel (fst e)) as HH.
    unfold Grafo.on_release. rewrite Hsel, Hfind. unfold Grafo.drag_merge, bind, modify.
    destruct (Grafo.merge_nodes sel (fst e) self) as [[[]|ex] s']; cbn [fst snd] in *;
      [|discriminate].
    repeat split; assumption.
  - pose proof (find_some _ _ Hfind) as [Hin Hf].
    apply andb_prop in Hf. destruct Hf as [Hne _].
    destruct (Grafo1.node_dec (fst e) sel) as [|Hne']; [discriminate|].
    assert (Hret : fst (Grafo1.merge_nodes sel (fst e) self) = Return tt).
    { rewrite grafo1_merge_nodes_outcome. apply merge_graph_pos_succeeds; try assumption.
      - congruence.
      - apply in_map. exact Hin. }
    pose proof (grafo1_merge_nodes_G self sel (fst e)) as HG.
    unfold Grafo1.on_release. rewrite Hsel, Hfind.
    destruct (Grafo1.merge_nodes sel (fst e) self) as [[[]|ex] s']; cbn [fst snd] in *;
      [|discriminate].
    repeat split; assumption.
Qed.

Lemma drop_on_a_node_merges_witness :
  nx_nodes
    (Grafo.G (snd (Grafo.on_release (set_order := first_seen) (Some (2, 0)%Q)
                     (Grafo.on_motion (Some (2, 0)%Q)
                        (Grafo.on_press (Some (1, 0)%Q) triangle_engine)))))
  = ["0"; "1,2"]%string /\
  Grafo.last_merged_nodes
    (snd (Grafo.on_release (set_order := first_seen) (Some (2, 0)%Q)
            (Grafo.on_motion (Some (2, 0)%Q)
               (Grafo.on_press (Some (1, 0)%Q) triangle_engine))))
  = ["1"; "2"]%string.
Proof.
  destruct (proj1 drop_on_a_node_merges first_seen
              (Grafo.on_motion (Some (2, 0)%Q)
                 (Grafo.on_press (Some (1, 0)%Q) triangle_engine))
              (2, 0)%Q "1"%string ("2"%string, (2, 0)%Q))
    as [_ [HG [_ [HL _]]]];
    [reflexivity | reflexivity | vm_compute; tauto | vm_compute; tauto
    | vm_compute; tauto |].
  split; [|exact HL]. rewrite HG. reflexivity.
Defined.

(** X14.  A release outside the axes, while a node is selected and some other
    node has a position, raises [TypeError] (the event's coordinates are
    [None]) before the selection is cleared: the engine is unchanged, the
    node stays selected, and the next motion over the axes still moves it.
    With no other node the release returns and clears the selection.  In
    both scripts. *)
Theorem release_outside_the_axes_keeps_the_selection :
  (forall (set_order : SetIter string) (self : Grafo.DraggableGraph) (sel : string),
     Grafo.selected_node self = Some sel ->
     ((exists k, In k (dict_keys (Grafo.pos self)) /\ k <> sel) ->
      Grafo.on_release None self = (TypeError, self) /\
      forall xy,
        Grafo.pos (Grafo.on_motion (Some xy) (snd (Grafo.on_release None self)))
        = dict_set string_dec (Grafo.pos self) sel xy) /\
     ((forall k, In k (dict_keys (Grafo.pos self)) -> k = sel) ->
      Grafo.on_release None self = (Handled, Grafo.set_selected_node self None))) /\
  (forall (set_order : SetIter Grafo1.node) (self : Grafo1.DraggableGraph)
          (sel : Grafo1.node),
     Grafo1.selected_node self = Some sel ->
     ((exists k, In k (dict_keys (Grafo1.pos self)) /\ k <> sel) ->
      Grafo1.on_release None self = (TypeError, self) /\
      forall xy,
        Grafo1.pos (Grafo1.on_motion (Some xy) (snd (Grafo1.on_release None self)))
        = dict_set Grafo1.node_dec (Grafo1.pos self) sel xy) /\
     ((forall k, In k (dict_keys (Grafo1.pos self)) -> k = sel) ->
      Grafo1.on_release None self = (Handled, Grafo1.set_selected_node self None))).
Proof.
  split; intros set_order self sel Hsel; split.
  - intros [k [Hk Hne]]. apply in_map_iff in Hk. destruct Hk as [e [<- He]].
    assert (Hex : existsb (fun e => if string_dec (fst e) sel then false else true)
                    (Grafo.pos self) = true).
    { apply existsb_exists. exists e. split; [assumption|].
      destruct (string_dec (fst e) sel); [contradiction | reflexivity]. }
    assert (Hrel : Grafo.on_release None self = (TypeError, self))
      by (unfold Grafo.on_release; now rewrite Hsel, Hex).
    split; [exact Hrel|]. intros xy. rewrite Hrel. cbn [snd].
    unfold Grafo.on_motion. now rewrite Hsel.
  - intros Hall.
    assert (Hex : existsb (fun e => if string_dec (fst e) sel then false else true)
                    (Grafo.pos self) = false).
    { destruct (existsb _ (Grafo.pos self)) eqn:E; [|reflexivity].
      apply existsb_exists in E. destruct E as [e [He Hf]].
      rewrite (Hall (fst e) (in_map fst _ _ He)) in Hf.
      destruct (string_dec sel sel); [discriminate | contradiction]. }
    unfold Grafo.on_release. now rewrite Hsel, Hex.
  - intros [k [Hk Hne]]. apply in_map_iff in Hk. destruct Hk as [e [<- He]].
    assert (Hex : existsb (fun e => if Grafo1.node_dec (fst e) sel then false else true)
                    (Grafo1.pos self) = true).
    { apply existsb_exists. exists e. split; [assumption|].
      destruct (Grafo1.node_dec (fst e) sel); [contradiction | reflexivity]. }
    assert (Hrel : Grafo1.on_release None self = (TypeError, self))
      by (unfold Grafo1.on_release; now rewrite Hsel, Hex).
    split; [exact Hrel|]. intros xy. rewrite Hrel. cbn [snd].
    unfold Grafo1.on_motion. now rewrite Hsel.
  - intros Hall.
    assert (Hex : existsb (fun e => if Grafo1.node_dec (fst e) sel then false else true)
                    (Grafo1.pos self) = false).
    { destruct (existsb _ (Grafo1.pos self)) eqn:E; [|reflexivity].
      apply existsb_exists in E. destruct E as [e [He Hf]].
      rewrite (Hall (fst e) (in_map fst _ _ He)) in Hf.
      destruct (Grafo1.node_dec sel sel); [discriminate | contradiction]. }
    unfold Grafo1.on_release. now rewrite Hsel, Hex.
Qed.

Lemma release_outside_the_axes_keeps_the_selection_witness :
  Grafo.on_release (set_order := first_seen) None
    (Grafo.on_press (Some (1, 0)%Q) triangle_engine)
  = (TypeError, Grafo.on_press (Some (1, 0)%Q) triangle_engine) /\
  Grafo.selected_node (Grafo.on_press (Some (1, 0)%Q) triangle_engine) = Some "1"%string.
Proof.
  split; [|reflexivity].
  destruct (proj1 release_outside_the_axes_keeps_the_selection first_seen
              (Grafo.on_press (Some (1, 0)%Q) triangle_engine) "1"%string eq_refl)
    as [Hout _].
  apply Hout. exists "0"%string. split; [vm_compute; tauto | discriminate].
Defined.
